(** * threepwoods-colly: the classification engine of [main.go]

    A shallow embedding of the origin resolver ([isSameDomain]), of the
    [@import] pattern matcher ([cssRegexp] with [FindAllStringSubmatch]), of
    the crawl callbacks registered by [checkUrl] and of [main], followed by
    the properties of the scanner that are settled on it.

    Go strings are byte strings: they are modelled by [string] (a list of
    8-bit [ascii]).  Go's [regexp] package walks a string rune by rune; the
    matcher below does the same through [DecodeRuneInString]. *)

From Stdlib Require Import Bool Arith NArith List String Ascii Lia.
Import ListNotations.

Local Open Scope string_scope.
Local Open Scope bool_scope.

(** ** Go's [strings] helpers used by [main.go] *)

Module Strings.

(** [strings.HasPrefix(s, p)]: the first bytes of [s] are those of [p]. *)
Fixpoint HasPrefix (s p : string) {struct p} : bool :=
  match p, s with
  | EmptyString, _ => true
  | String _ _, EmptyString => false
  | String a p', String b s' => Ascii.eqb a b && HasPrefix s' p'
  end.

(** [strings.Contains(s, sub)]: [sub] occurs at some offset of [s]. *)
Fixpoint Contains (s sub : string) : bool :=
  HasPrefix s sub ||
  match s with
  | EmptyString => false
  | String _ t => Contains t sub
  end.

(** [strings.HasSuffix(s, suf)]. *)
Definition HasSuffix (s suf : string) : bool :=
  Nat.leb (String.length suf) (String.length s) &&
  String.eqb (substring (String.length s - String.length suf)
                        (String.length suf) s) suf.

(** [s[n:]]: the string without its first [n] bytes. *)
Fixpoint drop (n : nat) (s : string) : string :=
  match n, s with
  | S m, String _ t => drop m t
  | _, _ => s
  end.

(** [strings.Split(s, ":")[0]]: the bytes before the first colon, the whole
    string when it has none. *)
Fixpoint beforeColon (s : string) : string :=
  match s with
  | EmptyString => EmptyString
  | String c t => if Ascii.eqb c ":" then EmptyString
                  else String c (beforeColon t)
  end.

(** [slices.Contains(xs, v)] on a slice of strings. *)
Definition sliceContains (xs : list string) (v : string) : bool :=
  existsb (String.eqb v) xs.

End Strings.

(** ** Runes: [utf8.DecodeRuneInString] *)

Module Utf8.

Local Open Scope N_scope.

Definition RuneError : N := 0xFFFD.

(** The [first] table together with [acceptRanges]: for a leading byte of a
    multi-byte sequence, the length of the sequence and the range allowed
    for its second byte; [None] for a byte that cannot start one. *)
Definition first (b : N) : option (nat * N * N) :=
  if (0xC2 <=? b) && (b <=? 0xDF) then Some (2%nat, 0x80, 0xBF)
  else if b =? 0xE0 then Some (3%nat, 0xA0, 0xBF)
  else if (0xE1 <=? b) && (b <=? 0xEC) then Some (3%nat, 0x80, 0xBF)
  else if b =? 0xED then Some (3%nat, 0x80, 0x9F)
  else if (0xEE <=? b) && (b <=? 0xEF) then Some (3%nat, 0x80, 0xBF)
  else if b =? 0xF0 then Some (4%nat, 0x90, 0xBF)
  else if (0xF1 <=? b) && (b <=? 0xF3) then Some (4%nat, 0x80, 0xBF)
  else if b =? 0xF4 then Some (4%nat, 0x80, 0x8F)
  else None.

Definition byteAt (i : nat) (s : string) : option N :=
  option_map N_of_ascii (String.get i s).

Definition cont (b : N) : bool := (0x80 <=? b) && (b <=? 0xBF).

Definition low6 (b : N) : N := N.land b 0x3F.

(** The rune at the head of [s] and its width in bytes; an invalid or
    truncated sequence decodes to [RuneError] of width 1, the empty string
    to width 0. *)
Definition DecodeRuneInString (s : string) : N * nat :=
  match s with
  | EmptyString => (RuneError, 0%nat)
  | String c0 _ =>
    let s0 := N_of_ascii c0 in
    if s0 <? 0x80 then (s0, 1%nat)
    else
      match first s0 with
      | None => (RuneError, 1%nat)
      | Some (sz, lo, hi) =>
        match byteAt 1 s with
        | None => (RuneError, 1%nat)
        | Some s1 =>
          if (s1 <? lo) || (hi <? s1) then (RuneError, 1%nat)
          else if Nat.leb sz 2 then
            (N.lor (N.shiftl (N.land s0 0x1F) 6) (low6 s1), 2%nat)
          else
            match byteAt 2 s with
            | None => (RuneError, 1%nat)
            | Some s2 =>
              if negb (cont s2) then (RuneError, 1%nat)
              else if Nat.leb sz 3 then
                (N.lor (N.shiftl (N.land s0 0x0F) 12)
                   (N.lor (N.shiftl (low6 s1) 6) (low6 s2)), 3%nat)
              else
                match byteAt 3 s with
                | None => (RuneError, 1%nat)
                | Some s3 =>
                  if negb (cont s3) then (RuneError, 1%nat)
                  else
                    (N.lor (N.shiftl (N.land s0 0x07) 18)
                       (N.lor (N.shiftl (low6 s1) 12)
                          (N.lor (N.shiftl (low6 s2) 6) (low6 s3))), 4%nat)
                end
            end
        end
      end
  end.

End Utf8.

(** ** Go's [regexp]: syntax and leftmost-first matching

    Only the operators that the two patterns of [main.go] use.  A match is
    the one a backtracking engine finds first: a repetition or an option
    tries its operand before it tries to go on without it. *)

Module Regexp.

Inductive regex : Type :=
| Empty                          (* the empty pattern *)
| Class (p : N -> bool)          (* one rune of a character class *)
| Cat (a b : regex)              (* ab *)
| Star (a : regex)               (* a*, greedy *)
| Quest (a : regex)              (* a?, greedy *)
| Group (i : nat) (a : regex)    (* the i-th capturing group *)
| Bol                            (* ^ without the m flag: start of text *)
| Eol.                           (* $ without the m flag: end of text *)

(** [a+] is [a] followed by [a*]. *)
Definition Plus (a : regex) : regex := Cat a (Star a).

(** A literal run of ASCII bytes. *)
Fixpoint Lit (s : string) : regex :=
  match s with
  | EmptyString => Empty
  | String c t => Cat (Class (N.eqb (N_of_ascii c))) (Lit t)
  end.

(** Capture registers, as byte offsets into the text: [start, end) of each
    group that took part in the match. *)
Definition Caps : Type := nat -> option (nat * nat).

Definition noCaps : Caps := fun _ => None.

Definition setCap (i : nat) (v : nat * nat) (c : Caps) : Caps :=
  fun j => if Nat.eqb j i then Some v else c j.

(** A continuation receives the offset reached, the text that is left and
    the registers. *)
Definition Cont : Type := nat -> string -> Caps -> option Caps.

(** The loop of [a*]: one more [a], which has to consume input, then the
    loop again; when that fails, go on after the repetition.  [fuel] bounds
    the iterations and is taken larger than the text left. *)
Fixpoint starLoop (body : nat -> string -> Caps -> Cont -> option Caps)
         (fuel : nat) (pos : nat) (s : string) (c : Caps) (k : Cont)
  : option Caps :=
  match fuel with
  | O => k pos s c
  | S f =>
    match body pos s c
            (fun pos' s' c' =>
               if Nat.ltb (String.length s') (String.length s)
               then starLoop body f pos' s' c' k else None) with
    | Some r => Some r
    | None => k pos s c
    end
  end.

(** [exec r pos s c k]: match [r] at offset [pos], where [s] is the text
    from [pos] on, then continue with [k]; backtrack when [k] fails. *)
Fixpoint exec (r : regex) (pos : nat) (s : string) (c : Caps) (k : Cont)
  : option Caps :=
  match r with
  | Empty => k pos s c
  | Class p =>
    match s with
    | EmptyString => None
    | String _ _ =>
      let (rune, w) := Utf8.DecodeRuneInString s in
      if p rune then k (pos + w) (Strings.drop w s) c else None
    end
  | Cat a b => exec a pos s c (fun pos' s' c' => exec b pos' s' c' k)
  | Star a => starLoop (exec a) (S (String.length s)) pos s c k
  | Quest a =>
    match exec a pos s c k with
    | Some r => Some r
    | None => k pos s c
    end
  | Group i a =>
    exec a pos s c (fun pos' s' c' => k pos' s' (setCap i (pos, pos') c'))
  | Bol => if Nat.eqb pos 0 then k pos s c else None
  | Eol => match s with EmptyString => k pos s c | _ => None end
  end.

(** A match of the whole pattern that starts at [pos]: group 0 spans it. *)
Definition matchAt (r : regex) (pos : nat) (s : string) : option Caps :=
  exec r pos s noCaps (fun pos' _ c => Some (setCap 0 (pos, pos') c)).

(** The leftmost match at or after [pos]: try every rune boundary in turn,
    the end of the text included.  [skip] counts the bytes still to pass
    before the next boundary. *)
Fixpoint search (r : regex) (skip pos : nat) (s : string) : option Caps :=
  match s with
  | EmptyString => matchAt r pos s
  | String _ t =>
    match skip with
    | O =>
      match matchAt r pos s with
      | Some c => Some c
      | None => search r (snd (Utf8.DecodeRuneInString s) - 1) (S pos) t
      end
    | S n => search r n (S pos) t
    end
  end.

(** [re.MatchString(s)]. *)
Definition MatchString (r : regex) (s : string) : bool :=
  match search r 0 0 s with Some _ => true | None => false end.

(** The text of a group, the empty string for a group that took no part. *)
Definition submatch (txt : string) (c : Caps) (i : nat) : string :=
  match c i with
  | Some (b, e) => substring b (e - b) txt
  | None => EmptyString
  end.

(** The loop of [allMatches]: successive non-overlapping matches, each
    searched from the end of the one before; an empty match moves on by one
    rune and is dropped when it touches the match before it. *)
Fixpoint allMatches (r : regex) (fuel : nat) (txt : string)
         (pos : nat) (prevEnd : option nat) : list Caps :=
  match fuel with
  | O => []
  | S f =>
    if Nat.ltb (String.length txt) pos then []
    else
      match search r 0 pos (Strings.drop pos txt) with
      | None => []
      | Some c =>
        match c 0 with
        | None => []
        | Some (b, e) =>
          if Nat.eqb e pos then
            let w := snd (Utf8.DecodeRuneInString (Strings.drop pos txt)) in
            let pos' := if Nat.ltb 0 w then pos + w else S (String.length txt) in
            let rest := allMatches r f txt pos' (Some e) in
            match prevEnd with
            | Some q => if Nat.eqb b q then rest else c :: rest
            | None => c :: rest
            end
          else c :: allMatches r f txt e (Some e)
        end
      end
  end.

(** [re.FindAllStringSubmatch(s, -1)] for a pattern with [n] groups: for
    every match the texts of groups [0..n]. *)
Definition FindAllStringSubmatch (r : regex) (n : nat) (s : string)
  : list (list string) :=
  map (fun c => map (submatch s c) (seq 0 (S n)))
      (allMatches r (String.length s + 2) s 0 None).

End Regexp.

(** ** The patterns of [main.go] *)

Module Patterns.

Import Regexp.
Local Open Scope N_scope.

Definition between (lo hi : ascii) (r : N) : bool :=
  (N_of_ascii lo <=? r) && (r <=? N_of_ascii hi).

Definition char (c : ascii) (r : N) : bool := r =? N_of_ascii c.

(** [[a-zA-Z0-9-_.]]: after the range [0-9] the hyphen stands for
    itself. *)
Definition pathChar (r : N) : bool :=
  between "a" "z" r || between "A" "Z" r || between "0" "9" r
  || char "-" r || char "_" r || char "." r.

(** [[#?]] *)
Definition hashOrQuery (r : N) : bool := char "#" r || char "?" r.

(** [.] without the s flag: any rune but the line feed. *)
Definition anyButNewline (r : N) : bool := negb (r =? 10).

(** [\W]: any rune that is not an ASCII word character. *)
Definition nonWord (r : N) : bool :=
  negb (between "0" "9" r || between "A" "Z" r || char "_" r
        || between "a" "z" r).

(** The class of the two quote characters, single (39) and double (34). *)
Definition quote (r : N) : bool := char "'" r || (r =? 34).

(** The negated class of the second group: any rune but the closing
    parenthesis and the two quote characters; a negated class also takes
    the line feed. *)
Definition notParenQuote (r : N) : bool := negb (char ")" r || quote r).

(** The pattern of [isSameDomain]: the start of the text; any number of
    times group 1, an optional slash followed by one or more runes of
    [[a-zA-Z0-9-_.]]; optionally group 2, one of [#] and [?] followed by a
    greedy run of [.]; the end of the text. *)
Definition localLinkRegexp : regex :=
  Cat Bol
 (Cat (Star (Group 1 (Cat (Quest (Class (char "/"))) (Plus (Class pathChar)))))
 (Cat (Quest (Group 2 (Cat (Class hashOrQuery) (Star (Class anyButNewline)))))
      Eol)).

(** [cssRegexp] of [checkUrl]: the literal [@import], an optional non-word
    rune, an optional group [(url)], an optional opening parenthesis, an
    optional quote, the group of the target (a greedy run of runes that are
    neither quotes nor a closing parenthesis), an optional quote and an
    optional closing parenthesis. *)
Definition cssRegexp : regex :=
  Cat (Lit "@import")
 (Cat (Quest (Class nonWord))
 (Cat (Quest (Group 1 (Lit "url")))
 (Cat (Quest (Class (char "(")))
 (Cat (Quest (Class quote))
 (Cat (Group 2 (Star (Class notParenQuote)))
 (Cat (Quest (Class quote))
      (Quest (Class (char ")"))))))))).

End Patterns.

(** ** The origin resolver *)

(** [isSameDomain(url, baseUrl, domain)]. *)
Definition isSameDomain (url baseUrl domain : string) : bool :=
  let localLink := Regexp.MatchString Patterns.localLinkRegexp url in
  if localLink then true
  else if Strings.HasPrefix url ("//" ++ domain) then true
  else if Strings.HasPrefix url baseUrl then true
  else if String.eqb url "about:blank" then true
  else false.

(** The import targets of a style sheet: [m[2]] for every [m] of
    [cssRegexp.FindAllStringSubmatch(text, -1)], as the [style] and response
    callbacks of [checkUrl] read them. *)
Definition extractImports (text : string) : list string :=
  map (fun m => nth 2 m EmptyString)
      (Regexp.FindAllStringSubmatch Patterns.cssRegexp 2 text).

(** ** The report

    [ScanResult] of [main.go].  [visits] is a [uint32]; the mutex [mu] is
    modelled by the flag that tells whether it is held. *)

Record ScanResult : Type := {
  visits : N;
  googleAnalyticsScriptSrc : bool;
  googleAnalyticsScript : bool;
  googleAnalyticsIFrame : bool;
  googleFontsLink : bool;
  googleFontsCss : list string;
  googleFontsStyle : list string;
  googleFontsScript : bool;
  otherLinks : list string;
  otherScripts : list string;
  otherIFrames : list string;
  otherCss : list string;
  otherPreconnect : list string;
  otherStyle : list string;
  dnsPrefetch : bool;
  mu : bool
}.

(** The zero value that [var scanResult ScanResult] declares. *)
Definition emptyResult : ScanResult :=
  {| visits := 0%N;
     googleAnalyticsScriptSrc := false; googleAnalyticsScript := false;
     googleAnalyticsIFrame := false; googleFontsLink := false;
     googleFontsCss := []; googleFontsStyle := []; googleFontsScript := false;
     otherLinks := []; otherScripts := []; otherIFrames := []; otherCss := [];
     otherPreconnect := []; otherStyle := []; dnsPrefetch := false;
     mu := false |}.

(** The boolean findings and the string-valued findings, by name. *)
Inductive Flag : Type :=
| GoogleAnalyticsScriptSrc | GoogleAnalyticsScript | GoogleAnalyticsIFrame
| GoogleFontsLink | GoogleFontsScript | DnsPrefetch.

Inductive Bucket : Type :=
| GoogleFontsCss | GoogleFontsStyle | OtherLinks | OtherScripts
| OtherIFrames | OtherCss | OtherPreconnect | OtherStyle.

Definition flag (f : Flag) (r : ScanResult) : bool :=
  match f with
  | GoogleAnalyticsScriptSrc => googleAnalyticsScriptSrc r
  | GoogleAnalyticsScript => googleAnalyticsScript r
  | GoogleAnalyticsIFrame => googleAnalyticsIFrame r
  | GoogleFontsLink => googleFontsLink r
  | GoogleFontsScript => googleFontsScript r
  | DnsPrefetch => dnsPrefetch r
  end.

Definition bucket (b : Bucket) (r : ScanResult) : list string :=
  match b with
  | GoogleFontsCss => googleFontsCss r
  | GoogleFontsStyle => googleFontsStyle r
  | OtherLinks => otherLinks r
  | OtherScripts => otherScripts r
  | OtherIFrames => otherIFrames r
  | OtherCss => otherCss r
  | OtherPreconnect => otherPreconnect r
  | OtherStyle => otherStyle r
  end.

(** Assignment to one field; the other fields keep their values. *)
Definition setFlag (f : Flag) (v : bool) (r : ScanResult) : ScanResult :=
  match f with
  | GoogleAnalyticsScriptSrc =>
    {| visits := visits r; googleAnalyticsScriptSrc := v;
       googleAnalyticsScript := googleAnalyticsScript r;
       googleAnalyticsIFrame := googleAnalyticsIFrame r;
       googleFontsLink := googleFontsLink r;
       googleFontsCss := googleFontsCss r;
       googleFontsStyle := googleFontsStyle r;
       googleFontsScript := googleFontsScript r; otherLinks := otherLinks r;
       otherScripts := otherScripts r; otherIFrames := otherIFrames r;
       otherCss := otherCss r; otherPreconnect := otherPreconnect r;
       otherStyle := otherStyle r; dnsPrefetch := dnsPrefetch r;
       mu := mu r |}
  | GoogleAnalyticsScript =>
    {| visits := visits r;
       googleAnalyticsScriptSrc := googleAnalyticsScriptSrc r;
       googleAnalyticsScript := v;
       googleAnalyticsIFrame := googleAnalyticsIFrame r;
       googleFontsLink := googleFontsLink r;
       googleFontsCss := googleFontsCss r;
       googleFontsStyle := googleFontsStyle r;
       googleFontsScript := googleFontsScript r; otherLinks := otherLinks r;
       otherScripts := otherScripts r; otherIFrames := otherIFrames r;
       otherCss := otherCss r; otherPreconnect := otherPreconnect r;
       otherStyle := otherStyle r; dnsPrefetch := dnsPrefetch r;
       mu := mu r |}
  | GoogleAnalyticsIFrame =>
    {| visits := visits r;
       googleAnalyticsScriptSrc := googleAnalyticsScriptSrc r;
       googleAnalyticsScript := googleAnalyticsScript r;
       googleAnalyticsIFrame := v; googleFontsLink := googleFontsLink r;
       googleFontsCss := googleFontsCss r;
       googleFontsStyle := googleFontsStyle r;
       googleFontsScript := googleFontsScript r; otherLinks := otherLinks r;
       otherScripts := otherScripts r; otherIFrames := otherIFrames r;
       otherCss := otherCss r; otherPreconnect := otherPreconnect r;
       otherStyle := otherStyle r; dnsPrefetch := dnsPrefetch r;
       mu := mu r |}
  | GoogleFontsLink =>
    {| visits := visits r;
       googleAnalyticsScriptSrc := googleAnalyticsScriptSrc r;
       googleAnalyticsScript := googleAnalyticsScript r;
       googleAnalyticsIFrame := googleAnalyticsIFrame r;
       googleFontsLink := v; googleFontsCss := googleFontsCss r;
       googleFontsStyle := googleFontsStyle r;
       googleFontsScript := googleFontsScript r; otherLinks := otherLinks r;
       otherScripts := otherScripts r; otherIFrames := otherIFrames r;
       otherCss := otherCss r; otherPreconnect := otherPreconnect r;
       otherStyle := otherStyle r; dnsPrefetch := dnsPrefetch r;
       mu := mu r |}
  | GoogleFontsScript =>
    {| visits := visits r;
       googleAnalyticsScriptSrc := googleAnalyticsScriptSrc r;
       googleAnalyticsScript := googleAnalyticsScript r;
       googleAnalyticsIFrame := googleAnalyticsIFrame r;
       googleFontsLink := googleFontsLink r;
       googleFontsCss := googleFontsCss r;
       googleFontsStyle := googleFontsStyle r; googleFontsScript := v;
       otherLinks := otherLinks r; otherScripts := otherScripts r;
       otherIFrames := otherIFrames r; otherCss := otherCss r;
       otherPreconnect := otherPreconnect r; otherStyle := otherStyle r;
       dnsPrefetch := dnsPrefetch r; mu := mu r |}
  | DnsPrefetch =>
    {| visits := visits r;
       googleAnalyticsScriptSrc := googleAnalyticsScriptSrc r;
       googleAnalyticsScript := googleAnalyticsScript r;
       googleAnalyticsIFrame := googleAnalyticsIFrame r;
       googleFontsLink := googleFontsLink r;
       googleFontsCss := googleFontsCss r;
       googleFontsStyle := googleFontsStyle r;
       googleFontsScript := googleFontsScript r; otherLinks := otherLinks r;
       otherScripts := otherScripts r; otherIFrames := otherIFrames r;
       otherCss := otherCss r; otherPreconnect := otherPreconnect r;
       otherStyle := otherStyle r; dnsPrefetch := v; mu := mu r |}
  end.

Definition setBucket (b : Bucket) (v : list string) (r : ScanResult)
  : ScanResult :=
  match b with
  | GoogleFontsCss =>
    {| visits := visits r;
       googleAnalyticsScriptSrc := googleAnalyticsScriptSrc r;
       googleAnalyticsScript := googleAnalyticsScript r;
       googleAnalyticsIFrame := googleAnalyticsIFrame r;
       googleFontsLink := googleFontsLink r; googleFontsCss := v;
       googleFontsStyle := googleFontsStyle r;
       googleFontsScript := googleFontsScript r; otherLinks := otherLinks r;
       otherScripts := otherScripts r; otherIFrames := otherIFrames r;
       otherCss := otherCss r; otherPreconnect := otherPreconnect r;
       otherStyle := otherStyle r; dnsPrefetch := dnsPrefetch r;
       mu := mu r |}
  | GoogleFontsStyle =>
    {| visits := visits r;
       googleAnalyticsScriptSrc := googleAnalyticsScriptSrc r;
       googleAnalyticsScript := googleAnalyticsScript r;
       googleAnalyticsIFrame := googleAnalyticsIFrame r;
       googleFontsLink := googleFontsLink r;
       googleFontsCss := googleFontsCss r; googleFontsStyle := v;
       googleFontsScript := googleFontsScript r; otherLinks := otherLinks r;
       otherScripts := otherScripts r; otherIFrames := otherIFrames r;
       otherCss := otherCss r; otherPreconnect := otherPreconnect r;
       otherStyle := otherStyle r; dnsPrefetch := dnsPrefetch r;
       mu := mu r |}
  | OtherLinks =>
    {| visits := visits r;
       googleAnalyticsScriptSrc := googleAnalyticsScriptSrc r;
       googleAnalyticsScript := googleAnalyticsScript r;
       googleAnalyticsIFrame := googleAnalyticsIFrame r;
       googleFontsLink := googleFontsLink r;
       googleFontsCss := googleFontsCss r;
       googleFontsStyle := googleFontsStyle r;
       googleFontsScript := googleFontsScript r; otherLinks := v;
       otherScripts := otherScripts r; otherIFrames := otherIFrames r;
       otherCss := otherCss r; otherPreconnect := otherPreconnect r;
       otherStyle := otherStyle r; dnsPrefetch := dnsPrefetch r;
       mu := mu r |}
  | OtherScripts =>
    {| visits := visits r;
       googleAnalyticsScriptSrc := googleAnalyticsScriptSrc r;
       googleAnalyticsScript := googleAnalyticsScript r;
       googleAnalyticsIFrame := googleAnalyticsIFrame r;
       googleFontsLink := googleFontsLink r;
       googleFontsCss := googleFontsCss r;
       googleFontsStyle := googleFontsStyle r;
       googleFontsScript := googleFontsScript r; otherLinks := otherLinks r;
       otherScripts := v; otherIFrames := otherIFrames r;
       otherCss := otherCss r; otherPreconnect := otherPreconnect r;
       otherStyle := otherStyle r; dnsPrefetch := dnsPrefetch r;
       mu := mu r |}
  | OtherIFrames =>
    {| visits := visits r;
       googleAnalyticsScriptSrc := googleAnalyticsScriptSrc r;
       googleAnalyticsScript := googleAnalyticsScript r;
       googleAnalyticsIFrame := googleAnalyticsIFrame r;
       googleFontsLink := googleFontsLink r;
       googleFontsCss := googleFontsCss r;
       googleFontsStyle := googleFontsStyle r;
       googleFontsScript := googleFontsScript r; otherLinks := otherLinks r;
       otherScripts := otherScripts r; otherIFrames := v;
       otherCss := otherCss r; otherPreconnect := otherPreconnect r;
       otherStyle := otherStyle r; dnsPrefetch := dnsPrefetch r;
       mu := mu r |}
  | OtherCss =>
    {| visits := visits r;
       googleAnalyticsScriptSrc := googleAnalyticsScriptSrc r;
       googleAnalyticsScript := googleAnalyticsScript r;
       googleAnalyticsIFrame := googleAnalyticsIFrame r;
       googleFontsLink := googleFontsLink r;
       googleFontsCss := googleFontsCss r;
       googleFontsStyle := googleFontsStyle r;
       googleFontsScript := googleFontsScript r; otherLinks := otherLinks r;
       otherScripts := otherScripts r; otherIFrames := otherIFrames r;
       otherCss := v; otherPreconnect := otherPreconnect r;
       otherStyle := otherStyle r; dnsPrefetch := dnsPrefetch r;
       mu := mu r |}
  | OtherPreconnect =>
    {| visits := visits r;
       googleAnalyticsScriptSrc := googleAnalyticsScriptSrc r;
       googleAnalyticsScript := googleAnalyticsScript r;
       googleAnalyticsIFrame := googleAnalyticsIFrame r;
       googleFontsLink := googleFontsLink r;
       googleFontsCss := googleFontsCss r;
       googleFontsStyle := googleFontsStyle r;
       googleFontsScript := googleFontsScript r; otherLinks := otherLinks r;
       otherScripts := otherScripts r; otherIFrames := otherIFrames r;
       otherCss := otherCss r; otherPreconnect := v;
       otherStyle := otherStyle r; dnsPrefetch := dnsPrefetch r;
       mu := mu r |}
  | OtherStyle =>
    {| visits := visits r;
       googleAnalyticsScriptSrc := googleAnalyticsScriptSrc r;
       googleAnalyticsScript := googleAnalyticsScript r;
       googleAnalyticsIFrame := googleAnalyticsIFrame r;
       googleFontsLink := googleFontsLink r;
       googleFontsCss := googleFontsCss r;
       googleFontsStyle := googleFontsStyle r;
       googleFontsScript := googleFontsScript r; otherLinks := otherLinks r;
       otherScripts := otherScripts r; otherIFrames := otherIFrames r;
       otherCss := otherCss r; otherPreconnect := otherPreconnect r;
       otherStyle := v; dnsPrefetch := dnsPrefetch r; mu := mu r |}
  end.

Definition setVisits (v : N) (r : ScanResult) : ScanResult :=
  {| visits := v; googleAnalyticsScriptSrc := googleAnalyticsScriptSrc r;
     googleAnalyticsScript := googleAnalyticsScript r;
     googleAnalyticsIFrame := googleAnalyticsIFrame r;
     googleFontsLink := googleFontsLink r;
     googleFontsCss := googleFontsCss r;
     googleFontsStyle := googleFontsStyle r;
     googleFontsScript := googleFontsScript r; otherLinks := otherLinks r;
     otherScripts := otherScripts r; otherIFrames := otherIFrames r;
     otherCss := otherCss r; otherPreconnect := otherPreconnect r;
     otherStyle := otherStyle r; dnsPrefetch := dnsPrefetch r; mu := mu r |}.

Definition setMu (v : bool) (r : ScanResult) : ScanResult :=
  {| visits := visits r;
     googleAnalyticsScriptSrc := googleAnalyticsScriptSrc r;
     googleAnalyticsScript := googleAnalyticsScript r;
     googleAnalyticsIFrame := googleAnalyticsIFrame r;
     googleFontsLink := googleFontsLink r;
     googleFontsCss := googleFontsCss r;
     googleFontsStyle := googleFontsStyle r;
     googleFontsScript := googleFontsScript r; otherLinks := otherLinks r;
     otherScripts := otherScripts r; otherIFrames := otherIFrames r;
     otherCss := otherCss r; otherPreconnect := otherPreconnect r;
     otherStyle := otherStyle r; dnsPrefetch := dnsPrefetch r; mu := v |}.

(** ** Callbacks as state transformers with a trace

    A callback of [checkUrl] reads and writes the [scanResult] that the
    closures share, asks the collector to visit URLs and prints.  It is
    modelled as a function from the report to a value, the new report and the
    events performed, in order. *)

Inductive Event : Type :=
| EvLock                                   (* scanResult.mu.Lock() *)
| EvUnlock                                 (* scanResult.mu.Unlock() *)
| EvVisits                                 (* scanResult.visits += 1 *)
| EvSetFlag (f : Flag)                     (* scanResult.f = true *)
| EvAppend (b : Bucket) (v : string)       (* scanResult.b = append(.., v) *)
| EvVisit (url : string)                   (* e.Request.Visit(url) *)
| EvPrint.                                 (* fmt.Printf / Println *)

Definition M (A : Type) : Type := ScanResult -> A * ScanResult * list Event.

Definition ret {A : Type} (a : A) : M A := fun r => (a, r, []).

Definition bind {A B : Type} (m : M A) (k : A -> M B) : M B :=
  fun r =>
    let '(a, r1, t1) := m r in
    let '(b, r2, t2) := k a r1 in
    (b, r2, (t1 ++ t2)%list).

Notation "m ;; k" := (bind m (fun _ => k))
  (at level 61, right associativity).

(** The report and the trace that running [m] from [r] leaves. *)
Definition result {A : Type} (m : M A) (r : ScanResult) : ScanResult :=
  snd (fst (m r)).

Definition trace {A : Type} (m : M A) (r : ScanResult) : list Event :=
  snd (m r).

Definition Lock : M unit := fun r => (tt, setMu true r, [EvLock]).

Definition Unlock : M unit := fun r => (tt, setMu false r, [EvUnlock]).

(** [scanResult.visits += 1] on a [uint32]. *)
Definition incVisits : M unit :=
  fun r => (tt, setVisits ((visits r + 1) mod 2 ^ 32)%N r, [EvVisits]).

(** [scanResult.f = true]. *)
Definition raise (f : Flag) : M unit :=
  fun r => (tt, setFlag f true r, [EvSetFlag f]).

(** [if !slices.Contains(scanResult.b, v) { scanResult.b = append(scanResult.b, v) }]. *)
Definition appendIfAbsent (b : Bucket) (v : string) : M unit :=
  fun r =>
    if Strings.sliceContains (bucket b r) v then (tt, r, [])
    else (tt, setBucket b (bucket b r ++ [v])%list r, [EvAppend b v]).

Definition Visit (url : string) : M unit := fun r => (tt, r, [EvVisit url]).

Definition Print : M unit := fun r => (tt, r, [EvPrint]).

(** [for _, x := range xs { body(x) }]. *)
Fixpoint forEach {A : Type} (xs : list A) (body : A -> M unit) : M unit :=
  match xs with
  | [] => ret tt
  | x :: rest => body x ;; forEach rest body
  end.

(** ** What the collector hands to a callback *)

(** An element: its attributes in document order and its text. *)
Record HTMLElement : Type := {
  attributes : list (string * string);
  Text : string
}.

(** [e.Attr(k)]: the value of the first attribute named [k], the empty
    string when there is none. *)
Fixpoint lookupAttr (attrs : list (string * string)) (k : string) : string :=
  match attrs with
  | [] => EmptyString
  | (key, val) :: rest => if String.eqb key k then val else lookupAttr rest k
  end.

Definition Attr (e : HTMLElement) (k : string) : string :=
  lookupAttr (attributes e) k.

(** A response: [r.Request.URL.Path] and [string(r.Body)]. *)
Record Response : Type := {
  Path : string;
  Body : string
}.

(** ** [checkUrl]: the target and the callbacks *)

(** [protocol] of [checkUrl]. *)
Definition protocolOf (urlString : string) : string :=
  let protocol := Strings.beforeColon urlString in
  if negb (String.eqb protocol "https") && negb (String.eqb protocol "http")
  then "https" else protocol.

(** [baseUrl] of [checkUrl]; [domain] is [u.Hostname()] and [port] is
    [u.Port()] of the parsed [urlString]. *)
Definition baseUrlOf (urlString domain port : string) : string :=
  let baseUrl := protocolOf urlString ++ "://" ++ domain in
  if negb (String.eqb port "") then baseUrl ++ ":" ++ port else baseUrl.

Section Callbacks.

(** The flag [-v] and the two strings that the closures capture. *)
Variable verbose : bool.
Variables baseUrl domain : string.

Definition whenVerbose : M unit := if verbose then Print else ret tt.

(** [c.OnHTML("a[href]", ...)]. *)
Definition aHandler (e : HTMLElement) : M unit :=
  Visit (Attr e "href").

(** [c.OnRequest(...)]; the deferred [Unlock] runs when the callback
    returns. *)
Definition requestHandler : M unit :=
  Lock ;;
  incVisits ;;
  Print ;;
  Unlock.

(** The body of [c.OnHTML("link[href]", ...)] between [Lock] and the
    deferred [Unlock]. *)
Definition linkBody (e : HTMLElement) : M unit :=
  let href := Attr e "href" in
  Visit href ;;
  let thirdParty := negb (isSameDomain href baseUrl domain) in
  if String.eqb (Attr e "rel") "dns-prefetch" then
    raise DnsPrefetch ;; whenVerbose
  else if String.eqb (Attr e "rel") "preconnect" && thirdParty then
    appendIfAbsent OtherPreconnect href ;; whenVerbose
  else if Strings.Contains href "fonts.googleapis.com"
          || Strings.Contains href "fonts.gstatic.com" then
    raise GoogleFontsLink ;; whenVerbose
  else if thirdParty then
    appendIfAbsent OtherLinks href ;; whenVerbose
  else ret tt.

Definition linkHandler (e : HTMLElement) : M unit :=
  Lock ;; linkBody e ;; Unlock.

(** The two tests on the text of a [script] element, reached when its
    [src] did not decide. *)
Definition scriptText (e : HTMLElement) : M unit :=
  if Strings.Contains (Text e) "googletagmanager.com" then
    raise GoogleAnalyticsScript ;; whenVerbose
  else if Strings.Contains (Text e) "fonts.googleapis.com" then
    raise GoogleFontsScript ;; whenVerbose
  else ret tt.

Definition scriptBody (e : HTMLElement) : M unit :=
  let src := Attr e "src" in
  if negb (String.eqb src "") then
    let thirdParty := negb (isSameDomain src baseUrl domain) in
    if Strings.Contains src "googletagmanager.com" then
      raise GoogleAnalyticsScriptSrc ;; whenVerbose
    else if thirdParty then
      appendIfAbsent OtherScripts src ;; whenVerbose
    else scriptText e
  else scriptText e.

(** [c.OnHTML("script", ...)]. *)
Definition scriptHandler (e : HTMLElement) : M unit :=
  Lock ;; scriptBody e ;; Unlock.

Definition iframeBody (e : HTMLElement) : M unit :=
  let src := Attr e "src" in
  if negb (String.eqb src "") then
    let thirdParty := negb (isSameDomain src baseUrl domain) in
    if Strings.Contains src "googletagmanager.com" then
      raise GoogleAnalyticsIFrame ;; whenVerbose
    else if thirdParty then
      appendIfAbsent OtherIFrames src ;; whenVerbose
    else ret tt
  else ret tt.

(** [c.OnHTML("iframe[src]", ...)]. *)
Definition iframeHandler (e : HTMLElement) : M unit :=
  Lock ;; iframeBody e ;; Unlock.

(** One turn of the loop over the matches of [cssRegexp], for the target
    [sm]; [fonts] and [other] are the two slices that the callback fills. *)
Definition importTarget (fonts other : Bucket) (sm : string) : M unit :=
  if Strings.Contains sm "googleapis.com" then
    appendIfAbsent fonts sm ;; whenVerbose
  else
    let thirdParty := negb (isSameDomain sm baseUrl domain) in
    if thirdParty then
      appendIfAbsent other sm ;; whenVerbose
    else ret tt.

(** The scan of a style sheet text that the [style] callback and the
    response callback share. *)
Definition scanCss (fonts other : Bucket) (text : string) : M unit :=
  if Regexp.MatchString Patterns.cssRegexp text then
    let result := Regexp.FindAllStringSubmatch Patterns.cssRegexp 2 text in
    forEach result (fun m => importTarget fonts other (nth 2 m EmptyString))
  else ret tt.

(** [c.OnHTML("style", ...)]: the mutex is not taken. *)
Definition styleHandler (e : HTMLElement) : M unit :=
  if negb (String.eqb (Text e) "") then
    scanCss GoogleFontsStyle OtherStyle (Text e)
  else ret tt.

(** [c.OnResponse(...)]: the mutex is not taken. *)
Definition responseHandler (resp : Response) : M unit :=
  if Strings.HasSuffix (Path resp) "css" then
    scanCss GoogleFontsCss OtherCss (Body resp)
  else ret tt.

(** The events that the collector delivers, and the callback that each one
    runs. *)
Inductive CrawlEvent : Type :=
| OnA (e : HTMLElement)
| OnRequest
| OnLink (e : HTMLElement)
| OnScript (e : HTMLElement)
| OnIFrame (e : HTMLElement)
| OnStyle (e : HTMLElement)
| OnResponse (resp : Response).

Definition dispatch (ev : CrawlEvent) : M unit :=
  match ev with
  | OnA e => aHandler e
  | OnRequest => requestHandler
  | OnLink e => linkHandler e
  | OnScript e => scriptHandler e
  | OnIFrame e => iframeHandler e
  | OnStyle e => styleHandler e
  | OnResponse resp => responseHandler resp
  end.

End Callbacks.

(** ** [main] *)

(** What the process does towards its environment. *)
Inductive ProcEvent : Type :=
| Println (s : string)
| PrintDefaults
| CheckUrl (urlString : string).

(** How a run of the process ends. *)
Inductive Outcome (A : Type) : Type :=
| Returned (a : A)
| Exited (code : nat)                (* os.Exit(code) *)
| Panicked.                          (* index out of range *)

Arguments Returned {A} a.
Arguments Exited {A} code.
Arguments Panicked {A}.

Definition Proc (A : Type) : Type := list ProcEvent * Outcome A.

Definition pret {A : Type} (a : A) : Proc A := ([], Returned a).

(** Sequencing: nothing runs after an exit or a panic. *)
Definition pbind {A B : Type} (m : Proc A) (k : A -> Proc B) : Proc B :=
  match m with
  | (t, Returned a) => let (t', o) := k a in ((t ++ t')%list, o)
  | (t, Exited code) => (t, Exited code)
  | (t, Panicked) => (t, Panicked)
  end.

Notation "m ;;; k" := (pbind m (fun _ => k))
  (at level 61, right associativity).

Definition emit (ev : ProcEvent) : Proc unit := ([ev], Returned tt).

Definition osExit {A : Type} (code : nat) : Proc A := ([], Exited code).

Definition usage : string :=
  "Usage: threepwoods-colly [-d 3] [-v] http://website.com".

(** [main] after [flag.Parse()]; [values] is [flag.Args()]. *)
Definition main (values : list string) : Proc unit :=
  (if Nat.eqb (List.length values) 0 then
     emit (Println usage) ;;; emit PrintDefaults ;;; osExit 1
   else pret tt) ;;;
  match nth_error values 0 with
  | Some v => emit (CheckUrl v)
  | None => ([], Panicked)
  end.

(** ** Notions used to state the properties *)

(** The mutations of the report among the events. *)
Definition isMutation (ev : Event) : bool :=
  match ev with
  | EvVisits | EvSetFlag _ | EvAppend _ _ => true
  | _ => false
  end.

(** Lock discipline of one callback run: every mutation of the trace happens
    between a [Lock] and the next [Unlock]; [held] tells whether the mutex is
    held where the trace starts. *)
Fixpoint guarded (held : bool) (t : list Event) : bool :=
  match t with
  | [] => true
  | EvLock :: rest => guarded true rest
  | EvUnlock :: rest => guarded false rest
  | ev :: rest => (if isMutation ev then held else true) && guarded held rest
  end.

(** A trace that neither takes nor releases the mutex. *)
Definition lockFree (t : list Event) : Prop :=
  ~ In EvLock t /\ ~ In EvUnlock t.

(** The invariant of the string-valued findings: no bucket holds a value
    twice. *)
Definition NoDupBuckets (r : ScanResult) : Prop :=
  forall b, NoDup (bucket b r).

(** [r'] keeps every bucket of [r] as a prefix: what was recorded stays where
    it was, later values come after it. *)
Definition Extends (r r' : ScanResult) : Prop :=
  forall b, exists added, bucket b r' = (bucket b r ++ added)%list.

(** Running the callbacks for a sequence of events, each one to its end
    before the next one starts: the order of things that the mutex imposes
    on the callbacks that take it. *)
Definition crawl (verbose : bool) (baseUrl domain : string)
           (evs : list CrawlEvent) : M unit :=
  forEach evs (dispatch verbose baseUrl domain).

(** The marker test that the specification gives for Google Fonts in links
    and style sheets; the [link] callback applies it to [href]. *)
Definition matchesGoogleFonts (s : string) : bool :=
  Strings.Contains s "fonts.googleapis.com"
  || Strings.Contains s "fonts.gstatic.com".

(** *** The local-path grammar, as the specification words it *)

Module LocalPathGrammar.

(** A character of [[A-Za-z0-9-_.]]. *)
Definition segmentChar (c : ascii) : bool :=
  let n := nat_of_ascii c in
  (Nat.leb 65 n && Nat.leb n 90) || (Nat.leb 97 n && Nat.leb n 122)
  || (Nat.leb 48 n && Nat.leb n 57)
  || Ascii.eqb c "-" || Ascii.eqb c "_" || Ascii.eqb c ".".

(** A path segment: one or more such characters. *)
Inductive Segment : string -> Prop :=
| seg_one c : segmentChar c = true -> Segment (String c EmptyString)
| seg_more c s : segmentChar c = true -> Segment s -> Segment (String c s).

(** One or more segments, separated by slashes. *)
Inductive Segments : string -> Prop :=
| segs_one s : Segment s -> Segments s
| segs_more s t : Segment s -> Segments t -> Segments (s ++ "/" ++ t).

(** An optional leading slash, then the segments. *)
Inductive Path : string -> Prop :=
| path_relative s : Segments s -> Path s
| path_rooted s : Segments s -> Path (String "/" s).

(** A fragment or query suffix: [#] or [?] and whatever follows. *)
Inductive Suffix : string -> Prop :=
| suffix_fragment rest : Suffix (String "#" rest)
| suffix_query rest : Suffix (String "?" rest).

(** A local path: a path, a path with a suffix, or a suffix alone. *)
Inductive LocalPath : string -> Prop :=
| local_path p : Path p -> LocalPath p
| local_path_suffix p s : Path p -> Suffix s -> LocalPath (p ++ s)
| local_suffix s : Suffix s -> LocalPath s.

(** No byte of [s] is the line feed. *)
Fixpoint noLineFeed (s : string) : bool :=
  match s with
  | EmptyString => true
  | String c t => negb (Nat.eqb (nat_of_ascii c) 10) && noLineFeed t
  end.

End LocalPathGrammar.

(** Some strings used in the examples. *)
Definition lf : string := String (ascii_of_nat 10) EmptyString.

Definition dquote : string := String (ascii_of_nat 34) EmptyString.

Definition linkElement (rel href : string) : HTMLElement :=
  {| attributes := [("rel", rel); ("href", href)]; Text := EmptyString |}.

Definition styleElement (text : string) : HTMLElement :=
  {| attributes := []; Text := text |}.

(** A computation keeps the invariant of the buckets and only ever extends
    them. *)
Definition Preserves {A : Type} (m : M A) : Prop :=
  forall r,
    (NoDupBuckets r -> NoDupBuckets (result m r)) /\ Extends r (result m r).

(** A computation whose trace never touches the mutex. *)
Definition LockFree {A : Type} (m : M A) : Prop :=
  forall r, lockFree (trace m r).

(** *** Declarative reading of a pattern

    [Matches r (pos, s) (pos', s')]: the pattern [r], started at offset [pos]
    where the text left is [s], can stop at offset [pos'] with [s'] left.
    This is the language of the pattern without the priorities of the
    search; [exec] finds a match whenever one exists. *)

Inductive Matches : Regexp.regex -> nat * string -> nat * string -> Prop :=
| M_Empty st : Matches Regexp.Empty st st
| M_Class p pos s rune w :
    s <> EmptyString ->
    Utf8.DecodeRuneInString s = (rune, w) ->
    p rune = true ->
    Matches (Regexp.Class p) (pos, s) (pos + w, Strings.drop w s)
| M_Cat a b st1 st2 st3 :
    Matches a st1 st2 -> Matches b st2 st3 -> Matches (Regexp.Cat a b) st1 st3
| M_Star_stop a st : Matches (Regexp.Star a) st st
| M_Star_more a pos s pos1 s1 st2 :
    Matches a (pos, s) (pos1, s1) ->
    String.length s1 < String.length s ->
    Matches (Regexp.Star a) (pos1, s1) st2 ->
    Matches (Regexp.Star a) (pos, s) st2
| M_Quest_skip a st : Matches (Regexp.Quest a) st st
| M_Quest_take a st st' : Matches a st st' -> Matches (Regexp.Quest a) st st'
| M_Group i a st st' : Matches a st st' -> Matches (Regexp.Group i a) st st'
| M_Bol s : Matches Regexp.Bol (0, s) (0, s)
| M_Eol pos : Matches Regexp.Eol (pos, EmptyString) (pos, EmptyString).

(** *** Notions for the rest of [main.go] *)

(** The requests among the events of a crawl. *)
Fixpoint requests (evs : list CrawlEvent) : nat :=
  match evs with
  | [] => 0
  | OnRequest :: rest => S (requests rest)
  | _ :: rest => requests rest
  end.

(** A step relation on reports that a computation stays within. *)
Definition Respects (P : ScanResult -> ScanResult -> Prop) {A : Type}
           (m : M A) : Prop :=
  forall r, P r (result m r).

(** What the callbacks test before they file a reference [v] in a bucket:
    the tests that guard the append to each slice in [checkUrl]. *)
Definition wellFiled (baseUrl domain : string) (b : Bucket) (v : string)
  : bool :=
  match b with
  | GoogleFontsCss | GoogleFontsStyle =>
    Strings.Contains v "googleapis.com"
  | OtherCss | OtherStyle =>
    negb (Strings.Contains v "googleapis.com")
    && negb (isSameDomain v baseUrl domain)
  | OtherLinks =>
    negb (matchesGoogleFonts v) && negb (isSameDomain v baseUrl domain)
  | OtherPreconnect =>
    negb (isSameDomain v baseUrl domain)
  | OtherScripts | OtherIFrames =>
    negb (String.eqb v "")
    && negb (Strings.Contains v "googletagmanager.com")
    && negb (isSameDomain v baseUrl domain)
  end.

(** Every entry of every bucket passed the tests of its bucket. *)
Definition WellFiled (baseUrl domain : string) (r : ScanResult) : Prop :=
  forall b v, In v (bucket b r) -> wellFiled baseUrl domain b v = true.

(** A computation that keeps [WellFiled]. *)
Definition Files (baseUrl domain : string) {A : Type} (m : M A) : Prop :=
  forall r, WellFiled baseUrl domain r ->
            WellFiled baseUrl domain (result m r).

(** The two assignments that a callback makes to the findings, and the test
    that tells that one has nothing left to change. *)
Inductive Action : Type :=
| Raise (f : Flag)
| Append (b : Bucket) (v : string).

Definition act (a : Action) : M unit :=
  match a with
  | Raise f => raise f
  | Append b v => appendIfAbsent b v
  end.

Definition done (a : Action) (r : ScanResult) : bool :=
  match a with
  | Raise f => flag f r
  | Append b v => Strings.sliceContains (bucket b r) v
  end.

(** The assignment that the loop of a scanning callback makes for a
    target. *)
Definition importAction (baseUrl domain : string) (fonts other : Bucket)
           (sm : string) : list Action :=
  if Strings.Contains sm "googleapis.com" then [Append fonts sm]
  else if negb (isSameDomain sm baseUrl domain) then [Append other sm]
  else [].

(** *** [printResult]

    Standard output is modelled by the strings written to it, in order. *)

Definition esc : string := String (ascii_of_nat 27) EmptyString.

Definition colorReset : string := esc ++ "[0m".

Definition colorRed : string := esc ++ "[31m".

Definition colorYellow : string := esc ++ "[33m".

(** [strings.Join(xs, sep)]. *)
Fixpoint Join (xs : list string) (sep : string) : string :=
  match xs with
  | [] => EmptyString
  | [x] => x
  | x :: rest => x ++ sep ++ Join rest sep
  end.

(** What [fmt.Println(s)] writes. *)
Definition line (s : string) : string := s ++ lf.

(** [if flag { fmt.Println(msg) }]. *)
Definition printFlag (b : bool) (msg : string) : list string :=
  if b then [line msg] else [].

(** [if flag { fmt.Print(msg); fmt.Printf(colorReset); fmt.Println(note);
    fmt.Printf(color) }]. *)
Definition printNoted (b : bool) (msg note color : string) : list string :=
  if b then [msg; colorReset; line note; color] else [].

(** [if len(xs) > 0 { fmt.Print(msg); fmt.Printf(colorReset);
    fmt.Println(strings.Join(xs[:], ", ")); fmt.Printf(color) }]. *)
Definition printSlice (xs : list string) (msg color : string) : list string :=
  if Nat.ltb 0 (List.length xs)
  then [msg; colorReset; line (Join xs ", "); color] else [].

Definition notExecuted : string :=
  " (this doesn't imply that it gets executed)".

(** [printResult(scanResult)]. *)
Definition printResult (r : ScanResult) : list string :=
  ([colorRed]
   ++ printFlag (googleAnalyticsScriptSrc r)
        "Website uses Google Analytics via <script src>"
   ++ printFlag (googleAnalyticsIFrame r)
        "Website uses Google Analytics via <iframe>"
   ++ printFlag (googleFontsLink r) "Website uses Google Fonts via <link>"
   ++ printSlice (googleFontsCss r)
        "Website uses Google Fonts in css file @import: " colorRed
   ++ printSlice (googleFontsStyle r)
        "Website uses Google Fonts in <style> @import: " colorRed
   ++ [colorReset]
   ++ [colorYellow]
   ++ printNoted (googleAnalyticsScript r)
        "Found Google Analytics URL in <script>" notExecuted colorYellow
   ++ printNoted (googleFontsScript r)
        "Found Google Fonts URL in <script>" notExecuted colorYellow
   ++ printSlice (otherLinks r) "Found 3rd Party <link> elements: " colorYellow
   ++ printSlice (otherScripts r)
        "Found 3rd Party <script> elements: " colorYellow
   ++ printSlice (otherIFrames r)
        "Found 3rd Party <iframe> elements: " colorYellow
   ++ printSlice (otherCss r) "Found 3rd Party @import in css: " colorYellow
   ++ printSlice (otherPreconnect r)
        "Found 3rd Party <link rel='preconnect'> elements: " colorYellow
   ++ printSlice (otherStyle r)
        "Found 3rd Party @import|s in <style> element: " colorYellow
   ++ [colorReset]
   ++ printFlag (dnsPrefetch r) "Found <link rel='dns-prefetch'> elements")%list.



(** *** Notions for the two patterns *)

(** The first [n] bytes of [t] are there and are not ASCII. *)
Fixpoint highBytes (n : nat) (t : string) : bool :=
  match n with
  | O => true
  | S m =>
    match t with
    | EmptyString => false
    | String c t' => N.leb 128 (N_of_ascii c) && highBytes m t'
    end
  end.

(** Every byte of [s] passes [p]. *)
Fixpoint allBytes (p : ascii -> bool) (s : string) : bool :=
  match s with
  | EmptyString => true
  | String c t => p c && allBytes p t
  end.

(** The group [i] occurs in the pattern. *)
Fixpoint hasGroup (i : nat) (r : Regexp.regex) : bool :=
  match r with
  | Regexp.Cat a b => hasGroup i a || hasGroup i b
  | Regexp.Star a | Regexp.Quest a => hasGroup i a
  | Regexp.Group j a => Nat.eqb i j || hasGroup i a
  | _ => false
  end.

(** The local links, byte by byte: runs of characters of [[A-Za-z0-9-_.]],
    each slash followed by such a character, then nothing or a [#] or [?]
    followed by anything without a line feed.  [afterSlash] tells that the
    byte before was a slash. *)
Fixpoint localLink (afterSlash : bool) (s : string) : bool :=
  match s with
  | EmptyString => negb afterSlash
  | String c t =>
    if LocalPathGrammar.segmentChar c then localLink false t
    else if Ascii.eqb c "/" then negb afterSlash && localLink true t
    else if Ascii.eqb c "#" || Ascii.eqb c "?"
         then negb afterSlash && LocalPathGrammar.noLineFeed t
    else false
  end.

(** A byte that an import target can hold: any but the closing parenthesis
    and the two quotes. *)
Definition targetByte (c : ascii) : bool :=
  negb (Ascii.eqb c ")" || Ascii.eqb c "'" || Ascii.eqb c (ascii_of_nat 34)).

(** A byte of a path: a character of a segment or a slash. *)
Definition pathByte (c : ascii) : bool :=
  LocalPathGrammar.segmentChar c || Ascii.eqb c "/".

(** [r'] differs from [r] in the two buckets [fonts] and [other] at most. *)
Definition OnlyBuckets (fonts other : Bucket) (r r' : ScanResult) : Prop :=
  (forall f, flag f r' = flag f r)
  /\ visits r' = visits r
  /\ mu r' = mu r
  /\ (forall b, b <> fonts -> b <> other -> bucket b r' = bucket b r).

(** *** The collector at work

    The collector is asynchronous ([colly.Async(true)]): its callbacks run
    on several goroutines.  The callbacks for requests and for [link],
    [script] and [iframe] elements hold the mutex from their first statement
    to their return, and the fields they write are not accessed by any
    callback that runs without it: each of them is one step.  The callback
    for anchors does not touch the report.  The [style] callback and the
    response callback do not take the mutex.  What they do to a slice for a
    target is three accesses of the shared report: the test
    [slices.Contains], the read of the slice that [append] extends, and the
    assignment of the longer slice; the accesses of two of them can
    alternate. *)

(** Where an unlocked callback stands in
    [if !slices.Contains(s, v) { s = append(s, v) }]. *)
Inductive Pc : Type :=
| AtContains                       (* before the test *)
| AtAppend                         (* the test failed; [append] has not read [s] *)
| AtAssign (read : list string).   (* [append] has read [s]; before [s = ...] *)

(** An unlocked callback on its way: the assignments that its loop has still
    to make, the first of them begun as [pc] tells. *)
Record Worker : Type := { todo : list Action; pc : Pc }.

(** The next access of a worker to the shared report. *)
Definition workerStep (w : Worker) (r : ScanResult) : Worker * ScanResult :=
  match todo w with
  | [] => (w, r)
  | Raise f :: rest => ({| todo := rest; pc := AtContains |}, setFlag f true r)
  | Append b v :: rest =>
    match pc w with
    | AtContains =>
      if Strings.sliceContains (bucket b r) v
      then ({| todo := rest; pc := AtContains |}, r)
      else ({| todo := todo w; pc := AtAppend |}, r)
    | AtAppend => ({| todo := todo w; pc := AtAssign (bucket b r) |}, r)
    | AtAssign read =>
      ({| todo := rest; pc := AtContains |},
       setBucket b (read ++ [v])%list r)
    end
  end.

(** The assignments of the loop over the matches of [cssRegexp] in [text]:
    which slice a target goes to depends on the target alone. *)
Definition imports (baseUrl domain : string) (fonts other : Bucket)
           (text : string) : list Action :=
  if Regexp.MatchString Patterns.cssRegexp text then
    flat_map (importAction baseUrl domain fonts other) (extractImports text)
  else [].

(** The work of a callback that runs without the mutex; [None] for the
    callbacks that take it and for the callback for anchors. *)
Definition scanWork (baseUrl domain : string) (ev : CrawlEvent)
  : option (list Action) :=
  match ev with
  | OnStyle e =>
    Some (if negb (String.eqb (Text e) "")
          then imports baseUrl domain GoogleFontsStyle OtherStyle (Text e)
          else [])
  | OnResponse resp =>
    Some (if Strings.HasSuffix (Path resp) "css"
          then imports baseUrl domain GoogleFontsCss OtherCss (Body resp)
          else [])
  | _ => None
  end.

(** The shared report and the unlocked callbacks that have been started, in
    the order of their start. *)
Record Collector : Type := { shared : ScanResult; workers : list Worker }.

(** What happens next: the collector calls the callback of an event, or the
    [i]-th unlocked callback makes its next access. *)
Inductive Move : Type :=
| Deliver (ev : CrawlEvent)
| Advance (i : nat).

Fixpoint setNth {A : Type} (i : nat) (x : A) (xs : list A) : list A :=
  match xs, i with
  | [], _ => []
  | _ :: rest, O => x :: rest
  | y :: rest, S j => y :: setNth j x rest
  end.

Definition move (verbose : bool) (baseUrl domain : string)
           (m : Move) (c : Collector) : Collector :=
  match m with
  | Deliver ev =>
    match scanWork baseUrl domain ev with
    | Some acts =>
      {| shared := shared c;
         workers := (workers c ++ [{| todo := acts; pc := AtContains |}])%list |}
    | None =>
      {| shared := result (dispatch verbose baseUrl domain ev) (shared c);
         workers := workers c |}
    end
  | Advance i =>
    match nth_error (workers c) i with
    | Some w =>
      let (w', r') := workerStep w (shared c) in
      {| shared := r'; workers := setNth i w' (workers c) |}
    | None => c
    end
  end.

Definition play (verbose : bool) (baseUrl domain : string)
           (moves : list Move) (c : Collector) : Collector :=
  fold_left (fun c m => move verbose baseUrl domain m c) moves c.

(** The collector before [c.Visit], and one that holds the report [r] with
    no unlocked callback on its way. *)
Definition idle (r : ScanResult) : Collector :=
  {| shared := r; workers := [] |}.

(** Every unlocked callback has returned: what [c.Wait()] waits for. *)
Definition finished (c : Collector) : bool :=
  forallb (fun w => match todo w with [] => true | _ => false end)
          (workers c).

(** The moves that deliver [evs] with every callback run to its end before
    the next one starts; [k] unlocked callbacks were started before. *)
Fixpoint inTurn (baseUrl domain : string) (k : nat) (evs : list CrawlEvent)
  : list Move :=
  match evs with
  | [] => []
  | ev :: rest =>
    match scanWork baseUrl domain ev with
    | Some acts =>
      (Deliver ev :: repeat (Advance k) (3 * List.length acts)
       ++ inTurn baseUrl domain (S k) rest)%list
    | None => Deliver ev :: inTurn baseUrl domain k rest
    end
  end.




(** * Properties *)

(** ** Strings *)

Lemma HasPrefix_append (p s : string) : Strings.HasPrefix (p ++ s) p = true.
Proof.
  induction p as [|c p IH]; simpl.
  - reflexivity.
  - rewrite Ascii.eqb_refl. exact IH.
Qed.

Lemma length_drop (n : nat) (s : string) :
  String.length (Strings.drop n s) = String.length s - n.
Proof.
  revert s; induction n as [|n IH]; intros s.
  - simpl. lia.
  - destruct s as [|c t]; simpl; [reflexivity | apply IH].
Qed.

Lemma sliceContains_false (xs : list string) (v : string) :
  Strings.sliceContains xs v = false -> ~ In v xs.
Proof.
  unfold Strings.sliceContains. intros H Hin.
  assert (E : existsb (String.eqb v) xs = true).
  { apply existsb_exists. exists v. split; [exact Hin | apply String.eqb_refl]. }
  congruence.
Qed.

Lemma sliceContains_true (xs : list string) (v : string) :
  Strings.sliceContains xs v = true -> In v xs.
Proof.
  unfold Strings.sliceContains. intros H.
  apply existsb_exists in H. destruct H as [x [Hin Heq]].
  apply String.eqb_eq in Heq. subst x. exact Hin.
Qed.

(** ** The anchored pattern of [isSameDomain] *)

(** A pattern that begins with [^] matches nowhere but at offset 0. *)
Lemma search_anchored_later (r : Regexp.regex) (s : string) :
  forall skip pos, 0 < pos ->
    Regexp.search (Regexp.Cat Regexp.Bol r) skip pos s = None.
Proof.
  induction s as [|ch t IH]; intros skip pos Hpos.
  - simpl. unfold Regexp.matchAt. simpl.
    destruct pos; [lia | reflexivity].
  - simpl. destruct skip as [|n].
    + unfold Regexp.matchAt. simpl.
      destruct pos; [lia |]. simpl. apply IH. lia.
    + apply IH. lia.
Qed.

Lemma MatchString_anchored (r : Regexp.regex) (s : string) :
  Regexp.MatchString (Regexp.Cat Regexp.Bol r) s =
  match Regexp.matchAt (Regexp.Cat Regexp.Bol r) 0 s with
  | Some _ => true
  | None => false
  end.
Proof.
  unfold Regexp.MatchString. destruct s as [|ch t]; simpl.
  - reflexivity.
  - destruct (Regexp.matchAt _ 0 (String ch t)); [reflexivity |].
    rewrite search_anchored_later by lia. reflexivity.
Qed.

(** The empty string is a local link. *)
Lemma localLink_empty :
  Regexp.MatchString Patterns.localLinkRegexp EmptyString = true.
Proof. reflexivity. Qed.

(** A reference that starts with two slashes is no local link. *)
Lemma localLink_double_slash (rest : string) :
  Regexp.MatchString Patterns.localLinkRegexp ("//" ++ rest) = false.
Proof.
  unfold Patterns.localLinkRegexp. rewrite MatchString_anchored.
  vm_compute. reflexivity.
Qed.

(** ** The origin resolver *)

Lemma HasPrefix_double_slash (s : string) :
  Strings.HasPrefix s "//" = true -> exists rest, s = "//" ++ rest.
Proof.
  destruct s as [|a [|b rest]]; cbn [Strings.HasPrefix]; try discriminate.
  - rewrite andb_false_r. discriminate.
  - destruct (Ascii.eqb_spec "/" a) as [<-|]; [|discriminate].
    destruct (Ascii.eqb_spec "/" b) as [<-|]; [|discriminate].
    intros _. exists rest. reflexivity.
Qed.

(** [checkUrl] only ever builds a base URL on one of two schemes. *)
Lemma protocolOf_cases (urlString : string) :
  protocolOf urlString = "https" \/ protocolOf urlString = "http".
Proof.
  unfold protocolOf.
  destruct (String.eqb_spec (Strings.beforeColon urlString) "https") as [E|_];
    [left; rewrite E; reflexivity |].
  destruct (String.eqb_spec (Strings.beforeColon urlString) "http") as [E|_];
    [right; rewrite E; reflexivity | left; reflexivity].
Qed.

(** A base URL never is a prefix of a reference that starts with a slash. *)
Lemma baseUrl_not_prefix_of_slash (urlString domain port rest : string) :
  Strings.HasPrefix (String "/" rest) (baseUrlOf urlString domain port) = false.
Proof.
  unfold baseUrlOf.
  destruct (protocolOf_cases urlString) as [-> | ->];
    destruct (negb (String.eqb port "")); reflexivity.
Qed.

(** Whatever the earlier rules say, the prefix rule makes the answer true. *)
Lemma isSameDomain_prefix (s baseUrl domain : string) :
  Strings.HasPrefix s ("//" ++ domain) = true ->
  isSameDomain s baseUrl domain = true.
Proof.
  intros H. unfold isSameDomain. rewrite H.
  destruct (Regexp.MatchString _ s); reflexivity.
Qed.

(** C3, as amended.  A reference that starts with two slashes is same-origin
    exactly when it starts with two slashes followed by the host of the
    target: with that prefix the answer is true for every base URL, and
    without it the answer is false for the base URL that [checkUrl] builds.
    The test is a prefix test on the string, not a comparison of hosts. *)
Theorem isSameDomain_protocol_relative
        (s domain urlString port baseUrl : string) :
  Strings.HasPrefix s "//" = true ->
  (Strings.HasPrefix s ("//" ++ domain) = true ->
   isSameDomain s baseUrl domain = true)
  /\ isSameDomain s (baseUrlOf urlString domain port) domain
     = Strings.HasPrefix s ("//" ++ domain).
Proof.
  intros Hs. split; [apply isSameDomain_prefix |].
  destruct (HasPrefix_double_slash s Hs) as [rest ->].
  unfold isSameDomain. rewrite localLink_double_slash.
  destruct (Strings.HasPrefix ("//" ++ rest) ("//" ++ domain)); [reflexivity |].
  change ("//" ++ rest) with (String "/" (String "/" rest)).
  rewrite baseUrl_not_prefix_of_slash. reflexivity.
Qed.

(** The theorem at a same-host and at a foreign-host reference. *)
Lemma isSameDomain_protocol_relative_witness :
  isSameDomain "//example.com/site.css" "https://example.com" "example.com"
  = true
  /\ isSameDomain "//cdn.example.net/lib.js"
       (baseUrlOf "https://example.com" "example.com" "") "example.com"
     = false.
Proof.
  split.
  - apply (proj1 (isSameDomain_protocol_relative
                    "//example.com/site.css" "example.com"
                    "https://example.com" "" "https://example.com"
                    eq_refl)).
    reflexivity.
  - apply (proj2 (isSameDomain_protocol_relative
                    "//cdn.example.net/lib.js" "example.com"
                    "https://example.com" "" "https://example.com"
                    eq_refl)).
Defined.

(** C3, as stated, fails: a reference whose host differs from the host of
    the target, but begins with it, is answered true. *)
Lemma isSameDomain_other_host_counterexample :
  let host := "example.com" in
  let other := "example.com.evil.org" in
  other <> host
  /\ isSameDomain ("//" ++ other ++ "/font.css")
       (baseUrlOf "https://example.com" host "") host = true.
Proof.
  split; [discriminate | reflexivity].
Qed.

(** C8.  The literal reference [about:blank] is same-origin for every
    target: whatever the three earlier rules answer, the last rule of
    [isSameDomain] accepts it. *)
Theorem isSameDomain_about_blank (baseUrl domain : string) :
  isSameDomain "about:blank" baseUrl domain = true.
Proof.
  unfold isSameDomain.
  destruct (Regexp.MatchString _ _); [reflexivity |].
  destruct (Strings.HasPrefix _ ("//" ++ domain)); [reflexivity |].
  destruct (Strings.HasPrefix _ baseUrl); reflexivity.
Qed.

(** The empty reference is same-origin for every target, by the first
    rule. *)
Lemma isSameDomain_empty (baseUrl domain : string) :
  isSameDomain EmptyString baseUrl domain = true.
Proof.
  unfold isSameDomain. rewrite localLink_empty. reflexivity.
Qed.

(** ** The monad of the callbacks *)

Lemma result_bind {A B : Type} (m : M A) (k : A -> M B) (r : ScanResult) :
  result (bind m k) r = result (k (fst (fst (m r)))) (result m r).
Proof.
  unfold result, bind. destruct (m r) as [[a r1] t1]. simpl.
  destruct (k a r1) as [[b r2] t2]. reflexivity.
Qed.

Lemma trace_bind {A B : Type} (m : M A) (k : A -> M B) (r : ScanResult) :
  trace (bind m k) r
  = (trace m r ++ trace (k (fst (fst (m r)))) (result m r))%list.
Proof.
  unfold trace, result, bind. destruct (m r) as [[a r1] t1]. simpl.
  destruct (k a r1) as [[b r2] t2]. reflexivity.
Qed.

(** ** Fields of the report under assignment *)

Lemma bucket_setFlag (b : Bucket) (f : Flag) (v : bool) (r : ScanResult) :
  bucket b (setFlag f v r) = bucket b r.
Proof. destruct b, f; reflexivity. Qed.

Lemma bucket_setMu (b : Bucket) (v : bool) (r : ScanResult) :
  bucket b (setMu v r) = bucket b r.
Proof. destruct b; reflexivity. Qed.

Lemma bucket_setVisits (b : Bucket) (v : N) (r : ScanResult) :
  bucket b (setVisits v r) = bucket b r.
Proof. destruct b; reflexivity. Qed.

Lemma bucket_setBucket_same (b : Bucket) (v : list string) (r : ScanResult) :
  bucket b (setBucket b v r) = v.
Proof. destruct b; reflexivity. Qed.

Lemma bucket_setBucket_other (b b' : Bucket) (v : list string)
      (r : ScanResult) :
  b' <> b -> bucket b' (setBucket b v r) = bucket b' r.
Proof. destruct b, b'; intros H; try reflexivity; congruence. Qed.

Lemma Bucket_eq_dec (b b' : Bucket) : {b = b'} + {b <> b'}.
Proof. decide equality. Defined.

(** ** The invariant of the buckets *)

Lemma Extends_refl (r : ScanResult) : Extends r r.
Proof. intros b. exists []. symmetry. apply app_nil_r. Qed.

Lemma Extends_trans (r1 r2 r3 : ScanResult) :
  Extends r1 r2 -> Extends r2 r3 -> Extends r1 r3.
Proof.
  intros H12 H23 b.
  destruct (H12 b) as [x Hx]. destruct (H23 b) as [y Hy].
  exists (x ++ y)%list. rewrite Hy, Hx. symmetry. apply app_assoc.
Qed.

(** A step that leaves every bucket as it is. *)
Lemma Preserves_same_buckets {A : Type} (m : M A) :
  (forall r b, bucket b (result m r) = bucket b r) -> Preserves m.
Proof.
  intros H r. split.
  - intros Hr b. rewrite H. apply Hr.
  - intros b. exists []. rewrite H. symmetry. apply app_nil_r.
Qed.

Lemma Preserves_ret {A : Type} (a : A) : Preserves (ret a).
Proof. apply Preserves_same_buckets. reflexivity. Qed.

Lemma Preserves_bind {A B : Type} (m : M A) (k : A -> M B) :
  Preserves m -> (forall a, Preserves (k a)) -> Preserves (bind m k).
Proof.
  intros Hm Hk r. rewrite result_bind.
  destruct (Hm r) as [Hm1 Hm2].
  destruct (Hk (fst (fst (m r))) (result m r)) as [Hk1 Hk2].
  split; [auto | eapply Extends_trans; eauto].
Qed.

Lemma Preserves_Lock : Preserves Lock.
Proof.
  apply Preserves_same_buckets. intros r b. apply bucket_setMu.
Qed.

Lemma Preserves_Unlock : Preserves Unlock.
Proof.
  apply Preserves_same_buckets. intros r b. apply bucket_setMu.
Qed.

Lemma Preserves_incVisits : Preserves incVisits.
Proof.
  apply Preserves_same_buckets. intros r b. apply bucket_setVisits.
Qed.

Lemma Preserves_raise (f : Flag) : Preserves (raise f).
Proof.
  apply Preserves_same_buckets. intros r b. apply bucket_setFlag.
Qed.

Lemma Preserves_Visit (url : string) : Preserves (Visit url).
Proof. apply Preserves_same_buckets. reflexivity. Qed.

Lemma Preserves_Print : Preserves Print.
Proof. apply Preserves_same_buckets. reflexivity. Qed.

Lemma Preserves_whenVerbose (verbose : bool) : Preserves (whenVerbose verbose).
Proof.
  destruct verbose; [apply Preserves_Print | apply Preserves_ret].
Qed.

(** The guarded append is the one step that changes a bucket: it adds at
    the end, and only a value that is not there yet. *)
Lemma Preserves_appendIfAbsent (b : Bucket) (v : string) :
  Preserves (appendIfAbsent b v).
Proof.
  intros r. unfold result, appendIfAbsent.
  destruct (Strings.sliceContains (bucket b r) v) eqn:E; simpl.
  - split; [auto | apply Extends_refl].
  - split.
    + intros Hr b'. destruct (Bucket_eq_dec b' b) as [-> | Hne].
      * rewrite bucket_setBucket_same.
        apply NoDup_app; [apply Hr | repeat constructor; intros [] |].
        intros x Hx [<- | []].
        exact (sliceContains_false _ _ E Hx).
      * rewrite bucket_setBucket_other by exact Hne. apply Hr.
    + intros b'. destruct (Bucket_eq_dec b' b) as [-> | Hne].
      * exists [v]. apply bucket_setBucket_same.
      * exists []. rewrite bucket_setBucket_other by exact Hne.
        symmetry. apply app_nil_r.
Qed.

Lemma Preserves_forEach {A : Type} (xs : list A) (body : A -> M unit) :
  (forall x, Preserves (body x)) -> Preserves (forEach xs body).
Proof.
  intros H. induction xs as [|x rest IH]; simpl.
  - apply Preserves_ret.
  - apply Preserves_bind; [apply H | intros _; exact IH].
Qed.

Create HintDb preserves.

#[local] Hint Resolve Preserves_ret Preserves_Lock Preserves_Unlock
  Preserves_incVisits Preserves_raise Preserves_Visit Preserves_Print
  Preserves_whenVerbose Preserves_appendIfAbsent : preserves.

(** Split a callback into its steps and settle each one. *)
Ltac preserves :=
  repeat first
    [ apply Preserves_bind; [ | intros _ ]
    | apply Preserves_forEach; intros ?
    | match goal with
      | |- Preserves (if ?c then _ else _) => destruct c
      end
    | solve [ auto with preserves ] ].

Lemma Preserves_linkHandler verbose baseUrl domain e :
  Preserves (linkHandler verbose baseUrl domain e).
Proof. unfold linkHandler, linkBody. cbv zeta. preserves. Qed.

Lemma Preserves_scriptHandler verbose baseUrl domain e :
  Preserves (scriptHandler verbose baseUrl domain e).
Proof.
  unfold scriptHandler, scriptBody, scriptText. cbv zeta. preserves.
Qed.

Lemma Preserves_iframeHandler verbose baseUrl domain e :
  Preserves (iframeHandler verbose baseUrl domain e).
Proof. unfold iframeHandler, iframeBody. cbv zeta. preserves. Qed.

Lemma Preserves_scanCss verbose baseUrl domain fonts other text :
  Preserves (scanCss verbose baseUrl domain fonts other text).
Proof. unfold scanCss, importTarget. cbv zeta. preserves. Qed.

Lemma Preserves_dispatch verbose baseUrl domain ev :
  Preserves (dispatch verbose baseUrl domain ev).
Proof.
  destruct ev; simpl.
  - apply Preserves_Visit.
  - unfold requestHandler. preserves.
  - apply Preserves_linkHandler.
  - apply Preserves_scriptHandler.
  - apply Preserves_iframeHandler.
  - unfold styleHandler. destruct (negb _);
      [apply Preserves_scanCss | apply Preserves_ret].
  - unfold responseHandler. destruct (Strings.HasSuffix _ _);
      [apply Preserves_scanCss | apply Preserves_ret].
Qed.

(** The invariant holds all along a crawl that starts with the empty
    report. *)
Lemma NoDupBuckets_crawl verbose baseUrl domain evs :
  NoDupBuckets (result (crawl verbose baseUrl domain evs) emptyResult).
Proof.
  assert (H : Preserves (crawl verbose baseUrl domain evs)).
  { unfold crawl. apply Preserves_forEach. intros ev.
    apply Preserves_dispatch. }
  apply (proj1 (H emptyResult)). intros b. destruct b; constructor.
Qed.

Lemma NoDupBuckets_emptyResult : NoDupBuckets emptyResult.
Proof. intros b. destruct b; constructor. Qed.

(** After a guarded append the value is in the bucket. *)
Lemma appendIfAbsent_records (b : Bucket) (v : string) (r : ScanResult) :
  Strings.sliceContains (bucket b (result (appendIfAbsent b v) r)) v = true.
Proof.
  unfold result, appendIfAbsent.
  destruct (Strings.sliceContains (bucket b r) v) eqn:E; simpl.
  - exact E.
  - rewrite bucket_setBucket_same. unfold Strings.sliceContains.
    rewrite existsb_app. simpl. rewrite String.eqb_refl.
    rewrite orb_true_r. reflexivity.
Qed.

(** Recording a value a second time changes nothing. *)
Lemma appendIfAbsent_twice (b : Bucket) (v : string) (r : ScanResult) :
  result (appendIfAbsent b v ;; appendIfAbsent b v) r
  = result (appendIfAbsent b v) r.
Proof.
  rewrite result_bind.
  generalize (appendIfAbsent_records b v r).
  generalize (result (appendIfAbsent b v) r). intros r1 H.
  unfold result, appendIfAbsent. rewrite H. reflexivity.
Qed.

Lemma appendIfAbsent_first (b : Bucket) (v : string) :
  bucket b (result (appendIfAbsent b v) emptyResult) = [v].
Proof. destruct b; reflexivity. Qed.

(** Callbacks that run one at a time.  Recording a value twice gives the
    report that recording it once gives, a bucket of one element when the
    report was empty; a different value recorded afterwards comes second.
    A callback that runs from its first statement to its return with no
    other callback in between, on a report without duplicates, leaves a
    report without duplicates whose buckets start with the buckets it
    found.  The mutex makes the callbacks for [link], [script] and [iframe]
    elements run so; the [style] and response callbacks do not take it. *)
Theorem dedup_buckets_invariant
        (verbose : bool) (baseUrl domain : string) (ev : CrawlEvent)
        (r : ScanResult) (b : Bucket) (v w : string) :
  NoDupBuckets r ->
  w <> v ->
  bucket b (result (appendIfAbsent b v ;; appendIfAbsent b v) emptyResult) = [v]
  /\ result (appendIfAbsent b v ;; appendIfAbsent b v) r
     = result (appendIfAbsent b v) r
  /\ bucket b (result (appendIfAbsent b v ;; appendIfAbsent b v ;;
                       appendIfAbsent b w) emptyResult) = [v; w]
  /\ NoDupBuckets (result (dispatch verbose baseUrl domain ev) r)
  /\ Extends r (result (dispatch verbose baseUrl domain ev) r).
Proof.
  intros Hr Hwv.
  assert (H1 : bucket b (result (appendIfAbsent b v ;; appendIfAbsent b v)
                                emptyResult) = [v]).
  { rewrite appendIfAbsent_twice. apply appendIfAbsent_first. }
  split; [exact H1 |].
  split; [apply appendIfAbsent_twice |].
  split.
  - rewrite result_bind, result_bind.
    change (fst (fst (appendIfAbsent b v emptyResult))) with tt.
    pose proof (appendIfAbsent_twice b v emptyResult) as H2.
    rewrite result_bind in H2.
    change (fst (fst (appendIfAbsent b v emptyResult))) with tt in H2.
    cbv beta. rewrite H2.
    pose proof (appendIfAbsent_first b v) as H3.
    revert H3. generalize (result (appendIfAbsent b v) emptyResult).
    intros r1 H3. unfold result, appendIfAbsent. rewrite H3.
    unfold Strings.sliceContains. simpl.
    destruct (String.eqb_spec w v) as [E | _]; [contradiction |].
    simpl. apply bucket_setBucket_same.
  - destruct (Preserves_dispatch verbose baseUrl domain ev r) as [P1 P2].
    split; [apply P1; exact Hr | exact P2].
Qed.

(** The theorem for a style element that imports a foreign style sheet. *)
Lemma dedup_buckets_invariant_witness :
  let ev := OnStyle (styleElement "@import url(https://cdn.example.net/a.css);") in
  let run := dispatch false "https://example.com" "example.com" ev in
  bucket OtherStyle
    (result (appendIfAbsent OtherStyle "a.css" ;;
             appendIfAbsent OtherStyle "a.css") emptyResult) = ["a.css"]
  /\ result (appendIfAbsent OtherStyle "a.css" ;;
             appendIfAbsent OtherStyle "a.css") emptyResult
     = result (appendIfAbsent OtherStyle "a.css") emptyResult
  /\ bucket OtherStyle
       (result (appendIfAbsent OtherStyle "a.css" ;;
                appendIfAbsent OtherStyle "a.css" ;;
                appendIfAbsent OtherStyle "b.css") emptyResult)
     = ["a.css"; "b.css"]
  /\ NoDupBuckets (result run emptyResult)
  /\ Extends emptyResult (result run emptyResult).
Proof.
  apply (dedup_buckets_invariant false "https://example.com" "example.com"
           (OnStyle (styleElement "@import url(https://cdn.example.net/a.css);"))
           emptyResult OtherStyle "a.css" "b.css").
  - intros b. destruct b; constructor.
  - discriminate.
Defined.

(** ** The [link] callback *)

(** C7.  A [link] element whose [rel] is [dns-prefetch] sets [dnsPrefetch]
    and nothing else, whatever its [href]: every bucket, every other flag and
    the visit counter keep their values, and the only mutation among the
    events of the callback is that of the flag. *)
Theorem dns_prefetch_short_circuit
        (verbose : bool) (baseUrl domain : string) (e : HTMLElement)
        (r : ScanResult) :
  Attr e "rel" = "dns-prefetch" ->
  let r' := result (linkHandler verbose baseUrl domain e) r in
  dnsPrefetch r' = true
  /\ (forall b, bucket b r' = bucket b r)
  /\ (forall f, f <> DnsPrefetch -> flag f r' = flag f r)
  /\ visits r' = visits r
  /\ trace (linkHandler verbose baseUrl domain e) r
     = ([EvLock; EvVisit (Attr e "href"); EvSetFlag DnsPrefetch]
        ++ (if verbose then [EvPrint] else []) ++ [EvUnlock])%list.
Proof.
  intros Hrel. unfold linkHandler, linkBody. rewrite Hrel.
  change (String.eqb "dns-prefetch" "dns-prefetch") with true.
  cbv iota zeta.
  destruct verbose; repeat split; try reflexivity;
    try (intros b; destruct b; reflexivity);
    intros f Hf; destruct f; try reflexivity; congruence.
Qed.

(** The theorem for the element of the end-to-end scenario. *)
Lemma dns_prefetch_short_circuit_witness :
  let h := linkHandler false "http://example.com" "example.com"
             (linkElement "dns-prefetch" "//cdn.example.net") in
  dnsPrefetch (result h emptyResult) = true
  /\ (forall b, bucket b (result h emptyResult) = bucket b emptyResult)
  /\ (forall f, f <> DnsPrefetch ->
                flag f (result h emptyResult) = flag f emptyResult)
  /\ visits (result h emptyResult) = visits emptyResult
  /\ trace h emptyResult
     = ([EvLock; EvVisit "//cdn.example.net"; EvSetFlag DnsPrefetch]
        ++ [] ++ [EvUnlock])%list.
Proof.
  apply (dns_prefetch_short_circuit false "http://example.com" "example.com"
           (linkElement "dns-prefetch" "//cdn.example.net") emptyResult).
  reflexivity.
Defined.

Lemma Contains_empty_marker (marker : string) :
  marker <> EmptyString -> Strings.Contains EmptyString marker = false.
Proof. destruct marker; [congruence | reflexivity]. Qed.

(** C10, as amended.  The empty reference is same-origin for every base URL
    and domain, by the first rule of [isSameDomain].  A [link] element whose
    [href] is empty therefore leaves every bucket and every provider flag as
    it was; [dnsPrefetch] alone is set, when the [rel] of the element is
    [dns-prefetch].  An [a] element does not touch the report at all. *)
Theorem empty_href_not_recorded
        (verbose : bool) (baseUrl domain : string) (e : HTMLElement)
        (r : ScanResult) :
  Attr e "href" = EmptyString ->
  let r' := result (linkHandler verbose baseUrl domain e) r in
  isSameDomain (Attr e "href") baseUrl domain = true
  /\ (forall b, bucket b r' = bucket b r)
  /\ (forall f, f <> DnsPrefetch -> flag f r' = flag f r)
  /\ dnsPrefetch r'
     = (dnsPrefetch r || String.eqb (Attr e "rel") "dns-prefetch")
  /\ visits r' = visits r
  /\ result (aHandler e) r = r.
Proof.
  intros Hhref. unfold linkHandler, linkBody. rewrite Hhref.
  rewrite isSameDomain_empty.
  rewrite !Contains_empty_marker by discriminate.
  cbv zeta. rewrite andb_false_r.
  change (negb true) with false. change (false || false) with false.
  cbv iota.
  destruct (String.eqb (Attr e "rel") "dns-prefetch");
    destruct verbose; repeat split; try reflexivity;
    try (intros b; destruct b; reflexivity);
    try (cbn; rewrite ?orb_true_r, ?orb_false_r; reflexivity);
    intros f Hf; destruct f; try reflexivity; congruence.
Qed.

(** The theorem for a style sheet link without a target. *)
Lemma empty_href_not_recorded_witness :
  let e := linkElement "stylesheet" "" in
  let r' := result (linkHandler false "https://example.com" "example.com" e)
              emptyResult in
  isSameDomain (Attr e "href") "https://example.com" "example.com" = true
  /\ (forall b, bucket b r' = bucket b emptyResult)
  /\ (forall f, f <> DnsPrefetch -> flag f r' = flag f emptyResult)
  /\ dnsPrefetch r'
     = (dnsPrefetch emptyResult
        || String.eqb (Attr e "rel") "dns-prefetch")
  /\ visits r' = visits emptyResult
  /\ result (aHandler e) emptyResult = emptyResult.
Proof.
  apply (empty_href_not_recorded false "https://example.com" "example.com"
           (linkElement "stylesheet" "") emptyResult).
  reflexivity.
Defined.

(** C10, as stated, fails: an element with an empty [href] is recorded in a
    flag of the report when its [rel] is [dns-prefetch]. *)
Lemma empty_href_dns_prefetch_counterexample :
  let e := linkElement "dns-prefetch" "" in
  let r' := result (linkHandler false "https://example.com" "example.com" e)
              emptyResult in
  Attr e "href" = EmptyString
  /\ flag DnsPrefetch emptyResult = false
  /\ flag DnsPrefetch r' = true
  /\ r' <> emptyResult.
Proof.
  repeat split. discriminate.
Qed.

(** ** The mutex *)

Lemma lockFree_nil : lockFree [].
Proof. split; intros []. Qed.

Lemma lockFree_app (t1 t2 : list Event) :
  lockFree t1 -> lockFree t2 -> lockFree (t1 ++ t2).
Proof.
  intros [A1 B1] [A2 B2]. split; intros H; apply in_app_or in H; tauto.
Qed.

Lemma lockFree_single (ev : Event) :
  ev <> EvLock -> ev <> EvUnlock -> lockFree [ev].
Proof.
  intros H1 H2. split; intros [E | []]; congruence.
Qed.

Lemma LockFree_ret {A : Type} (a : A) : LockFree (ret a).
Proof. intros r. apply lockFree_nil. Qed.

Lemma LockFree_bind {A B : Type} (m : M A) (k : A -> M B) :
  LockFree m -> (forall a, LockFree (k a)) -> LockFree (bind m k).
Proof.
  intros Hm Hk r. rewrite trace_bind. apply lockFree_app; [apply Hm | apply Hk].
Qed.

Lemma LockFree_incVisits : LockFree incVisits.
Proof. intros r. apply lockFree_single; discriminate. Qed.

Lemma LockFree_raise (f : Flag) : LockFree (raise f).
Proof. intros r. apply lockFree_single; discriminate. Qed.

Lemma LockFree_Visit (url : string) : LockFree (Visit url).
Proof. intros r. apply lockFree_single; discriminate. Qed.

Lemma LockFree_Print : LockFree Print.
Proof. intros r. apply lockFree_single; discriminate. Qed.

Lemma LockFree_whenVerbose (verbose : bool) : LockFree (whenVerbose verbose).
Proof. destruct verbose; [apply LockFree_Print | apply LockFree_ret]. Qed.

Lemma LockFree_appendIfAbsent (b : Bucket) (v : string) :
  LockFree (appendIfAbsent b v).
Proof.
  intros r. unfold trace, appendIfAbsent.
  destruct (Strings.sliceContains (bucket b r) v); simpl.
  - apply lockFree_nil.
  - apply lockFree_single; discriminate.
Qed.

Create HintDb lockfree.

#[local] Hint Resolve LockFree_ret LockFree_incVisits LockFree_raise
  LockFree_Visit LockFree_Print LockFree_whenVerbose
  LockFree_appendIfAbsent : lockfree.

Ltac lockfree :=
  repeat first
    [ apply LockFree_bind; [ | intros _ ]
    | match goal with
      | |- LockFree (if ?c then _ else _) => destruct c
      end
    | solve [ auto with lockfree ] ].

(** Whatever happens between [Lock] and [Unlock] happens with the mutex
    held, as long as it does not touch the mutex itself. *)
Lemma guarded_held (t : list Event) :
  lockFree t -> guarded true (t ++ [EvUnlock]) = true.
Proof.
  induction t as [|ev rest IH]; intros [HL HU]; simpl.
  - reflexivity.
  - assert (IH' : guarded true (rest ++ [EvUnlock]) = true).
    { apply IH. split; intros H; [apply HL | apply HU]; right; exact H. }
    destruct ev; try (simpl; exact IH').
    exfalso. apply HU. left. reflexivity.
Qed.

Lemma guarded_critical_section (body : M unit) (r : ScanResult) :
  LockFree body -> guarded false (trace (Lock ;; body ;; Unlock) r) = true.
Proof.
  intros H. rewrite trace_bind, trace_bind.
  change (trace Lock r) with [EvLock].
  change (trace Unlock ?x) with [EvUnlock].
  simpl. apply guarded_held. apply H.
Qed.

(** The callbacks for requests and for [link], [script] and [iframe]
    elements mutate the report with the mutex held, on every input. *)
Lemma locked_callbacks_guarded
      (verbose : bool) (baseUrl domain : string) (e : HTMLElement)
      (r : ScanResult) :
  guarded false (trace requestHandler r) = true
  /\ guarded false (trace (linkHandler verbose baseUrl domain e) r) = true
  /\ guarded false (trace (scriptHandler verbose baseUrl domain e) r) = true
  /\ guarded false (trace (iframeHandler verbose baseUrl domain e) r) = true.
Proof.
  split; [| split; [| split]].
  - reflexivity.
  - apply guarded_critical_section. unfold linkBody. cbv zeta. lockfree.
  - apply guarded_critical_section.
    unfold scriptBody, scriptText. cbv zeta. lockfree.
  - apply guarded_critical_section. unfold iframeBody. cbv zeta. lockfree.
Qed.

(** C2, evaluated where the code leaves it.  The [style] callback and the
    response callback append to their buckets without taking the mutex: on
    a style sheet that imports a foreign sheet, the trace of either callback
    is the append alone (and the print under [-v]), with no [Lock] before
    it. *)
Theorem style_and_response_mutate_unlocked (verbose : bool) :
  let css := "@import url(https://cdn.example.net/a.css);" in
  let target := "https://cdn.example.net/a.css" in
  let style := styleHandler verbose "https://example.com" "example.com"
                 (styleElement css) in
  let response := responseHandler verbose "https://example.com" "example.com"
                    {| Path := "/main.css"; Body := css |} in
  trace style emptyResult
  = EvAppend OtherStyle target :: (if verbose then [EvPrint] else [])
  /\ guarded false (trace style emptyResult) = false
  /\ trace response emptyResult
     = EvAppend OtherCss target :: (if verbose then [EvPrint] else [])
  /\ guarded false (trace response emptyResult) = false.
Proof.
  destruct verbose; vm_compute; repeat split.
Qed.

(** ** The import targets *)

Lemma forEach_map {A B : Type} (f : A -> B) (xs : list A)
      (body : B -> M unit) :
  forEach (map f xs) body = forEach xs (fun x => body (f x)).
Proof.
  induction xs as [|x rest IH]; simpl; [reflexivity | rewrite IH; reflexivity].
Qed.

(** The loop of the two scanning callbacks runs over [extractImports]. *)
Lemma scanCss_extractImports verbose baseUrl domain fonts other text :
  scanCss verbose baseUrl domain fonts other text
  = if Regexp.MatchString Patterns.cssRegexp text
    then forEach (extractImports text)
                 (importTarget verbose baseUrl domain fonts other)
    else ret tt.
Proof.
  unfold scanCss, extractImports. cbv zeta. rewrite forEach_map. reflexivity.
Qed.

(** C6.  The two examples of the pattern matcher: a quoted target inside
    [url(...)] is extracted alone, and a quoted target followed by a bare
    [url(...)] target are extracted in the order of the source. *)
Theorem extractImports_examples :
  extractImports
    "@import url('https://fonts.googleapis.com/css?family=Roboto');"
  = ["https://fonts.googleapis.com/css?family=Roboto"]
  /\ extractImports
       ("@import " ++ dquote ++ "a.css" ++ dquote ++ "; @import url(b.css);")
     = ["a.css"; "b.css"].
Proof.
  split; vm_compute; reflexivity.
Qed.

(** The five ways of writing one import, with and without [url(...)], with
    either quote and with none inside [url(...)], give the same target. *)
Lemma extractImports_wrappers :
  extractImports ("@import url(" ++ dquote ++ "x.css" ++ dquote ++ ");")
  = ["x.css"]
  /\ extractImports "@import url('x.css');" = ["x.css"]
  /\ extractImports "@import url(x.css);" = ["x.css"]
  /\ extractImports ("@import " ++ dquote ++ "x.css" ++ dquote ++ ";")
     = ["x.css"]
  /\ extractImports "@import 'x.css';" = ["x.css"]
  /\ extractImports "body { color: red }" = [].
Proof.
  repeat split; vm_compute; reflexivity.
Qed.

(** C1, evaluated where the code leaves it.  The scanning callbacks test an
    import target for [googleapis.com] alone.  A target on
    [fonts.gstatic.com] carries a Google Fonts marker and is filed with the
    other third parties; a target on [maps.googleapis.com] carries none and
    is filed as Google Fonts.  The [style] callback and the response callback
    agree. *)
Theorem import_fonts_marker_divergence (verbose : bool) :
  let gstatic := "https://fonts.gstatic.com/s/roboto.css" in
  let maps := "https://maps.googleapis.com/x.css" in
  let style text := result (styleHandler verbose "https://example.com"
                              "example.com" (styleElement text)) emptyResult in
  let response text := result (responseHandler verbose "https://example.com"
                                 "example.com"
                                 {| Path := "/main.css"; Body := text |})
                              emptyResult in
  matchesGoogleFonts gstatic = true
  /\ matchesGoogleFonts maps = false
  /\ extractImports ("@import url(" ++ gstatic ++ ");") = [gstatic]
  /\ extractImports ("@import url(" ++ maps ++ ");") = [maps]
  /\ googleFontsStyle (style ("@import url(" ++ gstatic ++ ");")) = []
  /\ otherStyle (style ("@import url(" ++ gstatic ++ ");")) = [gstatic]
  /\ googleFontsStyle (style ("@import url(" ++ maps ++ ");")) = [maps]
  /\ googleFontsCss (response ("@import url(" ++ gstatic ++ ");")) = []
  /\ otherCss (response ("@import url(" ++ gstatic ++ ");")) = [gstatic]
  /\ googleFontsCss (response ("@import url(" ++ maps ++ ");")) = [maps].
Proof.
  destruct verbose; vm_compute; repeat split.
Qed.

(** What the loop does with one target, for every target: it goes to the
    fonts bucket exactly when it contains [googleapis.com]. *)
Lemma importTarget_fonts
      (verbose : bool) (baseUrl domain : string) (fonts other : Bucket)
      (sm : string) (r : ScanResult) :
  fonts <> other ->
  let r' := result (importTarget verbose baseUrl domain fonts other sm) r in
  (Strings.Contains sm "googleapis.com" = true ->
   In sm (bucket fonts r') /\ bucket other r' = bucket other r)
  /\ (Strings.Contains sm "googleapis.com" = false ->
      bucket fonts r' = bucket fonts r).
Proof.
  intros Hne. unfold importTarget. cbv zeta.
  destruct (Strings.Contains sm "googleapis.com"); split; try discriminate;
    intros _.
  - rewrite result_bind.
    assert (W : forall x, result (whenVerbose verbose) x = x)
      by (intros x; destruct verbose; reflexivity).
    rewrite W. split.
    + apply sliceContains_true. apply appendIfAbsent_records.
    + unfold result, appendIfAbsent.
      destruct (Strings.sliceContains _ _); simpl; [reflexivity |].
      apply bucket_setBucket_other. congruence.
  - destruct (negb _); [| reflexivity].
    rewrite result_bind.
    assert (W : forall x, result (whenVerbose verbose) x = x)
      by (intros x; destruct verbose; reflexivity).
    rewrite W. unfold result, appendIfAbsent.
    destruct (Strings.sliceContains _ _); simpl; [reflexivity |].
    apply bucket_setBucket_other. exact Hne.
Qed.

(** ** [main] *)

(** C9.  Without a positional argument [main] prints the usage line and the
    flag defaults and exits with status 1; it does not reach [checkUrl]. *)
Theorem main_without_url :
  main [] = ([Println usage; PrintDefaults], Exited 1)
  /\ 1 <> 0
  /\ (forall urlString, ~ In (CheckUrl urlString) (fst (main []))).
Proof.
  split; [reflexivity |]. split; [discriminate |].
  intros urlString [H | [H | []]]; discriminate.
Qed.

(** With an argument the scan of the first one starts. *)
Lemma main_with_url (v : string) (rest : list string) :
  main (v :: rest) = ([CheckUrl v], Returned tt).
Proof. reflexivity. Qed.

(** ** The search finds a match whenever the pattern has one *)

Lemma starLoop_complete (a : Regexp.regex) :
  (forall st st', Matches a st st' ->
     forall c k, (forall c', k (fst st') (snd st') c' <> None) ->
       Regexp.exec a (fst st) (snd st) c k <> None) ->
  forall st st', Matches (Regexp.Star a) st st' ->
    forall fuel c k,
      String.length (snd st) < fuel ->
      (forall c', k (fst st') (snd st') c' <> None) ->
      Regexp.starLoop (Regexp.exec a) fuel (fst st) (snd st) c k <> None.
Proof.
  intros Ha st st' H.
  remember (Regexp.Star a) as ra eqn:E.
  induction H as [ | | | a0 st | a0 pos s pos1 s1 st2 Hhead _ Hlen Htail IH
                   | | | | | ]; try discriminate.
  - intros fuel c k Hfuel Hk. destruct fuel as [|f]; [lia |].
    simpl. destruct (Regexp.exec _ _ _ _ _); [discriminate | apply Hk].
  - injection E as ->. specialize (IH eq_refl).
    intros fuel c k Hfuel Hk. destruct fuel as [|f]; [simpl in Hfuel; lia |].
    cbn [Regexp.starLoop fst snd].
    destruct (Regexp.exec a pos s c _) eqn:X; [discriminate |].
    exfalso. revert X.
    apply (Ha (pos, s) (pos1, s1) Hhead). intros c'. cbn [fst snd].
    apply Nat.ltb_lt in Hlen. rewrite Hlen. apply Nat.ltb_lt in Hlen.
    apply IH; [simpl in *; lia | exact Hk].
Qed.

Lemma exec_complete (r : Regexp.regex) :
  forall st st', Matches r st st' ->
    forall c k, (forall c', k (fst st') (snd st') c' <> None) ->
      Regexp.exec r (fst st) (snd st) c k <> None.
Proof.
  induction r as [ | p | a IHa b IHb | a IHa | a IHa | i a IHa | | ];
    intros st st' H c k Hk.
  - inversion H; subst. apply Hk.
  - inversion H as [ | p0 pos s rune w Hs Hd Hp | | | | | | | | ]; subst.
    cbn [Regexp.exec fst snd]. destruct s as [|ch t]; [congruence |].
    rewrite Hd, Hp. apply Hk.
  - inversion H as [ | | a0 b0 st1 st2 st3 H1 H2 | | | | | | | ]; subst.
    cbn [Regexp.exec]. apply (IHa _ _ H1). intros c'. apply (IHb _ _ H2), Hk.
  - cbn [Regexp.exec].
    apply (starLoop_complete a IHa st st' H); [lia | exact Hk].
  - cbn [Regexp.exec].
    inversion H as [ | | | | | a0 st0 | a0 st0 st0' H1 | | | ]; subst.
    + destruct (Regexp.exec a _ _ _ _); [discriminate | apply Hk].
    + destruct (Regexp.exec a _ _ _ _) eqn:X; [discriminate |].
      exfalso. revert X. apply (IHa _ _ H1), Hk.
  - inversion H as [ | | | | | | | i0 a0 st0 st0' H1 | | ]; subst.
    cbn [Regexp.exec]. apply (IHa _ _ H1). intros c'. apply Hk.
  - inversion H; subst. apply Hk.
  - inversion H; subst. apply Hk.
Qed.

(** A pattern that has a match at offset 0 makes [MatchString] true. *)
Lemma MatchString_complete (r : Regexp.regex) (s : string) (st' : nat * string) :
  Matches r (0, s) st' -> Regexp.MatchString r s = true.
Proof.
  intros H.
  assert (X : Regexp.matchAt r 0 s <> None).
  { unfold Regexp.matchAt.
    apply (exec_complete r (0, s) st' H). intros c'. discriminate. }
  unfold Regexp.MatchString.
  destruct s as [|ch t]; cbn [Regexp.search];
    destruct (Regexp.matchAt r 0 _); congruence.
Qed.

(** ** Runes *)

Lemma first_spec (b : N) (sz : nat) (lo hi : N) :
  Utf8.first b = Some (sz, lo, hi) ->
  ((sz = 2%nat /\ 194 <= b <= 223)
   \/ (sz = 3%nat /\ ((b = 224 /\ lo = 160) \/ 224 < b < 240))
   \/ (sz = 4%nat /\ ((b = 240 /\ lo = 144) \/ 240 < b < 248)))%N
  /\ (128 <= lo)%N /\ (hi <= 191)%N.
Proof.
  unfold Utf8.first.
  repeat match goal with
  | |- context [N.leb ?x ?y] => destruct (N.leb_spec x y)
  | |- context [N.eqb ?x ?y] => destruct (N.eqb_spec x y)
  end; cbn [andb]; intros E; inversion E; subst; clear E;
    (split; [ | split; lia]);
    first [ left; split; [reflexivity | lia]
          | right; left; split; [reflexivity | lia]
          | right; right; split; [reflexivity | lia] ].
Qed.

(** A rune assembled from a leading part that is not zero is not the line
    feed. *)
Lemma lor_shiftl_not_10 (a k rest : N) :
  (6 <= k)%N -> a <> 0%N -> N.lor (N.shiftl a k) rest <> 10%N.
Proof.
  intros Hk Ha E.
  assert (H : N.shiftr (N.lor (N.shiftl a k) rest) 6 = 0%N)
    by (rewrite E; reflexivity).
  rewrite N.shiftr_lor in H. apply N.lor_eq_0_l in H.
  rewrite N.shiftr_shiftl_l in H by exact Hk.
  apply N.shiftl_eq_0_iff in H. contradiction.
Qed.

Lemma land_ones_nonzero (b m lo hi : N) (n : N) :
  m = N.ones n -> (lo < b < hi)%N ->
  (exists q, lo = q * 2 ^ n /\ hi = (q + 1) * 2 ^ n)%N ->
  N.land b m <> 0%N.
Proof.
  intros -> [Hb1 Hb2] [q [Hlo Hhi]]. rewrite N.land_ones. intros E.
  pose proof (N.Div0.div_mod b (2 ^ n)) as D.
  rewrite E, N.add_0_r, N.mul_comm in D.
  assert (P : (0 < 2 ^ n)%N)
    by (apply N.neq_0_lt_0, N.pow_nonzero; discriminate).
  rewrite Hlo, D in Hb1. rewrite Hhi, D in Hb2.
  apply N.mul_lt_mono_pos_r in Hb1; [| exact P].
  apply N.mul_lt_mono_pos_r in Hb2; [| exact P].
  lia.
Qed.

Lemma byteAt_length (i : nat) (s : string) (x : N) :
  Utf8.byteAt i s = Some x -> i < String.length s.
Proof.
  unfold Utf8.byteAt. revert i.
  induction s as [|c t IH]; intros i; simpl.
  - discriminate.
  - destruct i as [|j]; [lia |]. intros H. apply IH in H. lia.
Qed.

(** The width of a rune is at least one byte and at most what is left of
    the string, and only the byte 10 decodes to the line feed. *)
Lemma DecodeRuneInString_spec (c : ascii) (t : string) (r : N) (w : nat) :
  Utf8.DecodeRuneInString (String c t) = (r, w) ->
  1 <= w <= S (String.length t) /\ (r = 10%N -> N_of_ascii c = 10%N).
Proof.
  unfold Utf8.DecodeRuneInString.
  destruct (N.ltb_spec (N_of_ascii c) 128) as [_|Hhigh].
  { intros E; inversion E; subst. split; [lia | auto]. }
  destruct (Utf8.first (N_of_ascii c)) as [[[sz lo] hi]|] eqn:F;
    [| intros E; inversion E; subst; split; [lia | discriminate]].
  apply first_spec in F. destruct F as [F [Hlo Hhi]].
  destruct (Utf8.byteAt 1 (String c t)) as [s1|] eqn:B1;
    [| intros E; inversion E; subst; split; [lia | discriminate]].
  apply byteAt_length in B1. simpl in B1.
  destruct (N.ltb_spec s1 lo); cbn [orb];
    [intros E; inversion E; subst; split; [lia | discriminate] |].
  destruct (N.ltb_spec hi s1);
    [intros E; inversion E; subst; split; [lia | discriminate] |].
  assert (L1 : forall lo', (lo = lo' -> 128 < lo')%N ->
                           lo = lo' -> Utf8.low6 s1 <> 0%N).
  { intros lo' Hlo' El. unfold Utf8.low6.
    apply (land_ones_nonzero s1 63 128 192 6); [reflexivity | lia |].
    exists 2%N. split; reflexivity. }
  destruct (Nat.leb_spec sz 2).
  { intros E; inversion E; subst. split; [lia |].
    intros E10. exfalso. revert E10.
    apply lor_shiftl_not_10; [lia |].
    apply (land_ones_nonzero _ 31 192 224 5); [reflexivity | lia |].
    exists 6%N. split; reflexivity. }
  destruct (Utf8.byteAt 2 (String c t)) as [s2|] eqn:B2;
    [| intros E; inversion E; subst; split; [lia | discriminate]].
  apply byteAt_length in B2. simpl in B2.
  destruct (negb (Utf8.cont s2));
    [intros E; inversion E; subst; split; [lia | discriminate] |].
  destruct (Nat.leb_spec sz 3).
  { intros E; inversion E; subst. split; [lia |].
    intros E10. exfalso. revert E10.
    destruct F as [[? _] | [[_ [[Eb El] | Hb]] | [? _]]]; try lia.
    - rewrite Eb. change (N.shiftl (N.land 224 15) 12) with 0%N.
      rewrite N.lor_0_l. apply lor_shiftl_not_10; [lia |].
      apply (L1 160%N); [lia | exact El].
    - apply lor_shiftl_not_10; [lia |].
      apply (land_ones_nonzero _ 15 224 240 4); [reflexivity | lia |].
      exists 14%N. split; reflexivity. }
  destruct (Utf8.byteAt 3 (String c t)) as [s3|] eqn:B3;
    [| intros E; inversion E; subst; split; [lia | discriminate]].
  apply byteAt_length in B3. simpl in B3.
  destruct (negb (Utf8.cont s3));
    [intros E; inversion E; subst; split; [lia | discriminate] |].
  intros E; inversion E; subst. split; [lia |].
  intros E10. exfalso. revert E10.
  destruct F as [[? _] | [[? _] | [_ [[Eb El] | Hb]]]]; try lia.
  - rewrite Eb. change (N.shiftl (N.land 240 7) 18) with 0%N.
    rewrite N.lor_0_l. apply lor_shiftl_not_10; [lia |].
    apply (L1 144%N); [lia | exact El].
  - apply lor_shiftl_not_10; [lia |].
    apply (land_ones_nonzero _ 7 240 248 3); [reflexivity | lia |].
    exists 30%N. split; reflexivity.
Qed.

Lemma DecodeRuneInString_ascii (c : ascii) (t : string) :
  (N_of_ascii c < 128)%N ->
  Utf8.DecodeRuneInString (String c t) = (N_of_ascii c, 1).
Proof.
  intros H. unfold Utf8.DecodeRuneInString.
  apply N.ltb_lt in H. rewrite H. reflexivity.
Qed.

(** ** Local paths are local links *)

Lemma append_assoc (a b c : string) : (a ++ b) ++ c = a ++ (b ++ c).
Proof.
  induction a as [|ch a IH]; simpl; [reflexivity | rewrite IH; reflexivity].
Qed.

Lemma append_empty_r (a : string) : a ++ EmptyString = a.
Proof.
  induction a as [|ch a IH]; simpl; [reflexivity | rewrite IH; reflexivity].
Qed.

Lemma length_append (a b : string) :
  String.length (a ++ b) = String.length a + String.length b.
Proof.
  induction a as [|ch a IH]; simpl; [reflexivity | rewrite IH; reflexivity].
Qed.

(** One ASCII byte of a class. *)
Lemma Matches_ascii (p : N -> bool) (c : ascii) (t : string) (pos : nat) :
  (N_of_ascii c < 128)%N -> p (N_of_ascii c) = true ->
  Matches (Regexp.Class p) (pos, String c t) (pos + 1, t).
Proof.
  intros Hc Hp.
  change t with (Strings.drop 1 (String c t)) at 2.
  apply M_Class with (rune := N_of_ascii c);
    [discriminate | apply DecodeRuneInString_ascii; exact Hc | exact Hp].
Qed.

(** The characters of the grammar are the runes of the class. *)
Lemma segmentChar_pathChar (c : ascii) :
  LocalPathGrammar.segmentChar c = true ->
  (N_of_ascii c < 128)%N /\ Patterns.pathChar (N_of_ascii c) = true.
Proof.
  destruct c as [b0 b1 b2 b3 b4 b5 b6 b7].
  destruct b0, b1, b2, b3, b4, b5, b6, b7; vm_compute;
    (discriminate || (intros _; split; reflexivity)).
Qed.

Lemma Segment_length (s : string) :
  LocalPathGrammar.Segment s -> 0 < String.length s.
Proof. intros H; destruct H; simpl; lia. Qed.

Lemma Segment_star (s : string) :
  LocalPathGrammar.Segment s ->
  forall pos rest,
    Matches (Regexp.Star (Regexp.Class Patterns.pathChar))
            (pos, s ++ rest) (pos + String.length s, rest).
Proof.
  induction 1 as [c Hc | c s Hc Hs IH]; intros pos rest;
    destruct (segmentChar_pathChar c Hc) as [Hlt Hp].
  - apply M_Star_more with (pos1 := pos + 1) (s1 := rest).
    + apply Matches_ascii; assumption.
    + simpl. lia.
    + apply M_Star_stop.
  - apply M_Star_more with (pos1 := pos + 1) (s1 := s ++ rest).
    + apply Matches_ascii; assumption.
    + simpl. lia.
    + replace (pos + String.length (String c s))
        with (pos + 1 + String.length s) by (simpl; lia).
      apply IH.
Qed.

Lemma Segment_plus (s : string) :
  LocalPathGrammar.Segment s ->
  forall pos rest,
    Matches (Regexp.Plus (Regexp.Class Patterns.pathChar))
            (pos, s ++ rest) (pos + String.length s, rest).
Proof.
  intros H pos rest. unfold Regexp.Plus.
  destruct H as [c Hc | c s Hc Hs];
    destruct (segmentChar_pathChar c Hc) as [Hlt Hp].
  - apply M_Cat with (st2 := (pos + 1, rest)).
    + apply Matches_ascii; assumption.
    + apply M_Star_stop.
  - apply M_Cat with (st2 := (pos + 1, s ++ rest)).
    + apply Matches_ascii; assumption.
    + replace (pos + String.length (String c s))
        with (pos + 1 + String.length s) by (simpl; lia).
      apply Segment_star. exact Hs.
Qed.

(** One turn of group 1: a segment, with or without the slash before it. *)
Lemma Segment_group (lead s : string) :
  lead = EmptyString \/ lead = "/" ->
  LocalPathGrammar.Segment s ->
  forall pos rest,
    Matches (Regexp.Group 1
               (Regexp.Cat (Regexp.Quest (Regexp.Class (Patterns.char "/")))
                           (Regexp.Plus (Regexp.Class Patterns.pathChar))))
            (pos, lead ++ s ++ rest)
            (pos + String.length lead + String.length s, rest).
Proof.
  intros [-> | ->] Hs pos rest; apply M_Group.
  - apply M_Cat with (st2 := (pos, s ++ rest)).
    + apply M_Quest_skip.
    + simpl. rewrite Nat.add_0_r. apply Segment_plus. exact Hs.
  - apply M_Cat with (st2 := (pos + 1, s ++ rest)).
    + apply M_Quest_take. apply Matches_ascii; reflexivity.
    + apply Segment_plus. exact Hs.
Qed.

Lemma Segments_star (s : string) :
  LocalPathGrammar.Segments s ->
  forall lead pos rest,
    lead = EmptyString \/ lead = "/" ->
    Matches (Regexp.Star
               (Regexp.Group 1
                  (Regexp.Cat (Regexp.Quest (Regexp.Class (Patterns.char "/")))
                              (Regexp.Plus (Regexp.Class Patterns.pathChar)))))
            (pos, lead ++ s ++ rest)
            (pos + String.length lead + String.length s, rest).
Proof.
  induction 1 as [s Hs | s t Hs Ht IH]; intros lead pos rest Hlead.
  - eapply M_Star_more.
    + apply Segment_group; eassumption.
    + pose proof (Segment_length s Hs).
      rewrite !length_append. lia.
    + apply M_Star_stop.
  - rewrite (append_assoc s). rewrite (append_assoc "/").
    eapply M_Star_more.
    + apply Segment_group; eassumption.
    + pose proof (Segment_length s Hs).
      rewrite !length_append. lia.
    + replace (pos + String.length lead + String.length (s ++ "/" ++ t))
        with (pos + String.length lead + String.length s
              + String.length "/" + String.length t)
        by (rewrite !length_append; simpl; lia).
      apply IH. right. reflexivity.
Qed.

Lemma Path_star (p : string) :
  LocalPathGrammar.Path p ->
  forall rest,
    Matches (Regexp.Star
               (Regexp.Group 1
                  (Regexp.Cat (Regexp.Quest (Regexp.Class (Patterns.char "/")))
                              (Regexp.Plus (Regexp.Class Patterns.pathChar)))))
            (0, p ++ rest) (String.length p, rest).
Proof.
  intros [s Hs | s Hs] rest.
  - apply (Segments_star s Hs EmptyString 0 rest). left. reflexivity.
  - apply (Segments_star s Hs "/" 0 rest). right. reflexivity.
Qed.

Lemma noLineFeed_drop (n : nat) (s : string) :
  LocalPathGrammar.noLineFeed s = true ->
  LocalPathGrammar.noLineFeed (Strings.drop n s) = true.
Proof.
  revert s. induction n as [|n IH]; intros s H; [exact H |].
  destruct s as [|c t]; [exact H |].
  simpl in H. apply andb_prop in H. simpl. apply IH. apply H.
Qed.

Lemma noLineFeed_append (a b : string) :
  LocalPathGrammar.noLineFeed (a ++ b) = true ->
  LocalPathGrammar.noLineFeed b = true.
Proof.
  induction a as [|c a IH]; simpl; [auto |].
  intros H. apply andb_prop in H. apply IH, H.
Qed.

(** The run of [.] takes a whole text that has no line feed. *)
Lemma dot_star_all (n : nat) :
  forall t pos,
    String.length t <= n ->
    LocalPathGrammar.noLineFeed t = true ->
    Matches (Regexp.Star (Regexp.Class Patterns.anyButNewline))
            (pos, t) (pos + String.length t, EmptyString).
Proof.
  induction n as [|n IH]; intros t pos Hn Hlf.
  - destruct t; [| simpl in Hn; lia].
    simpl. rewrite Nat.add_0_r. apply M_Star_stop.
  - destruct t as [|c t'].
    { simpl. rewrite Nat.add_0_r. apply M_Star_stop. }
    destruct (Utf8.DecodeRuneInString (String c t')) as [r w] eqn:D.
    destruct (DecodeRuneInString_spec c t' r w D) as [[Hw1 Hw2] Hr].
    assert (Hlen : String.length (Strings.drop w (String c t'))
                   = S (String.length t') - w) by apply length_drop.
    apply M_Star_more with (pos1 := pos + w)
                           (s1 := Strings.drop w (String c t')).
    + apply M_Class with (rune := r); [discriminate | exact D |].
      unfold Patterns.anyButNewline.
      destruct (N.eqb_spec r 10) as [E | _]; [| reflexivity].
      exfalso. apply Hr in E.
      simpl in Hlf. apply andb_prop in Hlf. destruct Hlf as [Hc _].
      unfold nat_of_ascii in Hc. rewrite E in Hc. discriminate.
    + rewrite Hlen. cbn [String.length]. lia.
    + replace (pos + String.length (String c t'))
        with (pos + w + String.length (Strings.drop w (String c t')))
        by (rewrite Hlen; cbn [String.length]; lia).
      apply IH; [rewrite Hlen; cbn [String.length] in Hn; lia |].
      apply noLineFeed_drop. exact Hlf.
Qed.

(** Group 2 takes a suffix that has no line feed. *)
Lemma Suffix_group (s : string) (pos : nat) :
  LocalPathGrammar.Suffix s ->
  LocalPathGrammar.noLineFeed s = true ->
  Matches (Regexp.Group 2
             (Regexp.Cat (Regexp.Class Patterns.hashOrQuery)
                         (Regexp.Star (Regexp.Class Patterns.anyButNewline))))
          (pos, s) (pos + String.length s, EmptyString).
Proof.
  intros [rest | rest] Hlf; apply M_Group;
    apply M_Cat with (st2 := (pos + 1, rest));
    try (apply Matches_ascii; reflexivity);
    (replace (pos + String.length (String _ rest))
       with (pos + 1 + String.length rest) by (simpl; lia));
    apply (dot_star_all (String.length rest)); try lia;
    simpl in Hlf; exact Hlf.
Qed.

(** Every local path without a line feed matches the pattern of
    [isSameDomain]. *)
Lemma LocalPath_localLink (p : string) :
  LocalPathGrammar.LocalPath p ->
  LocalPathGrammar.noLineFeed p = true ->
  Regexp.MatchString Patterns.localLinkRegexp p = true.
Proof.
  intros H Hlf. unfold Patterns.localLinkRegexp.
  destruct H as [p Hp | p s Hp Hs | s Hs].
  - apply MatchString_complete with (st' := (String.length p, EmptyString)).
    apply M_Cat with (st2 := (0, p)); [apply M_Bol |].
    apply M_Cat with (st2 := (String.length p, EmptyString)).
    + pose proof (Path_star p Hp EmptyString) as X.
      rewrite append_empty_r in X. exact X.
    + apply M_Cat with (st2 := (String.length p, EmptyString));
        [apply M_Quest_skip | apply M_Eol].
  - apply MatchString_complete
      with (st' := (String.length p + String.length s, EmptyString)).
    apply M_Cat with (st2 := (0, p ++ s)); [apply M_Bol |].
    apply M_Cat with (st2 := (String.length p, s)); [apply Path_star, Hp |].
    apply M_Cat
      with (st2 := (String.length p + String.length s, EmptyString));
      [| apply M_Eol].
    apply M_Quest_take. apply Suffix_group; [exact Hs |].
    apply noLineFeed_append with (a := p). exact Hlf.
  - apply MatchString_complete with (st' := (0 + String.length s, EmptyString)).
    apply M_Cat with (st2 := (0, s)); [apply M_Bol |].
    apply M_Cat with (st2 := (0, s)); [apply M_Star_stop |].
    apply M_Cat with (st2 := (0 + String.length s, EmptyString));
      [| apply M_Eol].
    apply M_Quest_take. apply Suffix_group; assumption.
Qed.

(** A local path without a line feed is same-origin for every target. *)
Lemma isSameDomain_LocalPath (p baseUrl domain : string) :
  LocalPathGrammar.LocalPath p ->
  LocalPathGrammar.noLineFeed p = true ->
  isSameDomain p baseUrl domain = true.
Proof.
  intros H Hlf. unfold isSameDomain.
  rewrite (LocalPath_localLink p H Hlf). reflexivity.
Qed.

(** C5, evaluated where the code leaves it.  The examples of the grammar are
    same-origin, but a query-only reference whose query holds a line feed is
    a local path of the grammar and is answered third-party: [.] stops at
    the line feed and the anchor at the end of the text fails.  The [link]
    callback files such a reference with the other links. *)
Theorem local_path_with_line_feed (baseUrl domain : string) :
  let p := "?q=a" ++ lf ++ "b" in
  isSameDomain "/about" baseUrl domain = true
  /\ isSameDomain "contact.html?x=1" baseUrl domain = true
  /\ isSameDomain "#section" baseUrl domain = true
  /\ LocalPathGrammar.LocalPath p
  /\ Regexp.MatchString Patterns.localLinkRegexp p = false
  /\ isSameDomain p "https://example.com" "example.com" = false
  /\ otherLinks (result (linkHandler false "https://example.com" "example.com"
                           (linkElement "stylesheet" p)) emptyResult) = [p].
Proof.
  repeat split.
  apply LocalPathGrammar.local_suffix.
  apply (LocalPathGrammar.suffix_query ("q=a" ++ lf ++ "b")).
Qed.

(** ** The bounds of the loops are never reached

    [starLoop] and [allMatches] recurse on a bound; the bound that [exec] and
    [FindAllStringSubmatch] pass is large enough for the result not to depend
    on it. *)

(** [exec] only looks at what its continuation answers. *)
Lemma exec_ext (r : Regexp.regex) :
  forall pos s c k1 k2,
    (forall p s' c', k1 p s' c' = k2 p s' c') ->
    Regexp.exec r pos s c k1 = Regexp.exec r pos s c k2.
Proof.
  induction r as [ | p | a IHa b IHb | a IHa | a IHa | i a IHa | | ];
    intros pos s c k1 k2 Hk; cbn [Regexp.exec].
  - apply Hk.
  - destruct s as [|ch t]; [reflexivity |].
    destruct (Utf8.DecodeRuneInString (String ch t)) as [rune w].
    destruct (p rune); [apply Hk | reflexivity].
  - apply IHa. intros p s' c'. apply IHb. exact Hk.
  - generalize (S (String.length s)). intros fuel.
    revert pos s c. induction fuel as [|f IHf]; intros pos s c; simpl.
    + apply Hk.
    + rewrite (IHa pos s c _
                 (fun pos' s' c' =>
                    if Nat.ltb (String.length s') (String.length s)
                    then Regexp.starLoop (Regexp.exec a) f pos' s' c' k2
                    else None)).
      * rewrite Hk. reflexivity.
      * intros p s' c'. destruct (Nat.ltb _ _); [apply IHf | reflexivity].
  - rewrite (IHa pos s c k1 k2 Hk), Hk. reflexivity.
  - apply IHa. intros p s' c'. apply Hk.
  - destruct (Nat.eqb pos 0); [apply Hk | reflexivity].
  - destruct s; [apply Hk | reflexivity].
Qed.

(** Any bound above the length of the text gives the same repetition. *)
Lemma starLoop_fuel (a : Regexp.regex) :
  forall f1 f2 pos s c k,
    String.length s < f1 -> String.length s < f2 ->
    Regexp.starLoop (Regexp.exec a) f1 pos s c k
    = Regexp.starLoop (Regexp.exec a) f2 pos s c k.
Proof.
  induction f1 as [|f1 IH]; intros f2 pos s c k H1 H2; [lia |].
  destruct f2 as [|f2]; [lia |]. simpl.
  rewrite (exec_ext a pos s c _
             (fun pos' s' c' =>
                if Nat.ltb (String.length s') (String.length s)
                then Regexp.starLoop (Regexp.exec a) f2 pos' s' c' k
                else None)).
  - reflexivity.
  - intros p s' c'.
    destruct (Nat.ltb_spec (String.length s') (String.length s));
      [apply IH; lia | reflexivity].
Qed.

(** A match ends at or after the offset where it starts. *)
Lemma exec_forward (r : Regexp.regex) :
  forall pos s c k res,
    Regexp.exec r pos s c k = Some res ->
    exists pos' s' c', pos <= pos' /\ k pos' s' c' = Some res.
Proof.
  induction r as [ | p | a IHa b IHb | a IHa | a IHa | i a IHa | | ];
    intros pos s c k res; cbn [Regexp.exec].
  - intros H. exists pos, s, c. split; [lia | exact H].
  - destruct s as [|ch t]; [discriminate |].
    destruct (Utf8.DecodeRuneInString (String ch t)) as [rune w].
    destruct (p rune); [| discriminate].
    intros H. exists (pos + w), (Strings.drop w (String ch t)), c.
    split; [lia | exact H].
  - intros H. apply IHa in H. destruct H as [p1 [s1 [c1 [L1 H]]]].
    apply IHb in H. destruct H as [p2 [s2 [c2 [L2 H]]]].
    exists p2, s2, c2. split; [lia | exact H].
  - generalize (S (String.length s)). intros fuel.
    revert pos s c. induction fuel as [|f IHf]; intros pos s c; simpl.
    + intros H. exists pos, s, c. split; [lia | exact H].
    + destruct (Regexp.exec a pos s c _) as [res'|] eqn:X.
      * intros E. inversion E; subst res'. clear E.
        apply IHa in X. destruct X as [p1 [s1 [c1 [L1 X]]]].
        destruct (Nat.ltb _ _); [| discriminate].
        apply IHf in X. destruct X as [p2 [s2 [c2 [L2 X]]]].
        exists p2, s2, c2. split; [lia | exact X].
      * intros H. exists pos, s, c. split; [lia | exact H].
  - destruct (Regexp.exec a pos s c k) as [res'|] eqn:X.
    + intros E. inversion E; subst res'. apply IHa in X. exact X.
    + intros H. exists pos, s, c. split; [lia | exact H].
  - intros H. apply IHa in H. destruct H as [p1 [s1 [c1 [L1 H]]]].
    exists p1, s1, (Regexp.setCap i (pos, p1) c1). split; [lia | exact H].
  - destruct (Nat.eqb pos 0); [| discriminate].
    intros H. exists pos, s, c. split; [lia | exact H].
  - destruct s; [| discriminate].
    intros H. exists pos, EmptyString, c. split; [lia | exact H].
Qed.

Lemma matchAt_span (r : Regexp.regex) (pos : nat) (s : string)
      (c : Regexp.Caps) :
  Regexp.matchAt r pos s = Some c ->
  exists e, c 0 = Some (pos, e) /\ pos <= e.
Proof.
  unfold Regexp.matchAt. intros H. apply exec_forward in H.
  destruct H as [p1 [s1 [c1 [L H]]]]. inversion H; subst c.
  exists p1. split; [reflexivity | exact L].
Qed.

Lemma search_span (r : Regexp.regex) (s : string) :
  forall skip pos c,
    Regexp.search r skip pos s = Some c ->
    exists b e, c 0 = Some (b, e) /\ pos <= b /\ b <= e.
Proof.
  induction s as [|ch t IH]; intros skip pos c; cbn [Regexp.search].
  - intros H. apply matchAt_span in H. destruct H as [e [H L]].
    exists pos, e. auto.
  - destruct skip as [|n].
    + destruct (Regexp.matchAt r pos (String ch t)) as [c'|] eqn:X.
      * intros E. inversion E; subst c'. apply matchAt_span in X.
        destruct X as [e [H L]]. exists pos, e. auto.
      * intros H. apply IH in H. destruct H as [b [e [H [L1 L2]]]].
        exists b, e. split; [exact H | lia].
    + intros H. apply IH in H. destruct H as [b [e [H [L1 L2]]]].
      exists b, e. split; [exact H | lia].
Qed.

(** Any bound above the text still to search gives the same matches. *)
Lemma allMatches_fuel (r : Regexp.regex) (txt : string) :
  forall f1 f2 pos prevEnd,
    String.length txt + 1 - pos < f1 ->
    String.length txt + 1 - pos < f2 ->
    Regexp.allMatches r f1 txt pos prevEnd
    = Regexp.allMatches r f2 txt pos prevEnd.
Proof.
  induction f1 as [|f1 IH]; intros f2 pos prevEnd H1 H2; [lia |].
  destruct f2 as [|f2]; [lia |]. cbn [Regexp.allMatches].
  destruct (Nat.ltb_spec (String.length txt) pos) as [_|Hpos];
    [reflexivity |].
  destruct (Regexp.search r 0 pos (Strings.drop pos txt)) as [c|] eqn:X;
    [| reflexivity].
  apply search_span in X. destruct X as [b [e [X [L1 L2]]]]. rewrite X.
  destruct (Nat.eqb_spec e pos) as [_|Hne].
  - set (w := snd (Utf8.DecodeRuneInString (Strings.drop pos txt))).
    assert (E : Regexp.allMatches r f1 txt
                  (if Nat.ltb 0 w then pos + w else S (String.length txt))
                  (Some e)
                = Regexp.allMatches r f2 txt
                    (if Nat.ltb 0 w then pos + w else S (String.length txt))
                    (Some e)).
    { destruct (Nat.ltb_spec 0 w); apply IH; lia. }
    rewrite E. reflexivity.
  - rewrite (IH f2 e (Some e)) by lia. reflexivity.
Qed.

(** [FindAllStringSubmatch] with any larger bound. *)
Lemma FindAllStringSubmatch_fuel (r : Regexp.regex) (n extra : nat)
      (s : string) :
  map (fun c => map (Regexp.submatch s c) (seq 0 (S n)))
      (Regexp.allMatches r (String.length s + 2 + extra) s 0 None)
  = Regexp.FindAllStringSubmatch r n s.
Proof.
  unfold Regexp.FindAllStringSubmatch.
  rewrite (allMatches_fuel r s (String.length s + 2 + extra)
             (String.length s + 2) 0 None) by lia.
  reflexivity.
Qed.

(** * The rest of [main.go] *)

(** ** Relations that the callbacks stay within

    A reflexive and transitive relation on reports that the assignments of a
    callback respect is respected by the callback. *)

Section StepRelation.

Variable P : ScanResult -> ScanResult -> Prop.
Hypothesis P_refl : forall r, P r r.
Hypothesis P_trans : forall r1 r2 r3, P r1 r2 -> P r2 r3 -> P r1 r3.
Hypothesis P_raise : forall f r, P r (setFlag f true r).
Hypothesis P_append :
  forall b v r, Strings.sliceContains (bucket b r) v = false ->
                P r (setBucket b (bucket b r ++ [v])%list r).
Hypothesis P_mu : forall v r, P r (setMu v r).

Lemma Respects_ret {A : Type} (a : A) : Respects P (ret a).
Proof. intros r. apply P_refl. Qed.

Lemma Respects_bind {A B : Type} (m : M A) (k : A -> M B) :
  Respects P m -> (forall a, Respects P (k a)) -> Respects P (bind m k).
Proof.
  intros Hm Hk r. rewrite result_bind.
  eapply P_trans; [apply Hm | apply Hk].
Qed.

Lemma Respects_raise (f : Flag) : Respects P (raise f).
Proof. intros r. apply P_raise. Qed.

Lemma Respects_appendIfAbsent (b : Bucket) (v : string) :
  Respects P (appendIfAbsent b v).
Proof.
  intros r. unfold result, appendIfAbsent.
  destruct (Strings.sliceContains (bucket b r) v) eqn:E; simpl;
    [apply P_refl | apply P_append; exact E].
Qed.

Lemma Respects_Visit (url : string) : Respects P (Visit url).
Proof. intros r. apply P_refl. Qed.

Lemma Respects_Print : Respects P Print.
Proof. intros r. apply P_refl. Qed.

Lemma Respects_whenVerbose (verbose : bool) : Respects P (whenVerbose verbose).
Proof. destruct verbose; [apply Respects_Print | apply Respects_ret]. Qed.

Lemma Respects_Lock : Respects P Lock.
Proof. intros r. apply P_mu. Qed.

Lemma Respects_Unlock : Respects P Unlock.
Proof. intros r. apply P_mu. Qed.

Lemma Respects_forEach {A : Type} (xs : list A) (body : A -> M unit) :
  (forall x, Respects P (body x)) -> Respects P (forEach xs body).
Proof.
  intros H. induction xs as [|x rest IH]; simpl.
  - apply Respects_ret.
  - apply Respects_bind; [apply H | intros _; exact IH].
Qed.

Ltac respects :=
  repeat first
    [ apply Respects_bind; [ | intros _ ]
    | apply Respects_forEach; intros ?
    | match goal with
      | |- Respects _ (if ?c then _ else _) => destruct c
      end
    | apply Respects_ret | apply Respects_raise
    | apply Respects_appendIfAbsent | apply Respects_Visit
    | apply Respects_Print | apply Respects_whenVerbose
    | apply Respects_Lock | apply Respects_Unlock ].

Lemma Respects_linkHandler verbose baseUrl domain e :
  Respects P (linkHandler verbose baseUrl domain e).
Proof. unfold linkHandler, linkBody. cbv zeta. respects. Qed.

Lemma Respects_scriptHandler verbose baseUrl domain e :
  Respects P (scriptHandler verbose baseUrl domain e).
Proof.
  unfold scriptHandler, scriptBody, scriptText. cbv zeta. respects.
Qed.

Lemma Respects_iframeHandler verbose baseUrl domain e :
  Respects P (iframeHandler verbose baseUrl domain e).
Proof. unfold iframeHandler, iframeBody. cbv zeta. respects. Qed.

Lemma Respects_scanCss verbose baseUrl domain fonts other text :
  Respects P (scanCss verbose baseUrl domain fonts other text).
Proof. unfold scanCss, importTarget. cbv zeta. respects. Qed.

(** Every callback but the one for requests. *)
Lemma Respects_dispatch verbose baseUrl domain ev :
  ev <> OnRequest -> Respects P (dispatch verbose baseUrl domain ev).
Proof.
  intros Hev. destruct ev; simpl; try congruence.
  - apply Respects_Visit.
  - apply Respects_linkHandler.
  - apply Respects_scriptHandler.
  - apply Respects_iframeHandler.
  - unfold styleHandler. destruct (negb _);
      [apply Respects_scanCss | apply Respects_ret].
  - unfold responseHandler. destruct (Strings.HasSuffix _ _);
      [apply Respects_scanCss | apply Respects_ret].
Qed.

Hypothesis P_visits : forall v r, P r (setVisits v r).

Lemma Respects_requestHandler : Respects P requestHandler.
Proof.
  unfold requestHandler.
  apply Respects_bind; [apply Respects_Lock | intros _].
  apply Respects_bind; [intros r; apply P_visits | intros _].
  apply Respects_bind; [apply Respects_Print | intros _].
  apply Respects_Unlock.
Qed.

Lemma Respects_crawl verbose baseUrl domain evs :
  Respects P (crawl verbose baseUrl domain evs).
Proof.
  unfold crawl. apply Respects_forEach. intros ev.
  destruct ev; try (apply Respects_dispatch; discriminate).
  apply Respects_requestHandler.
Qed.

End StepRelation.

(** ** Flags and the visit counter *)

Lemma flag_setFlag_true (f g : Flag) (r : ScanResult) :
  flag f r = true -> flag f (setFlag g true r) = true.
Proof. destruct f, g; simpl; auto. Qed.

Lemma flag_setBucket (f : Flag) (b : Bucket) (v : list string)
      (r : ScanResult) :
  flag f (setBucket b v r) = flag f r.
Proof. destruct f, b; reflexivity. Qed.

Lemma flag_setMu (f : Flag) (v : bool) (r : ScanResult) :
  flag f (setMu v r) = flag f r.
Proof. destruct f; reflexivity. Qed.

Lemma flag_setVisits (f : Flag) (v : N) (r : ScanResult) :
  flag f (setVisits v r) = flag f r.
Proof. destruct f; reflexivity. Qed.

(** X1.  No callback ever clears a flag: a flag that is set before a crawl
    is set after it, whatever the events of the crawl are. *)
Theorem flags_never_cleared
        (verbose : bool) (baseUrl domain : string) (evs : list CrawlEvent)
        (r : ScanResult) (f : Flag) :
  flag f r = true ->
  flag f (result (crawl verbose baseUrl domain evs) r) = true.
Proof.
  revert f.
  apply (Respects_crawl
           (fun r r' => forall f, flag f r = true -> flag f r' = true)).
  - auto.
  - auto.
  - intros g r0 f. apply flag_setFlag_true.
  - intros b v r0 _ f. rewrite flag_setBucket. auto.
  - intros v r0 f. rewrite flag_setMu. auto.
  - intros v r0 f. rewrite flag_setVisits. auto.
Qed.

Lemma flags_never_cleared_witness :
  flag DnsPrefetch
    (result (crawl false "https://example.com" "example.com"
               [OnLink (linkElement "stylesheet" "https://cdn.example.net/a.css");
                OnRequest])
            (setFlag DnsPrefetch true emptyResult)) = true.
Proof.
  apply (flags_never_cleared false "https://example.com" "example.com"
           [OnLink (linkElement "stylesheet" "https://cdn.example.net/a.css");
            OnRequest]
           (setFlag DnsPrefetch true emptyResult) DnsPrefetch).
  reflexivity.
Defined.

(** Only the callback for requests touches the visit counter. *)
Lemma visits_dispatch verbose baseUrl domain ev r :
  ev <> OnRequest ->
  visits (result (dispatch verbose baseUrl domain ev) r) = visits r.
Proof.
  intros Hev.
  apply (Respects_dispatch (fun r r' => visits r' = visits r)); auto.
  - intros r1 r2 r3 H1 H2. congruence.
  - intros f r0. destruct f; reflexivity.
  - intros b v r0 _. destruct b; reflexivity.
Qed.

Lemma visits_requestHandler (r : ScanResult) :
  visits (result requestHandler r) = ((visits r + 1) mod 2 ^ 32)%N.
Proof. reflexivity. Qed.

(** X2.  The visit counter counts the requests of a crawl, and nothing
    else, modulo 2^32: the counter is a [uint32] that wraps around. *)
Theorem visits_count_requests
        (verbose : bool) (baseUrl domain : string) (evs : list CrawlEvent)
        (r : ScanResult) :
  (visits r < 2 ^ 32)%N ->
  visits (result (crawl verbose baseUrl domain evs) r)
  = ((visits r + N.of_nat (requests evs)) mod 2 ^ 32)%N.
Proof.
  unfold crawl. revert r.
  induction evs as [|ev rest IH]; intros r Hr.
  - simpl. rewrite N.add_0_r. symmetry. apply N.mod_small. exact Hr.
  - cbn [forEach]. rewrite result_bind.
    destruct ev;
      try (rewrite IH;
           [ rewrite visits_dispatch by discriminate; reflexivity
           | rewrite visits_dispatch by discriminate; exact Hr ]).
    cbn [dispatch requests].
    rewrite IH by (rewrite visits_requestHandler; apply N.mod_upper_bound;
                   discriminate).
    rewrite visits_requestHandler.
    rewrite N.Div0.add_mod_idemp_l. f_equal. lia.
Qed.

Lemma visits_count_requests_witness :
  visits (result (crawl false "https://example.com" "example.com"
                    [OnRequest; OnStyle (styleElement "p {}"); OnRequest])
                 emptyResult)
  = ((visits emptyResult + N.of_nat 2) mod 2 ^ 32)%N.
Proof.
  apply (visits_count_requests false "https://example.com" "example.com"
           [OnRequest; OnStyle (styleElement "p {}"); OnRequest] emptyResult).
  reflexivity.
Defined.

(** ** What the buckets hold *)

Section Filing.

Variables baseUrl domain : string.

Lemma Files_same_buckets {A : Type} (m : M A) :
  (forall r b, bucket b (result m r) = bucket b r) ->
  Files baseUrl domain m.
Proof. intros H r Hr b v. rewrite H. apply Hr. Qed.

Lemma Files_ret {A : Type} (a : A) : Files baseUrl domain (ret a).
Proof. apply Files_same_buckets. reflexivity. Qed.

Lemma Files_bind {A B : Type} (m : M A) (k : A -> M B) :
  Files baseUrl domain m -> (forall a, Files baseUrl domain (k a)) ->
  Files baseUrl domain (bind m k).
Proof. intros Hm Hk r Hr. rewrite result_bind. apply Hk, Hm, Hr. Qed.

Lemma Files_Lock : Files baseUrl domain Lock.
Proof. apply Files_same_buckets. intros r b. apply bucket_setMu. Qed.

Lemma Files_Unlock : Files baseUrl domain Unlock.
Proof. apply Files_same_buckets. intros r b. apply bucket_setMu. Qed.

Lemma Files_incVisits : Files baseUrl domain incVisits.
Proof. apply Files_same_buckets. intros r b. apply bucket_setVisits. Qed.

Lemma Files_raise (f : Flag) : Files baseUrl domain (raise f).
Proof. apply Files_same_buckets. intros r b. apply bucket_setFlag. Qed.

Lemma Files_Visit (url : string) : Files baseUrl domain (Visit url).
Proof. apply Files_same_buckets. reflexivity. Qed.

Lemma Files_whenVerbose (verbose : bool) :
  Files baseUrl domain (whenVerbose verbose).
Proof. apply Files_same_buckets. destruct verbose; reflexivity. Qed.

(** An append keeps the invariant when the value passed the tests. *)
Lemma Files_appendIfAbsent (b : Bucket) (v : string) :
  wellFiled baseUrl domain b v = true ->
  Files baseUrl domain (appendIfAbsent b v).
Proof.
  intros Hv r Hr b' x. unfold result, appendIfAbsent.
  destruct (Strings.sliceContains (bucket b r) v); simpl; [apply Hr |].
  destruct (Bucket_eq_dec b' b) as [-> | Hne].
  - rewrite bucket_setBucket_same. intros Hin. apply in_app_or in Hin.
    destruct Hin as [Hin | [<- | []]]; [apply Hr; exact Hin | exact Hv].
  - rewrite bucket_setBucket_other by exact Hne. apply Hr.
Qed.

Lemma Files_forEach {A : Type} (xs : list A) (body : A -> M unit) :
  (forall x, Files baseUrl domain (body x)) ->
  Files baseUrl domain (forEach xs body).
Proof.
  intros H. induction xs as [|x rest IH]; simpl.
  - apply Files_ret.
  - apply Files_bind; [apply H | intros _; exact IH].
Qed.

(** The tests of a bucket, read off the branch that leads to the append. *)
Ltac tests :=
  repeat match goal with
  | H : (_ && _) = true |- _ => apply andb_prop in H; destruct H
  | H : (_ || _) = false |- _ => apply orb_false_elim in H; destruct H
  end;
  unfold wellFiled, matchesGoogleFonts;
  repeat match goal with
  | H : _ = _ |- _ => rewrite H
  end;
  reflexivity.

Ltac files :=
  repeat first
    [ apply Files_bind; [ | intros _ ]
    | apply Files_forEach; intros ?
    | match goal with
      | |- Files _ _ (if ?c then _ else _) => destruct c eqn:?
      end
    | apply Files_ret | apply Files_raise | apply Files_Visit
    | apply Files_whenVerbose | apply Files_Lock | apply Files_Unlock
    | apply Files_incVisits
    | apply Files_appendIfAbsent; tests ].

Lemma Files_dispatch verbose ev :
  Files baseUrl domain (dispatch verbose baseUrl domain ev).
Proof.
  destruct ev; simpl.
  - apply Files_Visit.
  - unfold requestHandler. files.
  - unfold linkHandler, linkBody. cbv zeta. files.
  - unfold scriptHandler, scriptBody, scriptText. cbv zeta. files.
  - unfold iframeHandler, iframeBody. cbv zeta. files.
  - unfold styleHandler, scanCss, importTarget. cbv zeta. files.
  - unfold responseHandler, scanCss, importTarget. cbv zeta. files.
Qed.

End Filing.

(** X3.  Whatever a crawl meets, every entry of the report passed the tests
    of the bucket that holds it: the entries of the third-party buckets are
    references that [isSameDomain] rejects (and, for scripts and frames, are
    not empty and do not name [googletagmanager.com]; for links, carry no
    Google Fonts marker; for imports, do not contain [googleapis.com]), and
    the entries of the two fonts buckets contain [googleapis.com]. *)
Theorem buckets_well_filed
        (verbose : bool) (baseUrl domain : string) (evs : list CrawlEvent)
        (b : Bucket) (v : string) :
  In v (bucket b (result (crawl verbose baseUrl domain evs) emptyResult)) ->
  wellFiled baseUrl domain b v = true.
Proof.
  revert b v.
  assert (H : Files baseUrl domain (crawl verbose baseUrl domain evs)).
  { unfold crawl. apply Files_forEach. intros ev. apply Files_dispatch. }
  apply (H emptyResult). intros b v. destruct b; intros [].
Qed.

Lemma buckets_well_filed_witness :
  wellFiled "https://example.com" "example.com" OtherLinks
            "https://cdn.example.net/a.css" = true.
Proof.
  apply (buckets_well_filed false "https://example.com" "example.com"
           [OnLink (linkElement "stylesheet" "https://cdn.example.net/a.css")]
           OtherLinks "https://cdn.example.net/a.css").
  vm_compute. left. reflexivity.
Defined.

(** ** The order of the tests in the [link] and [script] callbacks *)

(** X4.  A [link] element with [rel=preconnect] and a third-party [href] is
    filed under [otherPreconnect] and raises no flag: the test for the Google
    Fonts markers comes later and is not reached, so a preconnect hint to a
    Google Fonts host does not set [googleFontsLink]. *)
Theorem preconnect_before_fonts
        (verbose : bool) (baseUrl domain : string) (e : HTMLElement)
        (r : ScanResult) :
  Attr e "rel" = "preconnect" ->
  isSameDomain (Attr e "href") baseUrl domain = false ->
  let r' := result (linkHandler verbose baseUrl domain e) r in
  In (Attr e "href") (otherPreconnect r')
  /\ (forall f, flag f r' = flag f r)
  /\ (forall b, b <> OtherPreconnect -> bucket b r' = bucket b r)
  /\ visits r' = visits r.
Proof.
  intros Hrel Hthird. unfold linkHandler, linkBody.
  rewrite Hrel, Hthird. cbv zeta.
  change (String.eqb "preconnect" "dns-prefetch") with false.
  change (String.eqb "preconnect" "preconnect" && negb false) with true.
  cbv iota.
  pose proof (appendIfAbsent_records OtherPreconnect (Attr e "href")
                                     (setMu true r)) as Hin.
  apply sliceContains_true in Hin. revert Hin.
  unfold result, bind, Lock, Unlock, Visit, whenVerbose, Print, ret,
    appendIfAbsent.
  cbn [bucket setMu otherPreconnect].
  destruct (Strings.sliceContains (otherPreconnect r) (Attr e "href"));
    destruct verbose; cbn; intros Hin;
    (split; [exact Hin |]);
    (split; [intros f; destruct f; reflexivity |]);
    (split; [| reflexivity]);
    intros b Hb; destruct b; try reflexivity; congruence.
Qed.

Lemma preconnect_before_fonts_witness :
  let e := linkElement "preconnect" "https://fonts.gstatic.com" in
  let r' := result (linkHandler false "https://example.com" "example.com" e)
              emptyResult in
  In (Attr e "href") (otherPreconnect r')
  /\ (forall f, flag f r' = flag f emptyResult)
  /\ (forall b, b <> OtherPreconnect -> bucket b r' = bucket b emptyResult)
  /\ visits r' = visits emptyResult.
Proof.
  apply (preconnect_before_fonts false "https://example.com" "example.com"
           (linkElement "preconnect" "https://fonts.gstatic.com") emptyResult);
    reflexivity.
Defined.

(** X5.  A [link] element whose [href] carries a Google Fonts marker, and
    that is neither a [dns-prefetch] hint nor a third-party [preconnect]
    hint, raises [googleFontsLink] and is filed nowhere: no bucket and no
    other flag changes, whether the reference is third-party or not. *)
Theorem google_fonts_link
        (verbose : bool) (baseUrl domain : string) (e : HTMLElement)
        (r : ScanResult) :
  Attr e "rel" <> "dns-prefetch" ->
  (Attr e "rel" <> "preconnect"
   \/ isSameDomain (Attr e "href") baseUrl domain = true) ->
  matchesGoogleFonts (Attr e "href") = true ->
  let r' := result (linkHandler verbose baseUrl domain e) r in
  googleFontsLink r' = true
  /\ (forall b, bucket b r' = bucket b r)
  /\ (forall f, f <> GoogleFontsLink -> flag f r' = flag f r)
  /\ visits r' = visits r.
Proof.
  intros Hdns Hpre Hfonts. unfold linkHandler, linkBody. cbv zeta.
  apply String.eqb_neq in Hdns. rewrite Hdns.
  assert (E : String.eqb (Attr e "rel") "preconnect"
              && negb (isSameDomain (Attr e "href") baseUrl domain) = false).
  { destruct Hpre as [H | H].
    - apply String.eqb_neq in H. rewrite H. reflexivity.
    - rewrite H. apply andb_false_r. }
  rewrite E. unfold matchesGoogleFonts in Hfonts. rewrite Hfonts.
  cbv iota.
  destruct verbose; repeat split; try reflexivity;
    try (intros b; destruct b; reflexivity);
    intros f Hf; destruct f; try reflexivity; congruence.
Qed.

Lemma google_fonts_link_witness :
  let e := linkElement "stylesheet"
             "https://fonts.googleapis.com/css?family=Lato" in
  let r' := result (linkHandler false "http://example.com" "example.com" e)
              emptyResult in
  googleFontsLink r' = true
  /\ (forall b, bucket b r' = bucket b emptyResult)
  /\ (forall f, f <> GoogleFontsLink -> flag f r' = flag f emptyResult)
  /\ visits r' = visits emptyResult.
Proof.
  apply (google_fonts_link false "http://example.com" "example.com"
           (linkElement "stylesheet"
              "https://fonts.googleapis.com/css?family=Lato") emptyResult).
  - discriminate.
  - left. discriminate.
  - reflexivity.
Defined.

(** X6.  The text of a [script] element is examined only when its [src]
    does not decide.  When the [src] names [googletagmanager.com] the
    callback raises [googleAnalyticsScriptSrc] and files nothing; when the
    [src] is another third-party reference it is filed under
    [otherScripts]; in both cases the two flags of the inline text keep
    their values, whatever the text contains. *)
Theorem script_src_before_text
        (verbose : bool) (baseUrl domain : string) (e : HTMLElement)
        (r : ScanResult) :
  Strings.Contains (Attr e "src") "googletagmanager.com" = true
  \/ (Attr e "src" <> EmptyString
      /\ isSameDomain (Attr e "src") baseUrl domain = false) ->
  let r' := result (scriptHandler verbose baseUrl domain e) r in
  googleAnalyticsScript r' = googleAnalyticsScript r
  /\ googleFontsScript r' = googleFontsScript r
  /\ (Strings.Contains (Attr e "src") "googletagmanager.com" = true ->
      googleAnalyticsScriptSrc r' = true
      /\ forall b, bucket b r' = bucket b r)
  /\ (Strings.Contains (Attr e "src") "googletagmanager.com" = false ->
      In (Attr e "src") (otherScripts r')
      /\ googleAnalyticsScriptSrc r' = googleAnalyticsScriptSrc r).
Proof.
  intros H. unfold scriptHandler, scriptBody. cbv zeta.
  assert (Hne : String.eqb (Attr e "src") "" = false).
  { destruct H as [H | [H _]].
    - destruct (Attr e "src"); [discriminate H | reflexivity].
    - apply String.eqb_neq. exact H. }
  rewrite Hne. cbv iota. simpl negb. cbv iota.
  destruct (Strings.Contains (Attr e "src") "googletagmanager.com") eqn:G.
  - destruct verbose; repeat split; try discriminate;
      intros b; destruct b; reflexivity.
  - destruct H as [H | [_ H]]; [discriminate H |]. rewrite H.
    simpl negb. cbv iota.
    pose proof (appendIfAbsent_records OtherScripts (Attr e "src")
                                       (setMu true r)) as Hin.
    apply sliceContains_true in Hin. revert Hin.
    unfold result, bind, Lock, Unlock, whenVerbose, Print, ret,
      appendIfAbsent.
    cbn [bucket setMu otherScripts].
    destruct (Strings.sliceContains (otherScripts r) (Attr e "src"));
      destruct verbose; cbn; intros Hin; repeat split;
      try discriminate; try reflexivity; exact Hin.
Qed.

Lemma script_src_before_text_witness :
  let e := {| attributes := [("src", "https://cdn.example.net/lib.js")];
              Text := "fonts.googleapis.com googletagmanager.com" |} in
  let r' := result (scriptHandler false "https://example.com" "example.com" e)
              emptyResult in
  googleAnalyticsScript r' = googleAnalyticsScript emptyResult
  /\ googleFontsScript r' = googleFontsScript emptyResult
  /\ (Strings.Contains (Attr e "src") "googletagmanager.com" = true ->
      googleAnalyticsScriptSrc r' = true
      /\ forall b, bucket b r' = bucket b emptyResult)
  /\ (Strings.Contains (Attr e "src") "googletagmanager.com" = false ->
      In (Attr e "src") (otherScripts r')
      /\ googleAnalyticsScriptSrc r'
         = googleAnalyticsScriptSrc emptyResult).
Proof.
  apply (script_src_before_text false "https://example.com" "example.com"
           {| attributes := [("src", "https://cdn.example.net/lib.js")];
              Text := "fonts.googleapis.com googletagmanager.com" |}
           emptyResult).
  right. split; [discriminate | reflexivity].
Defined.

(** ** Seeing an element again *)

Lemma setFlag_true_id (f : Flag) (r : ScanResult) :
  flag f r = true -> setFlag f true r = r.
Proof. destruct r, f; simpl; intros ->; reflexivity. Qed.

Lemma setMu_setMu (v w : bool) (r : ScanResult) :
  setMu v (setMu w r) = setMu v r.
Proof. reflexivity. Qed.

Lemma setMu_id (r : ScanResult) : setMu (mu r) r = r.
Proof. destruct r; reflexivity. Qed.

Lemma done_noop (a : Action) (r : ScanResult) :
  done a r = true -> result (act a) r = r.
Proof.
  destruct a as [f | b v]; simpl; intros H.
  - apply setFlag_true_id. exact H.
  - unfold result, appendIfAbsent. rewrite H. reflexivity.
Qed.

Lemma done_after (a : Action) (r : ScanResult) :
  done a (result (act a) r) = true.
Proof.
  destruct a as [f | b v]; simpl.
  - destruct f; reflexivity.
  - apply appendIfAbsent_records.
Qed.

(** What is done stays done. *)
Lemma done_kept (a a' : Action) (r : ScanResult) :
  done a r = true -> done a (result (act a') r) = true.
Proof.
  destruct a as [f | b v], a' as [f' | b' v']; simpl; intros H.
  - apply flag_setFlag_true. exact H.
  - unfold result, appendIfAbsent.
    destruct (Strings.sliceContains _ _); simpl; [exact H |].
    rewrite flag_setBucket. exact H.
  - unfold result, raise. simpl. rewrite bucket_setFlag. exact H.
  - unfold result, appendIfAbsent.
    destruct (Strings.sliceContains (bucket b' r) v'); simpl; [exact H |].
    destruct (Bucket_eq_dec b b') as [-> | Hne].
    + rewrite bucket_setBucket_same. unfold Strings.sliceContains in *.
      rewrite existsb_app, H. reflexivity.
    + rewrite bucket_setBucket_other by exact Hne. exact H.
Qed.

Lemma done_kept_forEach (a : Action) (acts : list Action) :
  forall r, done a r = true -> done a (result (forEach acts act) r) = true.
Proof.
  induction acts as [|a' rest IH]; intros r H; [exact H |].
  cbn [forEach]. rewrite result_bind. apply IH, done_kept, H.
Qed.

Lemma forEach_all_done (acts : list Action) :
  forall r a, In a acts -> done a (result (forEach acts act) r) = true.
Proof.
  induction acts as [|a' rest IH]; intros r a Hin; [destruct Hin |].
  cbn [forEach]. rewrite result_bind. destruct Hin as [<- | Hin].
  - apply done_kept_forEach, done_after.
  - apply IH, Hin.
Qed.

Lemma forEach_done_noop (acts : list Action) :
  forall r, (forall a, In a acts -> done a r = true) ->
            result (forEach acts act) r = r.
Proof.
  induction acts as [|a' rest IH]; intros r H; [reflexivity |].
  cbn [forEach]. rewrite result_bind.
  rewrite (done_noop a' r) by (apply H; left; reflexivity).
  apply IH. intros a Ha. apply H. right. exact Ha.
Qed.

(** A list of assignments run twice gives what one run gives. *)
Lemma forEach_act_twice (acts : list Action) (r : ScanResult) :
  result (forEach acts act) (result (forEach acts act) r)
  = result (forEach acts act) r.
Proof.
  apply forEach_done_noop. intros a Ha. apply forEach_all_done, Ha.
Qed.

(** The assignments do not look at the mutex. *)
Lemma act_setMu (a : Action) (v : bool) (r : ScanResult) :
  result (act a) (setMu v r) = setMu v (result (act a) r).
Proof.
  destruct a as [f | b x]; simpl.
  - destruct f; reflexivity.
  - unfold result, appendIfAbsent. rewrite bucket_setMu.
    destruct (Strings.sliceContains (bucket b r) x); simpl;
      [reflexivity | destruct b; reflexivity].
Qed.

Lemma forEach_act_setMu (acts : list Action) (v : bool) :
  forall r, result (forEach acts act) (setMu v r)
            = setMu v (result (forEach acts act) r).
Proof.
  induction acts as [|a rest IH]; intros r; [reflexivity |].
  cbn [forEach]. rewrite !result_bind, act_setMu. apply IH.
Qed.

Lemma forEach_app {A : Type} (xs ys : list A) (body : A -> M unit)
      (r : ScanResult) :
  result (forEach (xs ++ ys) body) r
  = result (forEach ys body) (result (forEach xs body) r).
Proof.
  revert r. induction xs as [|x rest IH]; intros r; [reflexivity |].
  cbn [forEach app]. rewrite !result_bind. apply IH.
Qed.

(** A callback body with the mutex taken around it, run twice. *)
Lemma locked_twice (body : M unit) (acts : list Action) :
  (forall r, result body r = result (forEach acts act) r) ->
  forall r,
    result (Lock ;; body ;; Unlock) (result (Lock ;; body ;; Unlock) r)
    = result (Lock ;; body ;; Unlock) r.
Proof.
  intros H.
  assert (E : forall r, result (Lock ;; body ;; Unlock) r
                        = setMu false (result (forEach acts act) r)).
  { intros r. rewrite !result_bind.
    change (result Lock r) with (setMu true r).
    rewrite H, forEach_act_setMu. reflexivity. }
  intros r. rewrite !E, forEach_act_setMu, forEach_act_twice. reflexivity.
Qed.

Ltac one_action :=
  intros ?r; unfold result, bind, Visit, raise, whenVerbose, Print, ret,
    appendIfAbsent; cbn [forEach act];
  unfold result, bind, raise, ret, appendIfAbsent;
  repeat match goal with
  | |- context [if ?c then _ else _] => destruct c
  end; reflexivity.

Lemma linkBody_actions verbose baseUrl domain e :
  exists acts, forall r,
    result (linkBody verbose baseUrl domain e) r
    = result (forEach acts act) r.
Proof.
  unfold linkBody. cbv zeta.
  destruct (String.eqb (Attr e "rel") "dns-prefetch");
    [exists [Raise DnsPrefetch]; one_action |].
  destruct (String.eqb (Attr e "rel") "preconnect" && _);
    [exists [Append OtherPreconnect (Attr e "href")]; one_action |].
  destruct (_ || _); [exists [Raise GoogleFontsLink]; one_action |].
  destruct (negb _);
    [exists [Append OtherLinks (Attr e "href")]; one_action |].
  exists []. one_action.
Qed.

Lemma scriptBody_actions verbose baseUrl domain e :
  exists acts, forall r,
    result (scriptBody verbose baseUrl domain e) r
    = result (forEach acts act) r.
Proof.
  assert (T : exists acts, forall r,
               result (scriptText verbose e) r = result (forEach acts act) r).
  { unfold scriptText.
    destruct (Strings.Contains (Text e) "googletagmanager.com");
      [exists [Raise GoogleAnalyticsScript]; one_action |].
    destruct (Strings.Contains (Text e) "fonts.googleapis.com");
      [exists [Raise GoogleFontsScript]; one_action |].
    exists []. one_action. }
  unfold scriptBody. cbv zeta.
  destruct (negb (String.eqb (Attr e "src") "")); [| exact T].
  destruct (Strings.Contains (Attr e "src") "googletagmanager.com");
    [exists [Raise GoogleAnalyticsScriptSrc]; one_action |].
  destruct (negb _); [| exact T].
  exists [Append OtherScripts (Attr e "src")]. one_action.
Qed.

Lemma iframeBody_actions verbose baseUrl domain e :
  exists acts, forall r,
    result (iframeBody verbose baseUrl domain e) r
    = result (forEach acts act) r.
Proof.
  unfold iframeBody. cbv zeta.
  destruct (negb (String.eqb (Attr e "src") "")); [| exists []; one_action].
  destruct (Strings.Contains (Attr e "src") "googletagmanager.com");
    [exists [Raise GoogleAnalyticsIFrame]; one_action |].
  destruct (negb _); [| exists []; one_action].
  exists [Append OtherIFrames (Attr e "src")]. one_action.
Qed.

Lemma importTarget_actions verbose baseUrl domain fonts other sm r :
  result (importTarget verbose baseUrl domain fonts other sm) r
  = result (forEach (importAction baseUrl domain fonts other sm) act) r.
Proof.
  unfold importTarget, importAction. cbv zeta. revert r.
  destruct (Strings.Contains sm "googleapis.com"); [one_action |].
  destruct (negb _); one_action.
Qed.

(** The loop of a scanning callback is the run of the assignments of its
    targets, in order. *)
Lemma scanCss_actions verbose baseUrl domain fonts other text :
  exists acts, forall r,
    result (scanCss verbose baseUrl domain fonts other text) r
    = result (forEach acts act) r.
Proof.
  rewrite scanCss_extractImports.
  destruct (Regexp.MatchString _ _); [| exists []; reflexivity].
  exists (flat_map (importAction baseUrl domain fonts other)
                   (extractImports text)).
  induction (extractImports text) as [|sm rest IH]; intros r;
    [reflexivity |].
  cbn [forEach flat_map]. rewrite result_bind, forEach_app.
  rewrite importTarget_actions. apply IH.
Qed.

(** X7.  Every callback but the one for requests may see the same element
    or response twice: the second run leaves the report as the first one
    left it.  (The callback for requests counts, see X2.) *)
Theorem callbacks_idempotent
        (verbose : bool) (baseUrl domain : string) (ev : CrawlEvent)
        (r : ScanResult) :
  ev <> OnRequest ->
  result (dispatch verbose baseUrl domain ev ;;
          dispatch verbose baseUrl domain ev) r
  = result (dispatch verbose baseUrl domain ev) r.
Proof.
  intros Hev. rewrite result_bind.
  destruct ev as [e | | e | e | e | e | resp]; cbn [dispatch];
    try congruence.
  - reflexivity.
  - destruct (linkBody_actions verbose baseUrl domain e) as [acts H].
    apply (locked_twice _ acts H).
  - destruct (scriptBody_actions verbose baseUrl domain e) as [acts H].
    apply (locked_twice _ acts H).
  - destruct (iframeBody_actions verbose baseUrl domain e) as [acts H].
    apply (locked_twice _ acts H).
  - unfold styleHandler. destruct (negb _); [| reflexivity].
    destruct (scanCss_actions verbose baseUrl domain
                GoogleFontsStyle OtherStyle (Text e)) as [acts H].
    rewrite !H. apply forEach_act_twice.
  - unfold responseHandler. destruct (Strings.HasSuffix _ _);
      [| reflexivity].
    destruct (scanCss_actions verbose baseUrl domain
                GoogleFontsCss OtherCss (Body resp)) as [acts H].
    rewrite !H. apply forEach_act_twice.
Qed.

Lemma callbacks_idempotent_witness :
  let ev := OnStyle (styleElement
              "@import url(https://cdn.example.net/a.css); @import 'b.css';") in
  let h := dispatch false "https://example.com" "example.com" ev in
  result (h ;; h) emptyResult = result h emptyResult.
Proof.
  apply (callbacks_idempotent false "https://example.com" "example.com"
           (OnStyle (styleElement
              "@import url(https://cdn.example.net/a.css); @import 'b.css';"))
           emptyResult).
  discriminate.
Defined.

(** ** [printResult] *)

Lemma HasPrefix_refl (s : string) : Strings.HasPrefix s s = true.
Proof.
  induction s as [|c s IH]; simpl; [reflexivity |].
  rewrite Ascii.eqb_refl. exact IH.
Qed.

Lemma HasPrefix_append_l (s t p : string) :
  Strings.HasPrefix s p = true -> Strings.HasPrefix (s ++ t) p = true.
Proof.
  revert s. induction p as [|c p IH]; intros s; [reflexivity |].
  destruct s as [|d s]; cbn [Strings.HasPrefix append]; [discriminate |].
  intros H. apply andb_prop in H. destruct H as [H1 H2].
  rewrite H1. simpl. apply IH, H2.
Qed.

Lemma Contains_refl (s : string) : Strings.Contains s s = true.
Proof. destruct s; simpl; rewrite ?Ascii.eqb_refl, ?HasPrefix_refl; reflexivity. Qed.

Lemma Contains_append_l (s t v : string) :
  Strings.Contains s v = true -> Strings.Contains (s ++ t) v = true.
Proof.
  induction s as [|c s IH]; cbn [Strings.Contains append].
  - rewrite orb_false_r. intros H.
    destruct v; [| discriminate H].
    destruct t; reflexivity.
  - intros H. apply orb_true_iff in H. destruct H as [H | H].
    + change (String c (s ++ t)) with (String c s ++ t).
      rewrite (HasPrefix_append_l _ t _ H). reflexivity.
    + rewrite (IH H). apply orb_true_r.
Qed.

Lemma Contains_append_r (s t v : string) :
  Strings.Contains t v = true -> Strings.Contains (s ++ t) v = true.
Proof.
  intros H. induction s as [|c s IH]; [exact H |].
  cbn [Strings.Contains append]. rewrite IH. apply orb_true_r.
Qed.

(** Every element of a slice occurs in the joined string. *)
Lemma Contains_Join (xs : list string) (sep v : string) :
  In v xs -> Strings.Contains (Join xs sep) v = true.
Proof.
  induction xs as [|x rest IH]; intros Hin; [destruct Hin |].
  destruct rest as [|y rest'].
  - destruct Hin as [<- | []]. apply Contains_refl.
  - change (Join (x :: y :: rest') sep)
      with (x ++ sep ++ Join (y :: rest') sep).
    destruct Hin as [<- | Hin].
    + apply Contains_append_l, Contains_refl.
    + apply Contains_append_r, Contains_append_r, IH, Hin.
Qed.

Lemma printSlice_entry (xs : list string) (msg color v : string) :
  In v xs ->
  exists chunk, In chunk (printSlice xs msg color)
                /\ Strings.Contains chunk v = true.
Proof.
  intros Hin. exists (line (Join xs ", ")). split.
  - unfold printSlice. destruct xs; [destruct Hin |].
    simpl. right. right. left. reflexivity.
  - apply Contains_append_l, Contains_Join, Hin.
Qed.

(** X8.  Nothing that the report holds is left out of the output: the
    message of every flag that is set is written, and every entry of every
    bucket occurs in a string that is written. *)
Theorem printResult_complete (r : ScanResult) :
  (googleAnalyticsScriptSrc r = true ->
   In (line "Website uses Google Analytics via <script src>") (printResult r))
  /\ (googleAnalyticsIFrame r = true ->
      In (line "Website uses Google Analytics via <iframe>") (printResult r))
  /\ (googleFontsLink r = true ->
      In (line "Website uses Google Fonts via <link>") (printResult r))
  /\ (googleAnalyticsScript r = true ->
      In "Found Google Analytics URL in <script>" (printResult r))
  /\ (googleFontsScript r = true ->
      In "Found Google Fonts URL in <script>" (printResult r))
  /\ (dnsPrefetch r = true ->
      In (line "Found <link rel='dns-prefetch'> elements") (printResult r))
  /\ (forall b v, In v (bucket b r) ->
        exists chunk, In chunk (printResult r)
                      /\ Strings.Contains chunk v = true).
Proof.
  unfold printResult.
  repeat split;
    try (intros H; rewrite H; rewrite !in_app_iff; simpl; tauto).
  intros b v Hin.
  assert (S : forall msg color,
             exists chunk, In chunk (printSlice (bucket b r) msg color)
                           /\ Strings.Contains chunk v = true)
    by (intros; apply printSlice_entry; exact Hin).
  destruct b; cbn [bucket] in S;
    match goal with
    | |- context [printSlice ?xs ?msg ?color] =>
      match type of S with
      | context [xs] =>
        destruct (S msg color) as [chunk [H1 H2]]; exists chunk;
        split; [rewrite !in_app_iff; tauto | exact H2]
      end
    end.
Qed.

Lemma printFlag_length (b : bool) (msg : string) :
  List.length (printFlag b msg) = 0 -> b = false.
Proof. destruct b; [discriminate | reflexivity]. Qed.

Lemma printNoted_length (b : bool) (msg note color : string) :
  List.length (printNoted b msg note color) = 0 -> b = false.
Proof. destruct b; [discriminate | reflexivity]. Qed.

Lemma printSlice_length (xs : list string) (msg color : string) :
  List.length (printSlice xs msg color) = 0 -> xs = [].
Proof. destruct xs; [reflexivity | discriminate]. Qed.

(** X9.  The output is the four colour changes alone exactly when the
    report holds no finding: no flag set and every bucket empty. *)
Theorem printResult_nothing (r : ScanResult) :
  printResult r = [colorRed; colorReset; colorYellow; colorReset]
  <-> (forall f, flag f r = false) /\ (forall b, bucket b r = []).
Proof.
  split.
  - intros H. apply (f_equal (@List.length string)) in H.
    unfold printResult in H. rewrite !length_app in H. cbn [List.length] in H.
    repeat match type of H with
    | context [List.length (printFlag ?b ?m)] =>
      let n := fresh "n" in
      pose proof (printFlag_length b m);
      set (n := List.length (printFlag b m)) in *; clearbody n
    | context [List.length (printNoted ?b ?m ?t ?c)] =>
      let n := fresh "n" in
      pose proof (printNoted_length b m t c);
      set (n := List.length (printNoted b m t c)) in *; clearbody n
    | context [List.length (printSlice ?xs ?m ?c)] =>
      let n := fresh "n" in
      pose proof (printSlice_length xs m c);
      set (n := List.length (printSlice xs m c)) in *; clearbody n
    end.
    split.
    + intros f. destruct f; cbn [flag];
        match goal with
        | E : _ = 0 -> ?b = false |- ?b = false => apply E; lia
        end.
    + intros b. destruct b; cbn [bucket];
        match goal with
        | E : _ = 0 -> ?xs = [] |- ?xs = [] => apply E; lia
        end.
  - intros [Hf Hb]. unfold printResult.
    pose proof (Hf GoogleAnalyticsScriptSrc) as F1.
    pose proof (Hf GoogleAnalyticsScript) as F2.
    pose proof (Hf GoogleAnalyticsIFrame) as F3.
    pose proof (Hf GoogleFontsLink) as F4.
    pose proof (Hf GoogleFontsScript) as F5.
    pose proof (Hf DnsPrefetch) as F6.
    pose proof (Hb GoogleFontsCss) as B1.
    pose proof (Hb GoogleFontsStyle) as B2.
    pose proof (Hb OtherLinks) as B3.
    pose proof (Hb OtherScripts) as B4.
    pose proof (Hb OtherIFrames) as B5.
    pose proof (Hb OtherCss) as B6.
    pose proof (Hb OtherPreconnect) as B7.
    pose proof (Hb OtherStyle) as B8.
    cbn [flag bucket] in *.
    rewrite F1, F2, F3, F4, F5, F6, B1, B2, B3, B4, B5, B6, B7, B8.
    reflexivity.
Qed.

(** ** What [printResult] writes for a finding *)




Lemma crawl_extends verbose baseUrl domain evs r :
  Extends r (result (crawl verbose baseUrl domain evs) r).
Proof.
  assert (H : Preserves (crawl verbose baseUrl domain evs)).
  { unfold crawl. apply Preserves_forEach. intros ev.
    apply Preserves_dispatch. }
  apply (H r).
Qed.

(** ** Runes, in full *)

Lemma rune_high (a k rest : N) :
  (7 <= k /\ a <> 0)%N \/ (k = 6 /\ 2 <= a)%N ->
  (128 <= N.lor (N.shiftl a k) rest)%N.
Proof.
  intros H.
  destruct (N.lt_ge_cases (N.lor (N.shiftl a k) rest) 128) as [Hlt | Hge];
    [exfalso | exact Hge].
  assert (E : N.shiftr (N.lor (N.shiftl a k) rest) 7 = 0%N).
  { rewrite N.shiftr_div_pow2. apply N.div_small. exact Hlt. }
  rewrite N.shiftr_lor in E. apply N.lor_eq_0_l in E.
  destruct H as [[Hk Ha] | [-> Ha]].
  - rewrite N.shiftr_shiftl_l in E by exact Hk.
    apply N.shiftl_eq_0_iff in E. contradiction.
  - rewrite N.shiftr_shiftl_r in E by lia.
    rewrite N.shiftr_div_pow2 in E.
    apply N.div_small_iff in E; [| discriminate].
    change (2 ^ (7 - 6))%N with 2%N in E. lia.
Qed.

Lemma land_ones_from (b m n q d : N) :
  m = N.ones n ->
  (q * 2 ^ n + d <= b)%N -> (b < (q + 1) * 2 ^ n)%N ->
  (d <= N.land b m)%N.
Proof.
  intros -> H1 H2. rewrite N.land_ones.
  replace b with (b - q * 2 ^ n + q * 2 ^ n)%N at 1 by lia.
  rewrite N.Div0.mod_add. rewrite N.mod_small; lia.
Qed.

Lemma byteAt_0 (t : string) (x : N) :
  Utf8.byteAt 0 t = Some x ->
  exists c t', t = String c t' /\ x = N_of_ascii c.
Proof.
  destruct t as [|c t']; [discriminate |].
  intros H. inversion H. exists c, t'. auto.
Qed.

(** The rune at the head of a string: an ASCII byte stands for itself; any
    other rune is not ASCII and all its bytes are not ASCII. *)
Lemma DecodeRuneInString_cases (c : ascii) (t : string) (r : N) (w : nat) :
  Utf8.DecodeRuneInString (String c t) = (r, w) ->
  ((N_of_ascii c < 128)%N /\ r = N_of_ascii c /\ w = 1)
  \/ ((128 <= N_of_ascii c)%N /\ (128 <= r)%N /\ 1 <= w
      /\ highBytes (w - 1) t = true).
Proof.
  unfold Utf8.DecodeRuneInString.
  destruct (N.ltb_spec (N_of_ascii c) 128) as [Hlow | Hhigh].
  { intros E; inversion E; subst. left. auto. }
  assert (Err : (Utf8.RuneError, 1) = (r, w) ->
                ((N_of_ascii c < 128)%N /\ r = N_of_ascii c /\ w = 1)
                \/ ((128 <= N_of_ascii c)%N /\ (128 <= r)%N /\ 1 <= w
                    /\ highBytes (w - 1) t = true)).
  { intros E; inversion E; subst. right.
    repeat split; [exact Hhigh | discriminate | lia]. }
  destruct (Utf8.first (N_of_ascii c)) as [[[sz lo] hi]|] eqn:F;
    [| exact Err].
  apply first_spec in F. destruct F as [F [Hlo Hhi]].
  destruct (Utf8.byteAt 1 (String c t)) as [s1|] eqn:B1; [| exact Err].
  change (Utf8.byteAt 1 (String c t)) with (Utf8.byteAt 0 t) in B1.
  apply byteAt_0 in B1. destruct B1 as [c1 [t1 [-> ->]]].
  destruct (N.ltb_spec (N_of_ascii c1) lo); cbn [orb]; [exact Err |].
  destruct (N.ltb_spec hi (N_of_ascii c1)); [exact Err |].
  assert (Hb1 : (128 <=? N_of_ascii c1)%N = true) by (apply N.leb_le; lia).
  destruct (Nat.leb_spec sz 2).
  { intros E; inversion E; subst. right.
    repeat split; [exact Hhigh | | lia | cbn; rewrite Hb1; reflexivity].
    apply rune_high. right. split; [reflexivity |].
    apply (land_ones_from _ 31 5 6 2); [reflexivity | lia | lia]. }
  destruct (Utf8.byteAt 2 (String c (String c1 t1))) as [s2|] eqn:B2;
    [| exact Err].
  change (Utf8.byteAt 2 (String c (String c1 t1)))
    with (Utf8.byteAt 0 t1) in B2.
  apply byteAt_0 in B2. destruct B2 as [c2 [t2 [-> ->]]].
  destruct (Utf8.cont (N_of_ascii c2)) eqn:C2; cbn [negb]; [| exact Err].
  assert (Hb2 : (128 <=? N_of_ascii c2)%N = true).
  { unfold Utf8.cont in C2. apply andb_prop in C2. apply C2. }
  destruct (Nat.leb_spec sz 3).
  { intros E; inversion E; subst. right.
    repeat split; [exact Hhigh | | lia | cbn; rewrite Hb1, Hb2; reflexivity].
    destruct F as [[? _] | [[_ [[Eb El] | Hb]] | [? _]]]; try lia.
    - rewrite Eb. change (N.shiftl (N.land 224 15) 12) with 0%N.
      rewrite N.lor_0_l. apply rune_high. right. split; [reflexivity |].
      unfold Utf8.low6.
      apply (land_ones_from _ 63 6 2 2); [reflexivity | lia | lia].
    - apply rune_high. left. split; [lia |].
      apply (land_ones_nonzero _ 15 224 240 4); [reflexivity | lia |].
      exists 14%N. split; reflexivity. }
  destruct (Utf8.byteAt 3 (String c (String c1 (String c2 t2)))) as [s3|]
    eqn:B3; [| exact Err].
  change (Utf8.byteAt 3 (String c (String c1 (String c2 t2))))
    with (Utf8.byteAt 0 t2) in B3.
  apply byteAt_0 in B3. destruct B3 as [c3 [t3 [-> ->]]].
  destruct (Utf8.cont (N_of_ascii c3)) eqn:C3; cbn [negb]; [| exact Err].
  assert (Hb3 : (128 <=? N_of_ascii c3)%N = true).
  { unfold Utf8.cont in C3. apply andb_prop in C3. apply C3. }
  intros E; inversion E; subst. right.
  repeat split; [exact Hhigh | | lia | cbn; rewrite Hb1, Hb2, Hb3; reflexivity].
  destruct F as [[? _] | [[? _] | [_ [[Eb El] | Hb]]]]; try lia.
  - rewrite Eb. change (N.shiftl (N.land 240 7) 18) with 0%N.
    rewrite N.lor_0_l. apply rune_high. left. split; [lia |].
    unfold Utf8.low6.
    apply (land_ones_nonzero _ 63 128 192 6); [reflexivity | lia |].
    exists 2%N. split; reflexivity.
  - apply rune_high. left. split; [lia |].
    apply (land_ones_nonzero _ 7 240 248 3); [reflexivity | lia |].
    exists 30%N. split; reflexivity.
Qed.

(** ** What a successful search has matched *)

Lemma exec_sound (r : Regexp.regex) :
  forall pos s c k res,
    Regexp.exec r pos s c k = Some res ->
    exists pos' s' c',
      Matches r (pos, s) (pos', s')
      /\ k pos' s' c' = Some res
      /\ (forall j, hasGroup j r = false -> c' j = c j).
Proof.
  induction r as [ | p | a IHa b IHb | a IHa | a IHa | i a IHa | | ];
    intros pos s c k res; cbn [Regexp.exec hasGroup].
  - intros H. exists pos, s, c. repeat split; [apply M_Empty | exact H].
  - destruct s as [|ch t]; [discriminate |].
    destruct (Utf8.DecodeRuneInString (String ch t)) as [rune w] eqn:D.
    destruct (p rune) eqn:P; [| discriminate].
    intros H. exists (pos + w), (Strings.drop w (String ch t)), c.
    repeat split; [| exact H].
    apply M_Class with (rune := rune); [discriminate | exact D | exact P].
  - intros H. apply IHa in H. destruct H as [p1 [s1 [c1 [M1 [H C1]]]]].
    apply IHb in H. destruct H as [p2 [s2 [c2 [M2 [H C2]]]]].
    exists p2, s2, c2. split; [eapply M_Cat; eassumption |].
    split; [exact H |].
    intros j Hj. apply orb_false_elim in Hj. destruct Hj as [Ha Hb].
    rewrite C2, C1 by assumption. reflexivity.
  - generalize (S (String.length s)). intros fuel.
    revert pos s c. induction fuel as [|f IHf]; intros pos s c; simpl.
    + intros H. exists pos, s, c. repeat split; [apply M_Star_stop | exact H].
    + destruct (Regexp.exec a pos s c _) as [res'|] eqn:X.
      * intros E. inversion E; subst res'. clear E.
        apply IHa in X. destruct X as [p1 [s1 [c1 [M1 [X C1]]]]].
        destruct (Nat.ltb_spec (String.length s1) (String.length s));
          [| discriminate].
        apply IHf in X. destruct X as [p2 [s2 [c2 [M2 [X C2]]]]].
        exists p2, s2, c2. split; [eapply M_Star_more; eassumption |].
        split; [exact X |].
        intros j Hj. rewrite C2, C1 by assumption. reflexivity.
      * intros H. exists pos, s, c.
        repeat split; [apply M_Star_stop | exact H].
  - destruct (Regexp.exec a pos s c k) as [res'|] eqn:X.
    + intros E. inversion E; subst res'. apply IHa in X.
      destruct X as [p1 [s1 [c1 [M1 [X C1]]]]].
      exists p1, s1, c1. split; [apply M_Quest_take; exact M1 | auto].
    + intros H. exists pos, s, c.
      repeat split; [apply M_Quest_skip | exact H].
  - intros H. apply IHa in H. destruct H as [p1 [s1 [c1 [M1 [H C1]]]]].
    exists p1, s1, (Regexp.setCap i (pos, p1) c1).
    split; [apply M_Group; exact M1 |]. split; [exact H |].
    intros j Hj. apply orb_false_elim in Hj. destruct Hj as [Hji Ha].
    unfold Regexp.setCap. rewrite Hji. apply C1, Ha.
  - destruct (Nat.eqb_spec pos 0) as [-> |]; [| discriminate].
    intros H. exists 0, s, c. repeat split; [apply M_Bol | exact H].
  - destruct s; [| discriminate].
    intros H. exists pos, EmptyString, c.
    repeat split; [apply M_Eol | exact H].
Qed.

(** [MatchString] on a pattern that begins with [^] is the declarative
    reading of the pattern at offset 0. *)
Lemma MatchString_anchored_iff (r : Regexp.regex) (s : string) :
  Regexp.MatchString (Regexp.Cat Regexp.Bol r) s = true
  <-> exists st', Matches r (0, s) st'.
Proof.
  split.
  - rewrite MatchString_anchored. unfold Regexp.matchAt.
    destruct (Regexp.exec _ 0 s _ _) as [res|] eqn:X; [| discriminate].
    intros _. cbn [Regexp.exec] in X. simpl in X.
    apply exec_sound in X. destruct X as [p1 [s1 [c1 [M1 _]]]].
    exists (p1, s1). exact M1.
  - intros [st' M]. apply MatchString_complete with (st' := st').
    eapply M_Cat; [apply M_Bol | exact M].
Qed.

(** ** The guard of the scanning callbacks *)

(** A class of ASCII runes takes one byte. *)
Lemma Matches_Class_ascii (p : N -> bool) (pos : nat) (s : string)
      (st' : nat * string) :
  (forall r, p r = true -> (r < 128)%N) ->
  Matches (Regexp.Class p) (pos, s) st' ->
  exists c t, s = String c t /\ p (N_of_ascii c) = true /\ st' = (pos + 1, t).
Proof.
  intros Hp M.
  inversion M as [ | p0 pos0 s0 rune w Hs Hd Hr | | | | | | | | ]; subst.
  destruct s as [|c t]; [congruence |].
  destruct (DecodeRuneInString_cases c t rune w Hd)
    as [[_ [-> ->]] | [_ [Hhigh _]]].
  - exists c, t. auto.
  - apply Hp in Hr. lia.
Qed.

Lemma N_of_ascii_inj (a b : ascii) : N_of_ascii a = N_of_ascii b -> a = b.
Proof.
  intros H. rewrite <- (ascii_N_embedding a), <- (ascii_N_embedding b), H.
  reflexivity.
Qed.

(** A literal matches the strings that start with it, and takes it. *)
Lemma Matches_Lit (l : string) :
  allBytes (fun c => N.ltb (N_of_ascii c) 128) l = true ->
  forall pos s st',
    Matches (Regexp.Lit l) (pos, s) st' ->
    Strings.HasPrefix s l = true
    /\ st' = (pos + String.length l, Strings.drop (String.length l) s).
Proof.
  induction l as [|c l IH]; intros Hl pos s st' M.
  - inversion M; subst. simpl. rewrite Nat.add_0_r.
    destruct s; auto.
  - cbn [allBytes] in Hl. apply andb_prop in Hl. destruct Hl as [Hc Hl].
    apply N.ltb_lt in Hc.
    cbn [Regexp.Lit] in M.
    inversion M as [ | | a b st1 st2 st3 M1 M2 | | | | | | | ]; subst.
    apply Matches_Class_ascii in M1.
    + destruct M1 as [c' [t [-> [Heq ->]]]].
      apply N.eqb_eq in Heq. apply N_of_ascii_inj in Heq. subst c'.
      destruct (IH Hl _ _ _ M2) as [Hp ->].
      cbn [Strings.HasPrefix String.length Strings.drop].
      rewrite Ascii.eqb_refl, Hp. split; [reflexivity |].
      f_equal. lia.
    + intros r Hr. apply N.eqb_eq in Hr. subst r. exact Hc.
Qed.

Lemma Lit_Matches (l : string) :
  allBytes (fun c => N.ltb (N_of_ascii c) 128) l = true ->
  forall pos s,
    Strings.HasPrefix s l = true ->
    Matches (Regexp.Lit l) (pos, s)
            (pos + String.length l, Strings.drop (String.length l) s).
Proof.
  induction l as [|c l IH]; intros Hl pos s Hs.
  - simpl. rewrite Nat.add_0_r.
    replace (Strings.drop 0 s) with s by (destruct s; reflexivity).
    apply M_Empty.
  - cbn [allBytes] in Hl. apply andb_prop in Hl. destruct Hl as [Hc Hl].
    apply N.ltb_lt in Hc.
    destruct s as [|c' t]; [discriminate Hs |].
    cbn [Strings.HasPrefix] in Hs. apply andb_prop in Hs.
    destruct Hs as [Hcc Ht]. apply Ascii.eqb_eq in Hcc. subst c'.
    cbn [Regexp.Lit String.length Strings.drop].
    apply M_Cat with (st2 := (pos + 1, t)).
    + apply Matches_ascii; [exact Hc | apply N.eqb_refl].
    + replace (pos + S (String.length l)) with (pos + 1 + String.length l)
        by lia.
      apply IH; assumption.
Qed.

(** After the literal, every part of [cssRegexp] may match nothing. *)
Lemma cssRegexp_Matches (pos : nat) (s : string) :
  Strings.HasPrefix s "@import" = true ->
  Matches Patterns.cssRegexp (pos, s) (pos + 7, Strings.drop 7 s).
Proof.
  intros H. unfold Patterns.cssRegexp.
  eapply M_Cat; [apply (Lit_Matches "@import" eq_refl pos s H) |].
  repeat (eapply M_Cat; [apply M_Quest_skip |]).
  eapply M_Cat; [apply M_Group, M_Star_stop |].
  eapply M_Cat; apply M_Quest_skip.
Qed.

Lemma matchAt_cssRegexp (pos : nat) (s : string) :
  (exists c, Regexp.matchAt Patterns.cssRegexp pos s = Some c)
  <-> Strings.HasPrefix s "@import" = true.
Proof.
  split.
  - intros [c H]. unfold Regexp.matchAt in H. apply exec_sound in H.
    destruct H as [p1 [s1 [c1 [M _]]]]. unfold Patterns.cssRegexp in M.
    inversion M as [ | | a b st1 st2 st3 M1 M2 | | | | | | | ]; subst.
    apply (Matches_Lit "@import" eq_refl) in M1. apply M1.
  - intros H.
    pose proof (exec_complete Patterns.cssRegexp (pos, s) _
                  (cssRegexp_Matches pos s H) Regexp.noCaps
                  (fun pos' _ c => Some (Regexp.setCap 0 (pos, pos') c))) as X.
    unfold Regexp.matchAt. cbn [fst snd] in X.
    destruct (Regexp.exec _ _ _ _ _) as [c|]; [exists c; reflexivity |].
    exfalso. apply X; [intros c'; discriminate | reflexivity].
Qed.

(** A byte that is not ASCII does not start the literal. *)
Lemma highBytes_no_import (n : nat) (s : string) :
  highBytes (S n) s = true -> Strings.HasPrefix s "@import" = false.
Proof.
  destruct s as [|c t]; [reflexivity |]. cbn [highBytes].
  intros H. apply andb_prop in H. destruct H as [H _].
  apply N.leb_le in H. cbn [Strings.HasPrefix].
  destruct (Ascii.eqb_spec "@" c) as [<- |]; [| reflexivity].
  vm_compute in H. congruence.
Qed.

Lemma highBytes_tail (n : nat) (c : ascii) (t : string) :
  highBytes (S n) (String c t) = true -> highBytes n t = true.
Proof. cbn [highBytes]. intros H. apply andb_prop in H. apply H. Qed.

(** The search goes from rune to rune, and no occurrence of the literal
    starts inside a rune. *)
Lemma search_cssRegexp (s : string) :
  forall skip pos,
    highBytes skip s = true ->
    (exists c, Regexp.search Patterns.cssRegexp skip pos s = Some c)
    <-> Strings.Contains s "@import" = true.
Proof.
  induction s as [|ch t IH]; intros skip pos Hskip.
  - cbn [Regexp.search Strings.Contains]. rewrite matchAt_cssRegexp.
    rewrite orb_false_r. reflexivity.
  - cbn [Regexp.search Strings.Contains]. destruct skip as [|n].
    + destruct (Regexp.matchAt Patterns.cssRegexp pos (String ch t))
        as [c|] eqn:X.
      * assert (P : Strings.HasPrefix (String ch t) "@import" = true)
          by (apply (matchAt_cssRegexp pos); exists c; exact X).
        rewrite P. split; [reflexivity | intros _; exists c; reflexivity].
      * assert (P : Strings.HasPrefix (String ch t) "@import" = false).
        { destruct (Strings.HasPrefix (String ch t) "@import") eqn:P;
            [| reflexivity].
          apply (matchAt_cssRegexp pos) in P. destruct P as [c P].
          congruence. }
        rewrite P. cbn [orb]. apply IH.
        destruct (Utf8.DecodeRuneInString (String ch t)) as [r w] eqn:D.
        destruct (DecodeRuneInString_cases ch t r w D)
          as [[_ [_ ->]] | [_ [_ [_ H]]]]; [reflexivity | exact H].
    + rewrite (highBytes_no_import n _ Hskip). cbn [orb].
      apply IH. eapply highBytes_tail. exact Hskip.
Qed.

Lemma MatchString_cssRegexp (text : string) :
  Regexp.MatchString Patterns.cssRegexp text
  = Strings.Contains text "@import".
Proof.
  pose proof (search_cssRegexp text 0 0 eq_refl) as S.
  unfold Regexp.MatchString.
  destruct (Regexp.search Patterns.cssRegexp 0 0 text) as [c|] eqn:X.
  - symmetry. apply S. exists c. reflexivity.
  - destruct (Strings.Contains text "@import"); [| reflexivity].
    destruct (proj2 S eq_refl) as [c H]. discriminate H.
Qed.

(** X11.  The pattern of the scanning callbacks matches a text exactly when
    the text contains the literal [@import]: everything after the literal
    is optional.  The callbacks extract at least one target from such a
    text, and none from any other. *)
Theorem cssRegexp_guard (text : string) :
  Regexp.MatchString Patterns.cssRegexp text
  = Strings.Contains text "@import"
  /\ (extractImports text = [] <-> Strings.Contains text "@import" = false).
Proof.
  pose proof (MatchString_cssRegexp text) as E.
  split; [exact E |].
  rewrite <- E. unfold Regexp.MatchString, extractImports,
    Regexp.FindAllStringSubmatch.
  rewrite Nat.add_comm. cbn [Nat.add Regexp.allMatches].
  replace (Strings.drop 0 text) with text by (destruct text; reflexivity).
  cbn [Nat.ltb Nat.leb].
  destruct (Regexp.search Patterns.cssRegexp 0 0 text) as [c|] eqn:X.
  - apply search_span in X. destruct X as [b [e [X _]]]. rewrite X.
    split; [| discriminate].
    destruct (Nat.eqb e 0); cbn [map]; discriminate.
  - split; reflexivity.
Qed.

(** ** The local links, byte by byte *)

(** Induction along the turns of a repetition. *)
Lemma Matches_Star_ind (a : Regexp.regex)
      (Q : nat * string -> nat * string -> Prop) :
  (forall st, Q st st) ->
  (forall pos s pos1 s1 st2,
      Matches a (pos, s) (pos1, s1) ->
      String.length s1 < String.length s ->
      Matches (Regexp.Star a) (pos1, s1) st2 ->
      Q (pos1, s1) st2 -> Q (pos, s) st2) ->
  forall st st', Matches (Regexp.Star a) st st' -> Q st st'.
Proof.
  intros Hstop Hmore st st' M.
  remember (Regexp.Star a) as r eqn:E.
  induction M as [ | | | a0 st | a0 pos s pos1 s1 st2 Hhead _ Hlen Htail IH
                   | | | | | ]; try discriminate.
  - apply Hstop.
  - injection E as ->. eapply Hmore; eauto.
Qed.

Ltac ascii_class :=
  let r := fresh "r" in
  let H := fresh "H" in
  intros r H;
  destruct (N.ltb_spec r 128) as [?|Hge]; [assumption | exfalso];
  revert H;
  unfold Patterns.pathChar, Patterns.hashOrQuery, Patterns.between,
    Patterns.char;
  repeat match goal with
  | |- context [N_of_ascii ?c] =>
    let v := eval vm_compute in (N_of_ascii c) in
    change (N_of_ascii c) with v
  end;
  repeat match goal with
  | |- context [N.leb r ?k] =>
    replace (N.leb r k) with false by (symmetry; apply N.leb_gt; lia)
  | |- context [N.eqb r ?k] =>
    replace (N.eqb r k) with false by (symmetry; apply N.eqb_neq; lia)
  end;
  rewrite ?andb_false_r; discriminate.

Lemma pathChar_ascii : forall r, Patterns.pathChar r = true -> (r < 128)%N.
Proof. ascii_class. Qed.

Lemma hashOrQuery_ascii :
  forall r, Patterns.hashOrQuery r = true -> (r < 128)%N.
Proof. ascii_class. Qed.

Lemma slash_ascii :
  forall r, Patterns.char "/" r = true -> (r < 128)%N.
Proof. ascii_class. Qed.

Lemma pathChar_segmentChar (c : ascii) :
  Patterns.pathChar (N_of_ascii c) = true ->
  LocalPathGrammar.segmentChar c = true.
Proof.
  destruct c as [b0 b1 b2 b3 b4 b5 b6 b7].
  destruct b0, b1, b2, b3, b4, b5, b6, b7; vm_compute;
    (discriminate || reflexivity).
Qed.

Lemma hashOrQuery_byte (c : ascii) :
  Patterns.hashOrQuery (N_of_ascii c) = true -> c = "#"%char \/ c = "?"%char.
Proof.
  destruct c as [b0 b1 b2 b3 b4 b5 b6 b7].
  destruct b0, b1, b2, b3, b4, b5, b6, b7; vm_compute;
    (discriminate || auto).
Qed.

Lemma slash_byte (c : ascii) :
  Patterns.char "/" (N_of_ascii c) = true -> c = "/"%char.
Proof.
  destruct c as [b0 b1 b2 b3 b4 b5 b6 b7].
  destruct b0, b1, b2, b3, b4, b5, b6, b7; vm_compute;
    (discriminate || auto).
Qed.

Lemma localLink_segmentChar (a : bool) (c : ascii) (t : string) :
  LocalPathGrammar.segmentChar c = true ->
  localLink a (String c t) = localLink false t.
Proof. intros H. cbn [localLink]. rewrite H. reflexivity. Qed.

(** The run of characters at the end of a segment. *)
Lemma Star_pathChar_localLink (st st' : nat * string) :
  Matches (Regexp.Star (Regexp.Class Patterns.pathChar)) st st' ->
  localLink false (snd st') = true -> localLink false (snd st) = true.
Proof.
  intros M. revert st st' M.
  apply (Matches_Star_ind _
           (fun st st' => localLink false (snd st') = true ->
                          localLink false (snd st) = true)); [auto |].
  intros pos s pos1 s1 st2 M1 _ _ IH H. cbn [snd] in *.
  apply (Matches_Class_ascii _ _ _ _ pathChar_ascii) in M1.
  destruct M1 as [c [t [-> [Hc E]]]]. inversion E; subst.
  rewrite localLink_segmentChar by (apply pathChar_segmentChar; exact Hc).
  apply IH, H.
Qed.

(** One turn of group 1. *)
Lemma Group1_localLink (st st' : nat * string) :
  Matches (Regexp.Group 1
             (Regexp.Cat (Regexp.Quest (Regexp.Class (Patterns.char "/")))
                         (Regexp.Plus (Regexp.Class Patterns.pathChar))))
          st st' ->
  localLink false (snd st') = true -> localLink false (snd st) = true.
Proof.
  intros M H.
  inversion M as [ | | | | | | | i a st0 st0' M0 | | ]; subst. clear M.
  inversion M0 as [ | | a b st1 st2 st3 Mq Mp | | | | | | | ]; subst.
  clear M0. unfold Regexp.Plus in Mp.
  inversion Mp as [ | | a b st1 st3 st4 Mc Ms | | | | | | | ]; subst.
  clear Mp.
  pose proof (Star_pathChar_localLink _ _ Ms H) as H3.
  destruct st2 as [p2 s2].
  apply (Matches_Class_ascii _ _ _ _ pathChar_ascii) in Mc.
  destruct Mc as [c [t [-> [Hc ->]]]]. cbn [snd] in H3.
  apply pathChar_segmentChar in Hc.
  inversion Mq as [ | | | | | a st1 | a st1 st1' Mslash | | | ]; subst.
  - cbn [snd]. rewrite localLink_segmentChar by exact Hc. exact H3.
  - destruct st as [p0 s0].
    apply (Matches_Class_ascii _ _ _ _ slash_ascii) in Mslash.
    destruct Mslash as [c0 [t0 [-> [Hs E]]]]. inversion E; subst.
    apply slash_byte in Hs. subst c0. cbn [snd].
    change (localLink false (String "/" (String c t)))
      with (localLink true (String c t)).
    rewrite localLink_segmentChar by exact Hc. exact H3.
Qed.

Lemma Star_Group1_localLink (st st' : nat * string) :
  Matches (Regexp.Star
             (Regexp.Group 1
                (Regexp.Cat (Regexp.Quest (Regexp.Class (Patterns.char "/")))
                            (Regexp.Plus (Regexp.Class Patterns.pathChar)))))
          st st' ->
  localLink false (snd st') = true -> localLink false (snd st) = true.
Proof.
  intros M. revert st st' M.
  apply (Matches_Star_ind _
           (fun st st' => localLink false (snd st') = true ->
                          localLink false (snd st) = true)); [auto |].
  intros pos s pos1 s1 st2 M1 _ _ IH H.
  apply (Group1_localLink _ _ M1). apply IH, H.
Qed.

Lemma highBytes_noLineFeed (n : nat) :
  forall t, highBytes n t = true ->
            LocalPathGrammar.noLineFeed (Strings.drop n t) = true ->
            LocalPathGrammar.noLineFeed t = true.
Proof.
  induction n as [|n IH]; intros t Hh Hl.
  - destruct t; exact Hl.
  - destruct t as [|c t']; [discriminate Hh |].
    cbn [highBytes] in Hh. apply andb_prop in Hh. destruct Hh as [Hc Hh].
    cbn [Strings.drop] in Hl. cbn [LocalPathGrammar.noLineFeed].
    rewrite (IH t' Hh Hl), andb_true_r.
    apply N.leb_le in Hc. unfold nat_of_ascii.
    destruct (Nat.eqb_spec (N.to_nat (N_of_ascii c)) 10); [lia | reflexivity].
Qed.

(** The run of [.] never passes a line feed. *)
Lemma Star_dot_noLineFeed (st st' : nat * string) :
  Matches (Regexp.Star (Regexp.Class Patterns.anyButNewline)) st st' ->
  LocalPathGrammar.noLineFeed (snd st') = true ->
  LocalPathGrammar.noLineFeed (snd st) = true.
Proof.
  intros M. revert st st' M.
  apply (Matches_Star_ind _
           (fun st st' => LocalPathGrammar.noLineFeed (snd st') = true ->
                          LocalPathGrammar.noLineFeed (snd st) = true));
    [auto |].
  intros pos s pos1 s1 st2 M1 _ _ IH H. cbn [snd] in *.
  specialize (IH H).
  inversion M1 as [ | p0 pos0 s0 rune w Hs Hd Hr | | | | | | | | ]; subst.
  destruct s as [|c t]; [congruence |].
  unfold Patterns.anyButNewline in Hr. apply negb_true_iff in Hr.
  apply N.eqb_neq in Hr.
  destruct (DecodeRuneInString_cases c t rune w Hd)
    as [[_ [-> ->]] | [Hc [_ [Hw Hh]]]].
  - cbn [Strings.drop] in IH. cbn [LocalPathGrammar.noLineFeed].
    rewrite IH, andb_true_r. unfold nat_of_ascii.
    destruct (Nat.eqb_spec (N.to_nat (N_of_ascii c)) 10); [lia | reflexivity].
  - destruct w as [|w']; [lia |]. cbn [Strings.drop] in IH.
    replace (S w' - 1) with w' in Hh by lia.
    cbn [LocalPathGrammar.noLineFeed].
    rewrite (highBytes_noLineFeed w' t Hh IH), andb_true_r.
    unfold nat_of_ascii.
    destruct (Nat.eqb_spec (N.to_nat (N_of_ascii c)) 10); [lia | reflexivity].
Qed.

(** The optional suffix and the end of the text. *)
Lemma suffix_localLink (st st' : nat * string) :
  Matches (Regexp.Cat
             (Regexp.Quest
                (Regexp.Group 2
                   (Regexp.Cat (Regexp.Class Patterns.hashOrQuery)
                      (Regexp.Star (Regexp.Class Patterns.anyButNewline)))))
             Regexp.Eol) st st' ->
  localLink false (snd st) = true.
Proof.
  intros M.
  inversion M as [ | | a b st1 st2 st3 Mq Me | | | | | | | ]; subst. clear M.
  inversion Me; subst. clear Me.
  inversion Mq as [ | | | | | a st1 | a st1 st1' Mg | | | ]; subst.
  - reflexivity.
  - inversion Mg as [ | | | | | | | i a st0 st0' M0 | | ]; subst.
    inversion M0 as [ | | a b st1 st2 st3 Mc Ms | | | | | | | ]; subst.
    destruct st as [p0 s0].
    apply (Matches_Class_ascii _ _ _ _ hashOrQuery_ascii) in Mc.
    destruct Mc as [c [t [-> [Hc ->]]]].
    apply Star_dot_noLineFeed in Ms; [| reflexivity]. cbn [snd] in *.
    apply hashOrQuery_byte in Hc.
    destruct Hc as [-> | ->]; cbn; exact Ms.
Qed.

(** From the bytes to a match. *)
Lemma localLink_Matches (n : nat) :
  forall s pos,
    String.length s <= n ->
    localLink false s = true ->
    exists st',
      Matches
        (Regexp.Cat
           (Regexp.Star
              (Regexp.Group 1
                 (Regexp.Cat
                    (Regexp.Quest (Regexp.Class (Patterns.char "/")))
                    (Regexp.Plus (Regexp.Class Patterns.pathChar)))))
           (Regexp.Cat
              (Regexp.Quest
                 (Regexp.Group 2
                    (Regexp.Cat (Regexp.Class Patterns.hashOrQuery)
                       (Regexp.Star (Regexp.Class Patterns.anyButNewline)))))
              Regexp.Eol))
        (pos, s) st'.
Proof.
  induction n as [n IH] using lt_wf_ind. intros s pos Hn H.
  destruct s as [|c t].
  { exists (pos, EmptyString).
    eapply M_Cat; [apply M_Star_stop |].
    eapply M_Cat; [apply M_Quest_skip | apply M_Eol]. }
  cbn [localLink] in H. cbn [String.length] in Hn.
  destruct (LocalPathGrammar.segmentChar c) eqn:Hc.
  - destruct (IH (String.length t) ltac:(lia) t (pos + 1) (le_n _) H)
      as [st' M].
    inversion M as [ | | a b st1 st2 st3 Ms Mt | | | | | | | ]; subst.
    exists st'. eapply M_Cat; [| exact Mt].
    destruct (segmentChar_pathChar c Hc) as [Hlt Hp].
    eapply M_Star_more; [| | exact Ms].
    + apply M_Group. eapply M_Cat; [apply M_Quest_skip |].
      unfold Regexp.Plus. eapply M_Cat;
        [apply Matches_ascii; eassumption | apply M_Star_stop].
    + cbn [String.length]. lia.
  - destruct (Ascii.eqb_spec c "/") as [-> | Hslash].
    + cbn [negb andb] in H. destruct t as [|c2 t2]; [discriminate H |].
      cbn [localLink] in H.
      destruct (LocalPathGrammar.segmentChar c2) eqn:Hc2.
      * cbn [String.length] in Hn.
        destruct (IH (String.length t2) ltac:(lia) t2 (pos + 1 + 1)
                     (le_n _) H) as [st' M].
        inversion M as [ | | a b st1 st2 st3 Ms Mt | | | | | | | ]; subst.
        exists st'. eapply M_Cat; [| exact Mt].
        destruct (segmentChar_pathChar c2 Hc2) as [Hlt Hp].
        eapply M_Star_more; [| | exact Ms].
        -- apply M_Group. eapply M_Cat.
           ++ apply M_Quest_take. apply Matches_ascii; reflexivity.
           ++ unfold Regexp.Plus. eapply M_Cat;
                [apply Matches_ascii; eassumption | apply M_Star_stop].
        -- cbn [String.length]. lia.
      * destruct (Ascii.eqb c2 "/"); [discriminate H |].
        destruct (_ || _); discriminate H.
    + destruct (Ascii.eqb c "#" || Ascii.eqb c "?") eqn:Hq;
        [| discriminate H].
      cbn [negb andb] in H.
      exists (pos + 1 + String.length t, EmptyString).
      eapply M_Cat; [apply M_Star_stop |].
      eapply M_Cat; [| apply M_Eol].
      apply M_Quest_take, M_Group.
      eapply M_Cat; [| apply (dot_star_all (String.length t)); [lia | exact H]].
      apply orb_true_iff in Hq.
      destruct Hq as [Hq | Hq]; apply Ascii.eqb_eq in Hq; subst c;
        apply Matches_ascii; reflexivity.
Qed.

Lemma localLink_of_match (s : string) :
  Regexp.MatchString Patterns.localLinkRegexp s = true ->
  localLink false s = true.
Proof.
  unfold Patterns.localLinkRegexp. intros X.
  apply MatchString_anchored_iff in X. destruct X as [st' M].
  inversion M as [ | | a b st1 st2 st3 Ms Mt | | | | | | | ]; subst.
  apply suffix_localLink in Mt.
  apply (Star_Group1_localLink _ _ Ms) in Mt. exact Mt.
Qed.

Lemma match_of_localLink (s : string) :
  localLink false s = true ->
  Regexp.MatchString Patterns.localLinkRegexp s = true.
Proof.
  unfold Patterns.localLinkRegexp. intros L.
  apply MatchString_anchored_iff.
  apply (localLink_Matches (String.length s) s 0 (le_n _) L).
Qed.

(** X12.  The pattern of [isSameDomain] decides the local links byte by
    byte: a reference matches exactly when it is made of characters of
    [[A-Za-z0-9-_.]] and slashes, every slash followed by such a character,
    and then ends or goes on with a [#] or a [?] followed by anything that
    holds no line feed. *)
Theorem localLinkRegexp_bytes (s : string) :
  Regexp.MatchString Patterns.localLinkRegexp s = localLink false s.
Proof.
  destruct (localLink false s) eqn:L.
  - apply match_of_localLink. exact L.
  - destruct (Regexp.MatchString Patterns.localLinkRegexp s) eqn:X;
      [| reflexivity].
    apply localLink_of_match in X. congruence.
Qed.

(** ** Paths that end with a slash *)

Lemma Segment_localLink (s : string) :
  LocalPathGrammar.Segment s ->
  forall a rest, localLink a (s ++ rest) = localLink false rest.
Proof.
  induction 1 as [c Hc | c s Hc Hs IH]; intros a rest;
    cbn [append]; rewrite localLink_segmentChar by exact Hc;
    [reflexivity | apply IH].
Qed.

Lemma Segments_localLink (s : string) :
  LocalPathGrammar.Segments s ->
  forall a rest, localLink a (s ++ rest) = localLink false rest.
Proof.
  induction 1 as [s Hs | s t Hs Ht IH]; intros a rest.
  - apply Segment_localLink. exact Hs.
  - rewrite append_assoc, (Segment_localLink s Hs).
    change (("/" ++ t) ++ rest) with (String "/" (t ++ rest)).
    change (localLink false (String "/" (t ++ rest)))
      with (localLink true (t ++ rest)).
    apply IH.
Qed.

Lemma Path_localLink (p rest : string) :
  LocalPathGrammar.Path p ->
  localLink false (p ++ rest) = localLink false rest.
Proof.
  intros [s Hs | s Hs].
  - apply Segments_localLink. exact Hs.
  - change (localLink false (String "/" s ++ rest))
      with (localLink true (s ++ rest)).
    apply Segments_localLink. exact Hs.
Qed.

Lemma allBytes_append (p : ascii -> bool) (a b : string) :
  allBytes p (a ++ b) = allBytes p a && allBytes p b.
Proof.
  induction a as [|c a IH]; [reflexivity |].
  cbn [append allBytes]. rewrite IH. apply andb_assoc.
Qed.

Lemma Segment_bytes (s : string) :
  LocalPathGrammar.Segment s -> allBytes pathByte s = true.
Proof.
  induction 1 as [c Hc | c s Hc Hs IH]; cbn [allBytes]; unfold pathByte;
    rewrite Hc; [reflexivity | exact IH].
Qed.

Lemma Segments_bytes (s : string) :
  LocalPathGrammar.Segments s -> allBytes pathByte s = true.
Proof.
  induction 1 as [s Hs | s t Hs Ht IH].
  - apply Segment_bytes. exact Hs.
  - rewrite !allBytes_append, (Segment_bytes s Hs), IH. reflexivity.
Qed.

Lemma Path_bytes (p : string) :
  LocalPathGrammar.Path p -> allBytes pathByte p = true.
Proof.
  intros [s Hs | s Hs]; cbn [allBytes]; rewrite (Segments_bytes s Hs);
    reflexivity.
Qed.

Lemma HasPrefix_bytes (q : ascii -> bool) (p : string) :
  forall s, Strings.HasPrefix s p = true -> allBytes q s = true ->
            allBytes q p = true.
Proof.
  induction p as [|c p IH]; intros s Hp Hs; [reflexivity |].
  destruct s as [|d s]; [discriminate Hp |].
  cbn [Strings.HasPrefix] in Hp. apply andb_prop in Hp.
  destruct Hp as [Hcd Hp]. apply Ascii.eqb_eq in Hcd. subst d.
  cbn [allBytes] in *. apply andb_prop in Hs. destruct Hs as [Hc Hs].
  rewrite Hc. apply (IH s Hp Hs).
Qed.

(** The base URL holds a colon. *)
Lemma baseUrl_bytes (urlString domain port : string) :
  allBytes pathByte (baseUrlOf urlString domain port) = false.
Proof.
  unfold baseUrlOf.
  destruct (protocolOf_cases urlString) as [-> | ->];
    destruct (negb (String.eqb port "")); reflexivity.
Qed.

Lemma Segment_head (s : string) :
  LocalPathGrammar.Segment s ->
  exists c t, s = String c t /\ LocalPathGrammar.segmentChar c = true.
Proof. intros [c Hc | c t Hc Ht]; exists c; eauto. Qed.

Lemma Segments_head (s : string) :
  LocalPathGrammar.Segments s ->
  exists c t, s = String c t /\ LocalPathGrammar.segmentChar c = true.
Proof.
  intros [s0 Hs | s0 t Hs Ht];
    destruct (Segment_head _ Hs) as [c [t' [-> Hc]]].
  - exists c, t'. auto.
  - exists c, (t' ++ "/" ++ t). auto.
Qed.

Lemma segmentChar_not_slash (c : ascii) :
  LocalPathGrammar.segmentChar c = true -> Ascii.eqb "/" c = false.
Proof.
  intros H. destruct (Ascii.eqb_spec "/" c) as [<- |]; [| reflexivity].
  discriminate H.
Qed.

(** A path does not start with two slashes. *)
Lemma Path_no_double_slash (p rest domain : string) :
  LocalPathGrammar.Path p ->
  Strings.HasPrefix (p ++ rest) ("//" ++ domain) = false.
Proof.
  intros [s Hs | s Hs];
    destruct (Segments_head s Hs) as [c [t [-> Hc]]];
    cbn [append Strings.HasPrefix];
    rewrite ?Ascii.eqb_refl, (segmentChar_not_slash c Hc); reflexivity.
Qed.

(** X13.  A path that ends with a slash is third-party.  For every path of
    the grammar (an optional slash and segments of [[A-Za-z0-9-_.]]
    separated by slashes), the path followed by a slash, as in [/about/] or
    [css/], is rejected by [isSameDomain] for every target that [checkUrl]
    sets up: the pattern wants a character after each slash, and no other
    rule applies. *)
Theorem trailing_slash_third_party (p urlString domain port : string) :
  LocalPathGrammar.Path p ->
  isSameDomain (p ++ "/") (baseUrlOf urlString domain port) domain = false.
Proof.
  intros Hp. unfold isSameDomain.
  destruct (Regexp.MatchString Patterns.localLinkRegexp (p ++ "/")) eqn:L.
  { apply localLink_of_match in L.
    rewrite (Path_localLink p "/" Hp) in L. discriminate L. }
  rewrite (Path_no_double_slash p "/" domain Hp).
  assert (B : allBytes pathByte (p ++ "/") = true)
    by (rewrite allBytes_append, (Path_bytes p Hp); reflexivity).
  destruct (Strings.HasPrefix (p ++ "/") (baseUrlOf urlString domain port))
    eqn:X.
  { pose proof (HasPrefix_bytes pathByte _ _ X B) as Y.
    rewrite baseUrl_bytes in Y. discriminate Y. }
  destruct (String.eqb_spec (p ++ "/") "about:blank") as [E |];
    [| reflexivity].
  rewrite E in B. discriminate B.
Qed.

Lemma trailing_slash_third_party_witness :
  isSameDomain ("/about" ++ "/")
    (baseUrlOf "https://example.com" "example.com" "") "example.com" = false.
Proof.
  apply (trailing_slash_third_party "/about" "https://example.com"
           "example.com" "").
  apply LocalPathGrammar.path_rooted, LocalPathGrammar.segs_one.
  repeat (first [ apply LocalPathGrammar.seg_one; reflexivity
                | apply LocalPathGrammar.seg_more; [reflexivity |] ]).
Defined.

(** ** What an import target holds *)

Lemma drop_0 (s : string) : Strings.drop 0 s = s.
Proof. destruct s; reflexivity. Qed.

Lemma drop_drop (a : nat) :
  forall b s, Strings.drop b (Strings.drop a s) = Strings.drop (a + b) s.
Proof.
  induction a as [|a IH]; intros b s.
  - rewrite drop_0. reflexivity.
  - destruct s as [|c t].
    + destruct b; reflexivity.
    + cbn [Strings.drop Nat.add]. apply IH.
Qed.

(** A match takes a prefix of the text that is left. *)
Lemma Matches_suffix (r : Regexp.regex) (st st' : nat * string) :
  Matches r st st' ->
  fst st <= fst st'
  /\ snd st' = Strings.drop (fst st' - fst st) (snd st).
Proof.
  induction 1 as [ st | p pos s rune w Hs Hd Hp
                 | a b st1 st2 st3 M1 IH1 M2 IH2
                 | a st | a pos s pos1 s1 st2 M1 IH1 Hlen M2 IH2
                 | a st | a st st' M IH | i a st st' M IH | s | pos ];
    cbn [fst snd] in *;
    try (split; [lia | rewrite Nat.sub_diag, drop_0; reflexivity]);
    try exact IH.
  - split; [lia |]. replace (pos + w - pos) with w by lia. reflexivity.
  - destruct IH1 as [L1 E1], IH2 as [L2 E2]. split; [lia |].
    rewrite E2, E1, drop_drop. f_equal. lia.
  - destruct IH1 as [L1 E1], IH2 as [L2 E2]. split; [lia |].
    rewrite E2, E1, drop_drop. f_equal. lia.
Qed.

Lemma substring_drop (b : nat) :
  forall n s, substring b n s = substring 0 n (Strings.drop b s).
Proof.
  induction b as [|b IH]; intros n s.
  - rewrite drop_0. reflexivity.
  - destruct s as [|c t]; [destruct n; reflexivity |].
    cbn [substring Strings.drop]. apply IH.
Qed.

Lemma substring_split (w : nat) :
  forall n s, w <= String.length s ->
    substring 0 (w + n) s
    = substring 0 w s ++ substring 0 n (Strings.drop w s).
Proof.
  induction w as [|w IH]; intros n s Hw.
  - rewrite drop_0. cbn [Nat.add]. destruct s; reflexivity.
  - destruct s as [|c t]; [simpl in Hw; lia |].
    cbn [Nat.add substring Strings.drop append]. rewrite IH; [reflexivity |].
    simpl in Hw. lia.
Qed.

Lemma notParenQuote_byte (c : ascii) :
  Patterns.notParenQuote (N_of_ascii c) = true -> targetByte c = true.
Proof.
  destruct c as [b0 b1 b2 b3 b4 b5 b6 b7].
  destruct b0, b1, b2, b3, b4, b5, b6, b7; vm_compute;
    (discriminate || reflexivity).
Qed.

Lemma high_targetByte (c : ascii) :
  (128 <= N_of_ascii c)%N -> targetByte c = true.
Proof.
  destruct c as [b0 b1 b2 b3 b4 b5 b6 b7].
  destruct b0, b1, b2, b3, b4, b5, b6, b7; vm_compute;
    (reflexivity || (intros H; exfalso; apply H; reflexivity)).
Qed.

Lemma highBytes_targetBytes (n : nat) :
  forall t, highBytes n t = true ->
            allBytes targetByte (substring 0 n t) = true.
Proof.
  induction n as [|n IH]; intros t H; [destruct t; reflexivity |].
  destruct t as [|c t']; [discriminate H |].
  cbn [highBytes] in H. apply andb_prop in H. destruct H as [Hc H].
  cbn [substring allBytes].
  rewrite (high_targetByte c) by (apply N.leb_le; exact Hc).
  apply IH, H.
Qed.

(** The bytes of one rune of the class of the target. *)
Lemma Class_target_bytes (pos pos1 : nat) (s s1 : string) :
  Matches (Regexp.Class Patterns.notParenQuote) (pos, s) (pos1, s1) ->
  exists w, pos1 = pos + w /\ w <= String.length s
            /\ s1 = Strings.drop w s
            /\ allBytes targetByte (substring 0 w s) = true.
Proof.
  intros M.
  inversion M as [ | p0 pos0 s0 rune w Hs Hd Hr | | | | | | | | ]; subst.
  exists w. destruct s as [|c t]; [congruence |].
  destruct (DecodeRuneInString_spec c t rune w Hd) as [[Hw1 Hw2] _].
  repeat split; [exact Hw2 |].
  destruct (DecodeRuneInString_cases c t rune w Hd)
    as [[_ [-> ->]] | [Hc [_ [_ Hh]]]].
  - cbn [substring allBytes].
    rewrite (notParenQuote_byte c Hr). destruct t; reflexivity.
  - destruct w as [|w']; [lia |].
    replace (S w' - 1) with w' in Hh by lia.
    cbn [substring allBytes]. rewrite (high_targetByte c Hc).
    apply highBytes_targetBytes, Hh.
Qed.

(** The bytes that the group of the target takes. *)
Lemma Star_target_bytes (st st' : nat * string) :
  Matches (Regexp.Star (Regexp.Class Patterns.notParenQuote)) st st' ->
  allBytes targetByte (substring 0 (fst st' - fst st) (snd st)) = true.
Proof.
  intros M. revert st st' M.
  apply (Matches_Star_ind _
           (fun st st' =>
              allBytes targetByte
                (substring 0 (fst st' - fst st) (snd st)) = true)).
  - intros [p s]. cbn [fst snd]. rewrite Nat.sub_diag.
    destruct s; reflexivity.
  - intros pos s pos1 s1 st2 M1 _ M2 IH. cbn [fst snd] in *.
    apply Class_target_bytes in M1.
    destruct M1 as [w [-> [Hw [-> Hb]]]].
    apply Matches_suffix in M2. destruct M2 as [L _]. cbn [fst] in L.
    replace (fst st2 - pos) with (w + (fst st2 - (pos + w))) by lia.
    rewrite (substring_split w _ s Hw), allBytes_append, Hb, IH.
    reflexivity.
Qed.

Lemma exec_Cat (a b : Regexp.regex) pos s c k :
  Regexp.exec (Regexp.Cat a b) pos s c k
  = Regexp.exec a pos s c (fun pos' s' c' => Regexp.exec b pos' s' c' k).
Proof. reflexivity. Qed.

Lemma exec_Group (i : nat) (a : Regexp.regex) pos s c k :
  Regexp.exec (Regexp.Group i a) pos s c k
  = Regexp.exec a pos s c
      (fun pos' s' c' => k pos' s' (Regexp.setCap i (pos, pos') c')).
Proof. reflexivity. Qed.

Lemma suffix_step (r : Regexp.regex) (pos0 p p1 : nat) (s0 s s1 : string) :
  Matches r (p, s) (p1, s1) ->
  pos0 <= p -> s = Strings.drop (p - pos0) s0 ->
  pos0 <= p1 /\ s1 = Strings.drop (p1 - pos0) s0.
Proof.
  intros M L E. apply Matches_suffix in M. cbn [fst snd] in M.
  destruct M as [L1 E1]. split; [lia |].
  rewrite E1, E, drop_drop. f_equal. lia.
Qed.

(** Group 2 of a match of [cssRegexp] spans a run of the class of the
    target, in the text that the match was tried on. *)
Lemma matchAt_cssRegexp_target (pos : nat) (s : string) (c : Regexp.Caps) :
  Regexp.matchAt Patterns.cssRegexp pos s = Some c ->
  exists b e se,
    c 2 = Some (b, e) /\ pos <= b
    /\ Matches (Regexp.Star (Regexp.Class Patterns.notParenQuote))
               (b, Strings.drop (b - pos) s) (e, se).
Proof.
  unfold Regexp.matchAt, Patterns.cssRegexp. intros H.
  assert (S0 : pos <= pos /\ s = Strings.drop (pos - pos) s)
    by (split; [lia | rewrite Nat.sub_diag, drop_0; reflexivity]).
  rewrite exec_Cat in H. apply exec_sound in H.
  destruct H as [p1 [s1 [c1 [M1 [H _]]]]].
  destruct (suffix_step _ pos _ _ s _ _ M1 (proj1 S0) (proj2 S0)) as [L1 E1].
  rewrite exec_Cat in H. apply exec_sound in H.
  destruct H as [p2 [s2 [c2 [M2 [H _]]]]].
  destruct (suffix_step _ pos _ _ s _ _ M2 L1 E1) as [L2 E2].
  rewrite exec_Cat in H. apply exec_sound in H.
  destruct H as [p3 [s3 [c3 [M3 [H _]]]]].
  destruct (suffix_step _ pos _ _ s _ _ M3 L2 E2) as [L3 E3].
  rewrite exec_Cat in H. apply exec_sound in H.
  destruct H as [p4 [s4 [c4 [M4 [H _]]]]].
  destruct (suffix_step _ pos _ _ s _ _ M4 L3 E3) as [L4 E4].
  rewrite exec_Cat in H. apply exec_sound in H.
  destruct H as [p5 [s5 [c5 [M5 [H _]]]]].
  destruct (suffix_step _ pos _ _ s _ _ M5 L4 E4) as [L5 E5].
  rewrite exec_Cat, exec_Group in H. apply exec_sound in H.
  destruct H as [p6 [s6 [c6 [M6 [H _]]]]].
  apply exec_sound in H.
  destruct H as [p7 [s7 [c7 [M7 [H C7]]]]].
  inversion H; subst c. clear H.
  exists p5, p6, s6. split; [| split; [exact L5 |]].
  - unfold Regexp.setCap at 1. cbn [Nat.eqb].
    rewrite C7 by reflexivity. unfold Regexp.setCap. cbn [Nat.eqb].
    reflexivity.
  - rewrite <- E5. exact M6.
Qed.

Lemma search_matchAt (r : Regexp.regex) (s : string) :
  forall skip pos c,
    Regexp.search r skip pos s = Some c ->
    exists n, Regexp.matchAt r (pos + n) (Strings.drop n s) = Some c.
Proof.
  induction s as [|ch t IH]; intros skip pos c; cbn [Regexp.search].
  - intros H. exists 0. rewrite Nat.add_0_r. exact H.
  - destruct skip as [|k].
    + destruct (Regexp.matchAt r pos (String ch t)) as [c'|] eqn:X.
      * intros E. inversion E; subst c'. exists 0.
        rewrite Nat.add_0_r. exact X.
      * intros H. apply IH in H. destruct H as [n H]. exists (S n).
        cbn [Strings.drop]. rewrite <- H. f_equal. lia.
    + intros H. apply IH in H. destruct H as [n H]. exists (S n).
      cbn [Strings.drop]. rewrite <- H. f_equal. lia.
Qed.

(** Every match that [allMatches] returns is a match at some offset of the
    text. *)
Lemma allMatches_In (r : Regexp.regex) (txt : string) :
  forall fuel pos prevEnd c,
    In c (Regexp.allMatches r fuel txt pos prevEnd) ->
    exists q, Regexp.matchAt r q (Strings.drop q txt) = Some c.
Proof.
  induction fuel as [|f IH]; intros pos prevEnd c; [intros [] |].
  cbn [Regexp.allMatches].
  destruct (Nat.ltb (String.length txt) pos); [intros [] |].
  destruct (Regexp.search r 0 pos (Strings.drop pos txt)) as [c0|] eqn:X;
    [| intros []].
  apply search_matchAt in X. destruct X as [n X].
  rewrite drop_drop in X.
  destruct (c0 0) as [[b e]|]; [| intros []].
  assert (Here : forall rest,
             In c (c0 :: rest) ->
             (In c rest ->
              exists q, Regexp.matchAt r q (Strings.drop q txt) = Some c) ->
             exists q, Regexp.matchAt r q (Strings.drop q txt) = Some c).
  { intros rest [<- | Hin] Hrest; [exists (pos + n); exact X | auto]. }
  destruct (Nat.eqb e pos).
  - destruct prevEnd as [q|]; [destruct (Nat.eqb b q) |];
      intros Hin; first [ apply (Here _ Hin); apply IH | eapply IH; exact Hin ].
  - intros Hin. apply (Here _ Hin). apply IH.
Qed.

(** X14.  No import target that the scanning callbacks extract holds a
    closing parenthesis, a single quote or a double quote: the group of the
    target stops before the first of them. *)
Theorem import_targets_bytes (text t : string) :
  In t (extractImports text) -> allBytes targetByte t = true.
Proof.
  unfold extractImports, Regexp.FindAllStringSubmatch.
  rewrite map_map. intros H. apply in_map_iff in H.
  destruct H as [c [<- Hin]].
  change (nth 2 (map (Regexp.submatch text c) (seq 0 3)) EmptyString)
    with (Regexp.submatch text c 2).
  apply allMatches_In in Hin. destruct Hin as [q Hq].
  apply matchAt_cssRegexp_target in Hq.
  destruct Hq as [b [e [se [C [L M]]]]].
  unfold Regexp.submatch. rewrite C.
  rewrite drop_drop in M. replace (q + (b - q)) with b in M by lia.
  rewrite substring_drop.
  apply (Star_target_bytes _ _ M).
Qed.

Lemma import_targets_bytes_witness :
  allBytes targetByte "a.css" = true.
Proof.
  apply (import_targets_bytes
           ("@import " ++ dquote ++ "a.css" ++ dquote ++ "; p {}") "a.css").
  vm_compute. left. reflexivity.
Defined.

(** ** What the scanning callbacks leave alone *)

Lemma OnlyBuckets_refl fonts other r : OnlyBuckets fonts other r r.
Proof. repeat split. Qed.

Lemma OnlyBuckets_trans fonts other r1 r2 r3 :
  OnlyBuckets fonts other r1 r2 -> OnlyBuckets fonts other r2 r3 ->
  OnlyBuckets fonts other r1 r3.
Proof.
  intros [F1 [V1 [M1 B1]]] [F2 [V2 [M2 B2]]]. repeat split.
  - intros f. rewrite F2. apply F1.
  - congruence.
  - congruence.
  - intros b H1 H2. rewrite B2 by assumption. apply B1; assumption.
Qed.

Lemma OnlyBuckets_append fonts other b v r :
  b = fonts \/ b = other ->
  OnlyBuckets fonts other r (result (appendIfAbsent b v) r).
Proof.
  intros Hb. unfold result, appendIfAbsent.
  destruct (Strings.sliceContains (bucket b r) v); simpl;
    [apply OnlyBuckets_refl |].
  repeat split.
  - intros f. apply flag_setBucket.
  - destruct b; reflexivity.
  - destruct b; reflexivity.
  - intros b' H1 H2. apply bucket_setBucket_other.
    destruct Hb; congruence.
Qed.

Lemma OnlyBuckets_importTarget verbose baseUrl domain fonts other sm r :
  OnlyBuckets fonts other r
    (result (importTarget verbose baseUrl domain fonts other sm) r).
Proof.
  rewrite importTarget_actions. unfold importAction.
  destruct (Strings.Contains sm "googleapis.com");
    [| destruct (negb _)]; cbn [forEach]; rewrite ?result_bind;
    try apply OnlyBuckets_refl;
    (eapply OnlyBuckets_trans;
     [apply OnlyBuckets_append | apply OnlyBuckets_refl]); auto.
Qed.

Lemma OnlyBuckets_scanCss verbose baseUrl domain fonts other text r :
  OnlyBuckets fonts other r
    (result (scanCss verbose baseUrl domain fonts other text) r).
Proof.
  rewrite scanCss_extractImports.
  destruct (Regexp.MatchString _ _); [| apply OnlyBuckets_refl].
  revert r. induction (extractImports text) as [|sm rest IH]; intros r.
  - apply OnlyBuckets_refl.
  - cbn [forEach]. rewrite result_bind.
    eapply OnlyBuckets_trans; [apply OnlyBuckets_importTarget | apply IH].
Qed.

(** X15.  The [style] callback changes nothing but [googleFontsStyle] and
    [otherStyle], the response callback nothing but [googleFontsCss] and
    [otherCss]: flags, visit counter, mutex and the six other buckets keep
    their values.  A text without the literal [@import], and a response
    whose path does not end with [css], change nothing at all and leave no
    event. *)
Theorem scanning_callbacks_frame
        (verbose : bool) (baseUrl domain : string) (e : HTMLElement)
        (resp : Response) (r : ScanResult) :
  let style := styleHandler verbose baseUrl domain e in
  let response := responseHandler verbose baseUrl domain resp in
  OnlyBuckets GoogleFontsStyle OtherStyle r (result style r)
  /\ OnlyBuckets GoogleFontsCss OtherCss r (result response r)
  /\ (Strings.Contains (Text e) "@import" = false ->
      result style r = r /\ trace style r = [])
  /\ (Strings.Contains (Body resp) "@import" = false
      \/ Strings.HasSuffix (Path resp) "css" = false ->
      result response r = r /\ trace response r = []).
Proof.
  cbv zeta. unfold styleHandler, responseHandler.
  split; [| split; [| split]].
  - destruct (negb _); [apply OnlyBuckets_scanCss | apply OnlyBuckets_refl].
  - destruct (Strings.HasSuffix _ _);
      [apply OnlyBuckets_scanCss | apply OnlyBuckets_refl].
  - intros H. destruct (negb _); [| split; reflexivity].
    unfold scanCss. rewrite MatchString_cssRegexp, H. split; reflexivity.
  - intros [H | H].
    + destruct (Strings.HasSuffix _ _); [| split; reflexivity].
      unfold scanCss. rewrite MatchString_cssRegexp, H. split; reflexivity.
    + rewrite H. split; reflexivity.
Qed.

(** ** Absolute references *)

(** X16.  For a reference that starts with [http://] or [https://] only
    the base-URL rule of [isSameDomain] can apply: the reference is
    same-origin exactly when it starts with the base URL, so the same host
    under the other scheme is third-party. *)
Theorem absolute_reference (rest baseUrl domain : string) :
  isSameDomain ("http://" ++ rest) baseUrl domain
  = Strings.HasPrefix ("http://" ++ rest) baseUrl
  /\ isSameDomain ("https://" ++ rest) baseUrl domain
     = Strings.HasPrefix ("https://" ++ rest) baseUrl.
Proof.
  split; unfold isSameDomain.
  - destruct (Regexp.MatchString _ ("http://" ++ rest)) eqn:L;
      [apply localLink_of_match in L; discriminate L |].
    change (Strings.HasPrefix ("http://" ++ rest) ("//" ++ domain))
      with false.
    destruct (Strings.HasPrefix ("http://" ++ rest) baseUrl); reflexivity.
  - destruct (Regexp.MatchString _ ("https://" ++ rest)) eqn:L;
      [apply localLink_of_match in L; discriminate L |].
    change (Strings.HasPrefix ("https://" ++ rest) ("//" ++ domain))
      with false.
    destruct (Strings.HasPrefix ("https://" ++ rest) baseUrl); reflexivity.
Qed.

(** ** The collector at work *)

Lemma play_cons verbose baseUrl domain m moves c :
  play verbose baseUrl domain (m :: moves) c
  = play verbose baseUrl domain moves (move verbose baseUrl domain m c).
Proof. reflexivity. Qed.

Lemma play_app verbose baseUrl domain moves1 moves2 c :
  play verbose baseUrl domain (moves1 ++ moves2) c
  = play verbose baseUrl domain moves2
         (play verbose baseUrl domain moves1 c).
Proof. unfold play. apply fold_left_app. Qed.

Lemma nth_error_last {A : Type} (xs : list A) (x : A) :
  nth_error (xs ++ [x]) (List.length xs) = Some x.
Proof. induction xs as [|y rest IH]; simpl; [reflexivity | exact IH]. Qed.

Lemma setNth_last {A : Type} (xs : list A) (x y : A) :
  setNth (List.length xs) y (xs ++ [x]) = (xs ++ [y])%list.
Proof.
  induction xs as [|z rest IH]; simpl; [reflexivity |].
  rewrite IH. reflexivity.
Qed.

(** The callback started last makes its next access. *)
Lemma advance_last verbose baseUrl domain ws w r :
  move verbose baseUrl domain (Advance (List.length ws))
       {| shared := r; workers := ws ++ [w] |}
  = {| shared := snd (workerStep w r);
       workers := ws ++ [fst (workerStep w r)] |}.
Proof.
  unfold move. cbn [workers shared]. rewrite nth_error_last.
  destruct (workerStep w r) as [w' r']. rewrite setNth_last. reflexivity.
Qed.

(** A callback that has returned makes no access. *)
Lemma advance_returned verbose baseUrl domain ws r n :
  play verbose baseUrl domain (repeat (Advance (List.length ws)) n)
       {| shared := r; workers := ws ++ [{| todo := []; pc := AtContains |}] |}
  = {| shared := r; workers := ws ++ [{| todo := []; pc := AtContains |}] |}.
Proof.
  induction n as [|n IH]; [reflexivity |].
  cbn [repeat]. rewrite play_cons, advance_last. exact IH.
Qed.

(** An unlocked callback that is left alone until it returns does what the
    callback, run as one step, does: three accesses for a target are
    enough. *)
Lemma advance_alone verbose baseUrl domain ws acts :
  forall n r,
    3 * List.length acts <= n ->
    play verbose baseUrl domain (repeat (Advance (List.length ws)) n)
         {| shared := r;
            workers := ws ++ [{| todo := acts; pc := AtContains |}] |}
    = {| shared := result (forEach acts act) r;
         workers := ws ++ [{| todo := []; pc := AtContains |}] |}.
Proof.
  induction acts as [|a rest IH]; intros n r Hn.
  - apply advance_returned.
  - cbn [List.length] in Hn.
    destruct n as [|[|[|n]]]; try lia.
    cbn [forEach]. rewrite result_bind.
    cbn [repeat]. rewrite play_cons, advance_last.
    destruct a as [f | b v].
    + cbn [workerStep todo pc fst snd].
      refine (IH (S (S n)) _ _). lia.
    + unfold workerStep. cbn [todo pc]. unfold act, result at 2, appendIfAbsent.
      destruct (Strings.sliceContains (bucket b r) v) eqn:E;
        cbn [fst snd].
      * refine (IH (S (S n)) _ _). lia.
      * rewrite play_cons, advance_last. unfold workerStep.
        cbn [todo pc fst snd].
        rewrite play_cons, advance_last. unfold workerStep.
        cbn [todo pc fst snd].
        apply IH. lia.
Qed.

Lemma imports_scanCss verbose baseUrl domain fonts other text r :
  result (scanCss verbose baseUrl domain fonts other text) r
  = result (forEach (imports baseUrl domain fonts other text) act) r.
Proof.
  rewrite scanCss_extractImports. unfold imports.
  destruct (Regexp.MatchString _ _); [| reflexivity].
  revert r. induction (extractImports text) as [|sm rest IH]; intros r;
    [reflexivity |].
  cbn [forEach flat_map].
  rewrite result_bind, forEach_app, importTarget_actions. apply IH.
Qed.

(** The work of an unlocked callback, done in one step, is the callback. *)
Lemma scanWork_dispatch verbose baseUrl domain ev acts r :
  scanWork baseUrl domain ev = Some acts ->
  result (dispatch verbose baseUrl domain ev) r
  = result (forEach acts act) r.
Proof.
  destruct ev as [e | | e | e | e | e | resp]; cbn [scanWork]; intros H;
    try discriminate H; injection H as <-; cbn [dispatch].
  - unfold styleHandler.
    destruct (negb _); [apply imports_scanCss | reflexivity].
  - unfold responseHandler.
    destruct (Strings.HasSuffix _ _); [apply imports_scanCss | reflexivity].
Qed.

Lemma inTurn_crawl verbose baseUrl domain evs :
  forall ws r,
    shared (play verbose baseUrl domain
                 (inTurn baseUrl domain (List.length ws) evs)
                 {| shared := r; workers := ws |})
    = result (crawl verbose baseUrl domain evs) r.
Proof.
  induction evs as [|ev rest IH]; intros ws r; [reflexivity |].
  unfold crawl. cbn [forEach inTurn]. rewrite result_bind.
  destruct (scanWork baseUrl domain ev) as [acts |] eqn:E.
  - rewrite play_cons. unfold move at 1. rewrite E. cbn [shared workers].
    rewrite play_app, advance_alone by apply Nat.le_refl.
    rewrite (scanWork_dispatch verbose baseUrl domain ev acts r E).
    replace (S (List.length ws))
      with (List.length (ws ++ [{| todo := []; pc := AtContains |}])%list)
      by (rewrite length_app; simpl; lia).
    apply IH.
  - rewrite play_cons. unfold move at 1. rewrite E. cbn [shared workers].
    apply IH.
Qed.

(** The crawl that runs every callback to its end before the next one
    starts is one of the plays of the collector. *)
Lemma crawl_is_a_play verbose baseUrl domain evs r :
  shared (play verbose baseUrl domain (inTurn baseUrl domain 0 evs) (idle r))
  = result (crawl verbose baseUrl domain evs) r.
Proof. apply (inTurn_crawl verbose baseUrl domain evs [] r). Qed.

Lemma deliver_unlocked verbose baseUrl domain ev acts c :
  scanWork baseUrl domain ev = Some acts ->
  move verbose baseUrl domain (Deliver ev) c
  = {| shared := shared c;
       workers := (workers c ++ [{| todo := acts; pc := AtContains |}])%list |}.
Proof. intros H. unfold move. rewrite H. reflexivity. Qed.

Ltac access :=
  rewrite play_cons; unfold move at 1;
  cbn [workers shared nth_error]; unfold workerStep;
  cbn [todo pc setNth];
  rewrite ?bucket_setBucket_same.

(** C4.  The invariant of the buckets is not kept by the [style] callback
    and the response callback: they test and append without the mutex, and
    the collector runs callbacks at the same time.  Take two of them that
    each have one target for the same slice, neither target in it yet.
    When both have made their test before either appends, the slice ends
    with both targets: with the same target twice when the targets are the
    same.  When both have also read the slice before either assigns, the
    target of the first is recorded and then overwritten by the assignment
    of the second.  Run one after the other, the two callbacks record a
    common target once. *)
Theorem unlocked_append_race
        (verbose : bool) (baseUrl domain : string) (e1 e2 : CrawlEvent)
        (b : Bucket) (v w : string) (r : ScanResult) :
  scanWork baseUrl domain e1 = Some [Append b v] ->
  scanWork baseUrl domain e2 = Some [Append b w] ->
  Strings.sliceContains (bucket b r) v = false ->
  Strings.sliceContains (bucket b r) w = false ->
  let go := fun moves => play verbose baseUrl domain moves (idle r) in
  let twice := go [Deliver e1; Deliver e1; Advance 0; Advance 1;
                   Advance 0; Advance 0; Advance 1; Advance 1] in
  let early := go [Deliver e1; Deliver e2; Advance 0; Advance 1;
                   Advance 0; Advance 1; Advance 0] in
  let late := move verbose baseUrl domain (Advance 1) early in
  let turns := go (inTurn baseUrl domain 0 [e1; e1]) in
  (finished twice = true
   /\ bucket b (shared twice) = (bucket b r ++ [v; v])%list
   /\ ~ NoDupBuckets (shared twice))
  /\ (bucket b (shared early) = (bucket b r ++ [v])%list
      /\ finished late = true
      /\ bucket b (shared late) = (bucket b r ++ [w])%list)
  /\ (finished turns = true
      /\ bucket b (shared turns) = (bucket b r ++ [v])%list).
Proof.
  intros H1 H2 Hv Hw. cbv beta zeta.
  set (returned := {| todo := []; pc := AtContains |}).
  assert (T : play verbose baseUrl domain
                [Deliver e1; Deliver e1; Advance 0; Advance 1;
                 Advance 0; Advance 0; Advance 1; Advance 1] (idle r)
              = {| shared :=
                     setBucket b ((bucket b r ++ [v]) ++ [v])%list
                               (setBucket b (bucket b r ++ [v])%list r);
                   workers := [returned; returned] |}).
  { rewrite play_cons, (deliver_unlocked _ _ _ _ _ _ H1).
    rewrite play_cons, (deliver_unlocked _ _ _ _ _ _ H1).
    unfold idle. cbn [shared workers app].
    access. rewrite Hv.
    access. rewrite Hv.
    access. access. access. access.
    reflexivity. }
  assert (E : play verbose baseUrl domain
                [Deliver e1; Deliver e2; Advance 0; Advance 1;
                 Advance 0; Advance 1; Advance 0] (idle r)
              = {| shared := setBucket b (bucket b r ++ [v])%list r;
                   workers := [returned;
                               {| todo := [Append b w];
                                  pc := AtAssign (bucket b r) |}] |}).
  { rewrite play_cons, (deliver_unlocked _ _ _ _ _ _ H1).
    rewrite play_cons, (deliver_unlocked _ _ _ _ _ _ H2).
    unfold idle. cbn [shared workers app].
    access. rewrite Hv.
    access. rewrite Hw.
    access. access. access.
    reflexivity. }
  assert (S : play verbose baseUrl domain (inTurn baseUrl domain 0 [e1; e1])
                   (idle r)
              = {| shared := setBucket b (bucket b r ++ [v])%list r;
                   workers := [returned; returned] |}).
  { unfold inTurn. rewrite H1. cbn [List.length Nat.mul Nat.add repeat app].
    rewrite play_cons, (deliver_unlocked _ _ _ _ _ _ H1).
    unfold idle. cbn [shared workers app].
    access. rewrite Hv. access. access.
    rewrite play_cons, (deliver_unlocked _ _ _ _ _ _ H1).
    cbn [shared workers app].
    access.
    replace (Strings.sliceContains (bucket b r ++ [v]) v) with true.
    - access. access. reflexivity.
    - symmetry. unfold Strings.sliceContains. rewrite existsb_app.
      cbn [existsb]. rewrite String.eqb_refl.
      rewrite orb_true_r. reflexivity. }
  rewrite T, E, S. clear T E S.
  unfold move. cbn [workers shared nth_error]. unfold workerStep.
  cbn [todo pc setNth shared workers finished forallb returned].
  rewrite !bucket_setBucket_same, <- app_assoc. cbn [app].
  split; [| split].
  - split; [reflexivity |]. split; [reflexivity |].
    intros N. specialize (N b). rewrite bucket_setBucket_same in N.
    apply NoDup_remove_2 in N. apply N.
    apply in_or_app. right. left. reflexivity.
  - split; [reflexivity |]. split; reflexivity.
  - split; reflexivity.
Qed.

(** The theorem for two [style] elements with the same import of a foreign
    style sheet, and for a third that imports another one, from the empty
    report. *)
Lemma unlocked_append_race_witness :
  let e1 := OnStyle (styleElement
                       "@import url(https://cdn.example.net/a.css);") in
  let e2 := OnStyle (styleElement
                       "@import url(https://cdn.example.net/b.css);") in
  let a := "https://cdn.example.net/a.css" in
  let b := "https://cdn.example.net/b.css" in
  let go := fun moves =>
              play false "https://example.com" "example.com" moves
                   (idle emptyResult) in
  let twice := go [Deliver e1; Deliver e1; Advance 0; Advance 1;
                   Advance 0; Advance 0; Advance 1; Advance 1] in
  let early := go [Deliver e1; Deliver e2; Advance 0; Advance 1;
                   Advance 0; Advance 1; Advance 0] in
  let late := move false "https://example.com" "example.com" (Advance 1)
                   early in
  let turns := go (inTurn "https://example.com" "example.com" 0 [e1; e1]) in
  NoDupBuckets emptyResult
  /\ (finished twice = true
      /\ bucket OtherStyle (shared twice)
         = (bucket OtherStyle emptyResult ++ [a; a])%list
      /\ ~ NoDupBuckets (shared twice))
  /\ (bucket OtherStyle (shared early)
      = (bucket OtherStyle emptyResult ++ [a])%list
      /\ finished late = true
      /\ bucket OtherStyle (shared late)
         = (bucket OtherStyle emptyResult ++ [b])%list)
  /\ (finished turns = true
      /\ bucket OtherStyle (shared turns)
         = (bucket OtherStyle emptyResult ++ [a])%list).
Proof.
  split; [exact NoDupBuckets_emptyResult |].
  refine (unlocked_append_race false "https://example.com" "example.com"
            (OnStyle (styleElement
                        "@import url(https://cdn.example.net/a.css);"))
            (OnStyle (styleElement
                        "@import url(https://cdn.example.net/b.css);"))
            OtherStyle
            "https://cdn.example.net/a.css" "https://cdn.example.net/b.css"
            emptyResult _ _ _ _); vm_compute; reflexivity.
Defined.

(** ** From a finding to the output, whatever the interleaving *)











